(** * Travel review agent: the review-harvesting pipeline

    A shallow embedding of [TravelRecommendationAgent] (travel_agent.py):
    [get_travel_destinations], [search_naver_place], [crawl_reviews],
    [analyze_reviews_and_recommend] and the part of [run_agent_loop] that
    handles one region, with the Selenium session and the generative model
    as oracles; the calls made on the session and the lines printed are
    recorded. *)

From Stdlib Require Import ZArith NArith List String Ascii Bool Lia.
From stdpp Require Import base decidable option numbers list countable gmap.
Import ListNotations.

Local Open Scope Z_scope.

(** ** Python strings

    A Python [str] is a sequence of Unicode code points; [len] counts code
    points, not bytes. *)

Module Str.

Definition char := N.
Definition str := list char.

(** Source literals are written as UTF-8 string constants and decoded to
    code points. *)
Fixpoint utf8_decode (bs : list N) : str :=
  match bs with
  | [] => []
  | b :: r =>
      if (b <? 128)%N then b :: utf8_decode r
      else if (b <? 224)%N then
        match r with
        | c1 :: r1 => ((b - 192) * 64 + (c1 - 128))%N :: utf8_decode r1
        | _ => []
        end
      else if (b <? 240)%N then
        match r with
        | c1 :: c2 :: r2 =>
            ((b - 224) * 4096 + (c1 - 128) * 64 + (c2 - 128))%N :: utf8_decode r2
        | _ => []
        end
      else
        match r with
        | c1 :: c2 :: c3 :: r3 =>
            ((b - 240) * 262144 + (c1 - 128) * 4096 + (c2 - 128) * 64 + (c3 - 128))%N
              :: utf8_decode r3
        | _ => []
        end
  end.

Definition lit (s : string) : str :=
  utf8_decode (map N_of_ascii (list_ascii_of_string s)).

(** [len(s)] *)
Definition len (s : str) : Z := Z.of_nat (length s).

(** Truth value of a string: the empty string is falsy. *)
Definition truthy (s : str) : bool :=
  match s with [] => false | _ => true end.

Definition eqb (a b : str) : bool := bool_decide (a = b).

(** [s.startswith(p)] *)
Fixpoint startswith (p s : str) : bool :=
  match p, s with
  | [], _ => true
  | _ :: _, [] => false
  | a :: p', b :: s' => (a =? b)%N && startswith p' s'
  end.

(** [p in s] for strings: [p] occurs as a contiguous substring of [s]. *)
Fixpoint contains (p s : str) : bool :=
  startswith p s ||
  match s with
  | [] => false
  | _ :: s' => contains p s'
  end.

(** [any(kw in text for kw in kws)] *)
Definition any_in (kws : list str) (text : str) : bool :=
  existsb (fun kw => contains kw text) kws.

(** Characters for which [str.isspace] holds; these are what [str.strip()]
    removes and what [\s] matches in a [str] pattern. *)
Definition isspace (c : char) : bool :=
  ((9 <=? c) && (c <=? 13) || (28 <=? c) && (c <=? 32) ||
   (c =? 133) || (c =? 160) || (c =? 5760) ||
   (8192 <=? c) && (c <=? 8202) || (c =? 8232) || (c =? 8233) ||
   (c =? 8239) || (c =? 8287) || (c =? 12288))%N.

Fixpoint lstrip (s : str) : str :=
  match s with
  | c :: s' => if isspace c then lstrip s' else s
  | [] => []
  end.

Definition rstrip (s : str) : str := rev (lstrip (rev s)).

(** [s.strip()] *)
Definition strip (s : str) : str := rstrip (lstrip s).

(** [s.replace(old, new)] for a non-empty [old]: leftmost, non-overlapping
    occurrences are replaced.  [skip] counts the characters of the current
    occurrence still to be dropped. *)
Fixpoint replace_from (old new : str) (skip : nat) (s : str) : str :=
  match s with
  | [] => []
  | c :: s' =>
      match skip with
      | S k => replace_from old new k s'
      | O =>
          if startswith old s
          then new ++ replace_from old new (length old - 1) s'
          else c :: replace_from old new 0 s'
      end
  end.

Definition replace (old new s : str) : str := replace_from old new 0 s.

(** [s.split(sep)] for a one-character separator. *)
Fixpoint split (sep : char) (s : str) : list str :=
  match s with
  | [] => [[]]
  | c :: s' =>
      if (c =? sep)%N then [] :: split sep s'
      else match split sep s' with
           | w :: ws => (c :: w) :: ws
           | [] => [[c]]
           end
  end.

(** [sep.join(xs)] *)
Fixpoint join (sep : str) (xs : list str) : str :=
  match xs with
  | [] => []
  | x :: xs' =>
      match xs' with
      | [] => x
      | _ :: _ => x ++ sep ++ join sep xs'
      end
  end.

(** [l[:n]] on a Python list. *)
Definition slice_to {A} (l : list A) (n : Z) : list A :=
  if n <? 0 then take (Z.to_nat (Z.of_nat (length l) + n)) l
  else take (Z.to_nat n) l.

End Str.
Import Str.

(** ** Regular expressions used by the agent *)

Module Re.

(** Zero digits of the decimal-digit blocks (category Nd, Unicode 14.0 as
    shipped with CPython 3.11): [\d] in a [str] pattern matches the ten code
    points starting at each of them. *)
Definition Nd_zeros : list N :=
  [ 48; 1632; 1776; 1984; 2406; 2534; 2662; 2790; 2918; 3046; 3174; 3302;
    3430; 3558; 3664; 3792; 3872; 4160; 4240; 6112; 6160; 6470; 6608; 6784;
    6800; 6992; 7088; 7232; 7248; 42528; 43216; 43264; 43472; 43504; 43600;
    44016; 65296; 66720; 68912; 69734; 69872; 69942; 70096; 70384; 70736;
    70864; 71248; 71360; 71472; 71904; 72016; 72784; 73040; 73120; 92768;
    92864; 93008; 120782; 120792; 120802; 120812; 120822; 123200; 123632;
    125264; 130032 ]%N.

Definition isdecimal (c : char) : bool :=
  existsb (fun z => (z <=? c) && (c <? z + 10))%N Nd_zeros.

Fixpoint skip_while (p : char -> bool) (s : str) : str :=
  match s with
  | c :: s' => if p c then skip_while p s' else s
  | [] => []
  end.

(** [re.sub(r'^\d+\.\s*', '', s)]: a leading ordinal (digits, a period and
    any following whitespace) is removed; without it [s] is unchanged. *)
Definition sub_ordinal (s : str) : str :=
  match s with
  | c :: _ =>
      if isdecimal c then
        match skip_while isdecimal s with
        | 46%N :: r => skip_while isspace r
        | _ => s
        end
      else s
  | [] => []
  end.

(** [re.sub(lit + '[^' + stop + ']*', repl, s)] for a non-empty literal:
    matches are found left to right and never overlap.  [skip = Some (S k)]
    while [k+1] characters of the matched literal remain to be consumed,
    [skip = Some 0] inside the [[^stop]*] part, [skip = None] between
    matches. *)
Fixpoint sub_literal_until (l : str) (stop : char) (repl : str)
    (skip : option nat) (s : str) : str :=
  match s with
  | [] => []
  | c :: s' =>
      let search :=
        if startswith l s
        then repl ++ sub_literal_until l stop repl (Some (length l - 1)%nat) s'
        else c :: sub_literal_until l stop repl None s' in
      match skip with
      | Some (S k) => sub_literal_until l stop repl (Some k) s'
      | Some O =>
          if (c =? stop)%N then search
          else sub_literal_until l stop repl (Some O) s'
      | None => search
      end
  end.

End Re.
Import Re.

(** ** Exceptions and outcomes *)

(** The handlers of the source distinguish three classes: [except
    TimeoutException], [except Exception] and a bare [except:]. *)
Inductive exn : Type :=
  | TimeoutException   (* selenium.common.exceptions.TimeoutException *)
  | OtherException     (* any other subclass of Exception *)
  | BaseOnly.          (* a BaseException outside Exception, e.g. KeyboardInterrupt *)

Definition is_Timeout (e : exn) : bool :=
  match e with TimeoutException => true | _ => false end.

Definition is_Exception (e : exn) : bool :=
  match e with BaseOnly => false | _ => true end.

Definition is_any (e : exn) : bool := true.

Inductive outcome (A : Type) : Type :=
  | Ok (a : A)
  | Raise (e : exn).
Arguments Ok {A} a.
Arguments Raise {A} e.

(** ** The browser session *)

Inductive By : Type := By_ID | By_CSS_SELECTOR | By_XPATH.

Definition By_eqb (a b : By) : bool :=
  match a, b with
  | By_ID, By_ID | By_CSS_SELECTOR, By_CSS_SELECTOR | By_XPATH, By_XPATH => true
  | _, _ => false
  end.

(** What an element answers when the agent reads it. [get_attribute] gives
    [None] for an attribute the element does not have. *)
Record WebElement : Type := {
  text : outcome str;
  get_attribute : str -> outcome (option str)
}.

(** What the agent meets during one call of one of its methods: the answers
    of the browser (no method issues the same query twice) and the outcome
    of the pause the method makes with [time.sleep], which returns or is cut
    short by an error (a [KeyboardInterrupt] when the user interrupts the
    wait). *)
Record Driver : Type := {
  get : str -> outcome unit;
  until_frame_available : By -> str -> outcome unit;
  find_elements : By -> str -> outcome (list WebElement);
  default_content : outcome unit;
  sleep : Z -> outcome unit
}.

(** Calls made on the session, newest first in [calls]. *)
Inductive Call : Type :=
  | CallGet (url : str)
  | CallFrameWait (by_ : By) (name : str)
  | CallFindElements (by_ : By) (selector : str)
  | CallText
  | CallGetAttribute (name : str)
  | CallDefaultContent.

(** The document the queries of the session go to; it follows the frame
    switches the agent asks for. *)
Inductive Scope : Type :=
  | TopLevel
  | InFrame (name : str).

(** The session as the agent sees it, together with the list [reviews] that
    [crawl_reviews] appends to. *)
Record State : Type := {
  scope : Scope;
  calls : list Call;
  reviews : list str
}.

Definition set_scope (sc : Scope) (s : State) : State :=
  {| scope := sc; calls := calls s; reviews := reviews s |}.
Definition add_call (c : Call) (s : State) : State :=
  {| scope := scope s; calls := c :: calls s; reviews := reviews s |}.
Definition set_reviews (rs : list str) (s : State) : State :=
  {| scope := scope s; calls := calls s; reviews := rs |}.

Definition is_find (by_ : By) (selector : str) (c : Call) : bool :=
  match c with
  | CallFindElements b sel => By_eqb b by_ && eqb sel selector
  | _ => false
  end.

Definition count_calls (p : Call -> bool) (s : State) : nat :=
  length (filter (fun c => p c = true) (calls s)).

(** ** A state and exception monad *)

Definition M (A : Type) : Type := State -> outcome A * State.

Definition ret {A} (a : A) : M A := fun s => (Ok a, s).

Definition bind {A B} (m : M A) (f : A -> M B) : M B :=
  fun s =>
    match m s with
    | (Ok a, s') => f a s'
    | (Raise e, s') => (Raise e, s')
    end.

Definition raise {A} (e : exn) : M A := fun s => (Raise e, s).

Declare Scope m_scope.
Delimit Scope m_scope with M.
Notation "'let*' x := m 'in' k" := (bind m (fun x => k))
  (at level 10, x name, m at level 100, k at level 200) : m_scope.
Notation "m >> k" := (bind m (fun _ => k))
  (at level 90, right associativity) : m_scope.
Local Open Scope m_scope.

(** [try: body  except <class>: handler]; the state reached when the
    exception was raised is kept. *)
Definition try_except {A} (catches : exn -> bool) (body handler : M A) : M A :=
  fun s =>
    match body s with
    | (Raise e, s') => if catches e then handler s' else (Raise e, s')
    | r => r
    end.

(** [try: body  finally: cleanup] *)
Definition try_finally {A} (body : M A) (cleanup : M unit) : M A :=
  fun s =>
    let '(r, s') := body s in
    match cleanup s' with
    | (Ok _, s'') => (r, s'')
    | (Raise e, s'') => (Raise e, s'')
    end.

(** [for x in xs: body]; the body answers [true] for [break]. *)
Fixpoint for_each {A} (xs : list A) (body : A -> M bool) : M unit :=
  match xs with
  | [] => ret tt
  | x :: xs' => let* b := body x in if b : bool then ret tt else for_each xs' body
  end.

(** [for x in xs: body] where the body may [return v] (answer [Some v]);
    [None] when the loop runs to its end. *)
Fixpoint for_return {A R} (xs : list A) (body : A -> M (option R)) : M (option R) :=
  match xs with
  | [] => ret None
  | x :: xs' =>
      let* r := body x in
      match r with Some v => ret (Some v) | None => for_return xs' body end
  end.

Definition call {A} (c : Call) (answer : outcome A) : M A :=
  fun s => (answer, add_call c s).

Definition get_reviews : M (list str) := fun s => (Ok (reviews s), s).

(** [reviews.append(t)] *)
Definition append_review (t : str) : M unit :=
  fun s => (Ok tt, set_reviews (reviews s ++ [t]) s).

Definition enter_scope (sc : Scope) : M unit := fun s => (Ok tt, set_scope sc s).

(** ** Session operations *)

Section Session.

Variable driver : Driver.

(** [self.driver.get(url)] *)
Definition driver_get (url : str) : M unit :=
  call (CallGet url) (get driver url).

(** [WebDriverWait(self.driver, 10).until(
       EC.frame_to_be_available_and_switch_to_it((by, name)))] *)
Definition wait_and_switch_to_frame (by_ : By) (name : str) : M unit :=
  call (CallFrameWait by_ name) (until_frame_available driver by_ name) >>
  enter_scope (InFrame name).

(** [self.driver.find_elements(by, selector)] *)
Definition driver_find_elements (by_ : By) (selector : str) : M (list WebElement) :=
  call (CallFindElements by_ selector) (find_elements driver by_ selector).

(** [el.text] *)
Definition element_text (el : WebElement) : M str :=
  call CallText (text el).

(** [el.get_attribute(name)] *)
Definition element_get_attribute (el : WebElement) (name : str) : M (option str) :=
  call (CallGetAttribute name) (get_attribute el name).

(** [self.driver.switch_to.default_content()] *)
Definition switch_to_default_content : M unit :=
  call CallDefaultContent (default_content driver) >>
  enter_scope TopLevel.

(** [time.sleep(secs)]; it is no call on the session. *)
Definition time_sleep (secs : Z) : M unit :=
  fun s => (sleep driver secs, s).

End Session.

(** ** The agent *)

Definition dq : str := [34%N].
Definition newline : char := 10%N.

(** *** get_travel_destinations *)

Definition prompt (region : str) : str :=
  lit "
        대한민국 " ++ region ++
  lit " 지역의 유명한 여행지 5개를 추천해주세요.
        다음 형식으로만 답변해주세요:
        1. 여행지명1
        2. 여행지명2
        3. 여행지명3
        4. 여행지명4
        5. 여행지명5
        
        각 여행지명은 한 줄에 하나씩, 숫자와 점만 붙이고 추가 설명은 하지 마세요.
        ".

Definition default_destinations : gmap str (list str) :=
  <[ lit "서울" := map lit ["경복궁"; "명동"; "홍대"; "강남"; "한강공원"]%string ]>
  (<[ lit "부산" := map lit ["해운대"; "광안리"; "태종대"; "감천문화마을"; "자갈치시장"]%string ]>
  (<[ lit "경주" := map lit ["불국사"; "석굴암"; "첨성대"; "안압지"; "대릉원"]%string ]> ∅)).

Definition placeholder_destinations : list str :=
  map lit ["시청"; "역사"; "공원"; "시장"; "문화센터"]%string.

(** The loop over the lines of the reply. *)
Fixpoint collect_destinations (lines : list str) (destinations : list str) : list str :=
  match lines with
  | [] => destinations
  | line :: rest =>
      if truthy (strip line) then
        let destination := sub_ordinal (strip line) in
        if truthy destination
        then collect_destinations rest (destinations ++ [destination])
        else collect_destinations rest destinations
      else collect_destinations rest destinations
  end.

(** [generate_content p] stands for [self.model.generate_content(p).text]. *)
Definition get_travel_destinations (generate_content : str -> outcome str)
    (region : str) : outcome (list str) :=
  match generate_content (prompt region) with
  | Ok response_text =>
      let destinations :=
        collect_destinations (split newline (strip response_text)) [] in
      Ok (slice_to destinations 5)
  | Raise e =>
      if is_Exception e
      then Ok (default placeholder_destinations (default_destinations !! region))
      else Raise e
  end.

(** *** search_naver_place *)

Definition place_selectors : list str :=
  map lit ["a[href*='place.naver.com']"; "a[href*='/place/']"; ".place_bluelink a"]%string.

(** [re.sub(r'placePath=[^&]*', 'placePath=/review', url)] *)
Definition sub_placePath (url : str) : str :=
  sub_literal_until (lit "placePath=") 38%N (lit "placePath=/review") None url.

(** Lines 121-124: force the review tab. *)
Definition force_review_tab (place_url : str) : str :=
  if contains (lit "placePath=") place_url
  then sub_placePath place_url
  else place_url ++ lit "&placePath=/review".

Section Agent.

Variable driver : Driver.
(** [urllib.parse.quote] and [html.unescape] of the Python library;
    [quote] is taken on the texts it can encode (all but those with a lone
    surrogate). *)
Variable quote : str -> str.
Variable unescape : str -> str.

Definition search_url (destination region : str) : str :=
  let search_query := region ++ lit " " ++ destination in
  lit "https://search.naver.com/search.naver?query=" ++ quote search_query.

(** Lines 114-129: one round of the loop over [place_selectors]; [Some url]
    is [return url]. *)
Definition try_place_selector (selector : str) : M (option str) :=
  try_except is_any
    (let* place_elements := driver_find_elements driver By_CSS_SELECTOR selector in
     match place_elements with
     | first :: _ =>
         let* href := element_get_attribute first (lit "href") in
         match href with
         | Some place_url => ret (Some (force_review_tab place_url))
         | None => raise OtherException   (* ["placePath=" in None]: TypeError *)
         end
     | [] => ret None
     end)
    (ret None).

(** [search_naver_place(destination, region)]; [None] is Python's [None]. *)
Definition search_naver_place (destination region : str) : M (option str) :=
  try_except is_Exception
    (driver_get driver (search_url destination region) >>
     time_sleep driver 2 >>
     for_return place_selectors try_place_selector)
    (ret None).

(** *** crawl_reviews *)

Definition review_selectors : list str :=
  map lit [".zPfVt"; ".YEtwtZFlx"; "span.Wzv5Z90S4"]%string.

Definition review_list_selector : str :=
  lit "ul#_review_list a[role=" ++ dq ++ lit "button" ++ dq ++
  lit "][data-pui-click-code=" ++ dq ++ lit "rvshowless" ++ dq ++ lit "]".

Definition all_text_xpath : str := lit "//*[text()]".

Definition tier2_keywords : list str :=
  map lit ["맛있"; "좋았"; "추천"; "별로"; "다시"; "친절"; "분위기"; "최고"; "재밌"; "흥미"]%string.

Definition tier3_keywords : list str :=
  map lit ["좋다"; "추천"; "별로"; "맛있"; "친절"; "다시"]%string.

(** Line 172 *)
Definition tier1_accept (text : str) : bool :=
  truthy text && (10 <? len text).

(** Lines 202-205 *)
Definition tier2_accept (text : str) : bool :=
  truthy text && (20 <? len text) && (len text <? 1000) &&
  any_in tier2_keywords text.

(** Line 223 *)
Definition tier3_accept (text : str) : bool :=
  (20 <? len text) && (len text <? 500) && any_in tier3_keywords text.

(** [reviews.append(text)] followed by the [len(reviews) >= max_reviews]
    test that breaks out of the element loop. *)
Definition append_and_check (max_reviews : Z) (text : str) : M bool :=
  append_review text >>
  let* rs := get_reviews in
  ret (max_reviews <=? Z.of_nat (length rs)).

(** Lines 170-175: one element of a Tier 1 pattern. *)
Definition tier1_element (max_reviews : Z) (el : WebElement) : M bool :=
  let* t := element_text el in
  let text := strip t in
  if tier1_accept text then append_and_check max_reviews text
  else ret false.

(** Lines 166-179: one Tier 1 pattern; [true] is the [break] of line 177. *)
Definition tier1_selector (max_reviews : Z) (selector : str) : M bool :=
  try_except is_any
    (let* elements := driver_find_elements driver By_CSS_SELECTOR selector in
     match elements with
     | _ :: _ =>
         for_each elements (tier1_element max_reviews) >>
         let* rs := get_reviews in
         match rs with _ :: _ => ret true | [] => ret false end
     | [] => ret false
     end)
    (ret false).

(** Lines 165-179 *)
Definition tier1 (max_reviews : Z) : M unit :=
  for_each review_selectors (tier1_selector max_reviews).

(** Lines 192-211: one element of the review list. *)
Definition tier2_element (max_reviews : Z) (a : WebElement) : M bool :=
  try_except is_Exception
    (let* html_content := element_get_attribute a (lit "innerHTML") in
     match html_content with
     | Some h =>
         let cleaned :=
           strip (replace (lit "&nbsp;") (lit " ")
                    (replace (lit "<br>") [newline] h)) in
         let text := unescape cleaned in
         if tier2_accept text then append_and_check max_reviews text
         else ret false
     | None => raise OtherException   (* [None.replace]: AttributeError *)
     end)
    (ret false).

(** Lines 183-213 *)
Definition tier2 (max_reviews : Z) : M unit :=
  try_except is_Exception
    (let* a_tags := driver_find_elements driver By_CSS_SELECTOR review_list_selector in
     for_each a_tags (tier2_element max_reviews))
    (ret tt).

(** Lines 221-228: one text node of the page. *)
Definition tier3_element (max_reviews : Z) (el : WebElement) : M bool :=
  try_except is_any
    (let* t := element_text el in
     let text := strip t in
     if tier3_accept text then append_and_check max_reviews text
     else ret false)
    (ret false).

(** Lines 218-230 *)
Definition tier3 (max_reviews : Z) : M unit :=
  try_except is_any
    (let* all_texts := driver_find_elements driver By_XPATH all_text_xpath in
     for_each all_texts (tier3_element max_reviews))
    (ret tt).

(** Lines 235-240: the [seen] set and the [unique_reviews] list. *)
Fixpoint dedup (rs : list str) (seen : gset str) (unique_reviews : list str) : list str :=
  match rs with
  | [] => unique_reviews
  | r :: rs' =>
      if decide (r ∈ seen) then dedup rs' seen unique_reviews
      else dedup rs' ({[ r ]} ∪ seen) (unique_reviews ++ [r])
  end.

(** Lines 235-242 *)
Definition normalize (rs : list str) (max_reviews : Z) : list str :=
  slice_to (dedup rs ∅ []) max_reviews.

(** [if not reviews: m] *)
Definition if_no_reviews (m : M unit) : M unit :=
  let* rs := get_reviews in
  match rs with [] => m | _ :: _ => ret tt end.

(** Lines 158-242: the three tiers and the normalisation of what they
    collected. *)
Definition extract (max_reviews : Z) : M (list str) :=
  tier1 max_reviews >>
  if_no_reviews (tier2 max_reviews) >>
  if_no_reviews (tier3 max_reviews) >>
  let* rs := get_reviews in
  ret (normalize rs max_reviews).

(** Lines 149-156: [true] when the frame was entered, [false] for the
    [return []] of line 156. *)
Definition enter_entry_frame : M bool :=
  try_except is_Timeout
    (wait_and_switch_to_frame driver By_ID (lit "entryIframe") >> ret true)
    (ret false).

(** Lines 249-252 *)
Definition reset_scope : M unit :=
  try_except is_any (switch_to_default_content driver) (ret tt).

(** Lines 144-246: the [try] block with its [except Exception] handler. *)
Definition crawl_try (place_url : str) (max_reviews : Z) : M (list str) :=
  try_except is_Exception
    (driver_get driver place_url >>
     let* entered := enter_entry_frame in
     if entered : bool then extract max_reviews else ret [])
    (ret []).

(** The method from [reviews = []] on (lines 142-252). *)
Definition crawl_body (place_url : str) (max_reviews : Z) : M (list str) :=
  (fun s => (Ok tt, set_reviews [] s)) >>
  try_finally (crawl_try place_url max_reviews) reset_scope.

(** [crawl_reviews(place_url, max_reviews)]; [place_url] is [None] when the
    search found no place.  The local list [reviews] does not outlive the
    call. *)
Definition crawl_reviews (place_url : option str) (max_reviews : Z) : M (list str) :=
  match place_url with
  | None | Some [] => ret []
  | Some url =>
      fun s =>
        let '(r, s') := crawl_body url max_reviews s in
        (r, set_reviews (reviews s) s')
  end.

End Agent.

(** *** analyze_reviews_and_recommend *)

Definition no_reviews_message (destination : str) : str :=
  lit "'" ++ destination ++
  lit "'에 대한 리뷰를 찾을 수 없어 상세한 분석을 제공할 수 없습니다. 하지만 이 곳은 " ++
  destination ++ lit " 지역의 인기 여행지 중 하나입니다.".

Definition analysis_failed_message (destination : str) : str :=
  lit "'" ++ destination ++
  lit "'는 수집된 리뷰를 바탕으로 볼 때 방문할 만한 가치가 있는 여행지입니다.".

(** ["\n".join([f"- {review}" for review in reviews])] *)
Definition reviews_text (reviews : list str) : str :=
  join [newline] (map (fun review => lit "- " ++ review) reviews).

Definition analysis_prompt (destination : str) (reviews : list str) : str :=
  lit "
        다음은 '" ++ destination ++
  lit "' 여행지에 대한 실제 방문객 리뷰들입니다:

        " ++ reviews_text reviews ++
  lit "

        이 리뷰들을 바탕으로 다음 내용을 포함한 여행지 추천글을 작성해주세요:
        1. 이 여행지의 주요 매력 포인트
        2. 어떤 사람들에게 추천하는지 (가족, 연인, 친구, 혼자 등)
        3. 방문 시 주의사항이나 팁
        4. 전체적인 추천도 (5점 만점)

        친근하고 도움이 되는 톤으로 작성해주세요.
        ".

(** [generate_content p] stands for [self.model.generate_content(p).text]. *)
Definition analyze_reviews_and_recommend (generate_content : str -> outcome str)
    (destination : str) (reviews : list str) : outcome str :=
  match reviews with
  | [] => Ok (no_reviews_message destination)
  | _ :: _ =>
      match generate_content (analysis_prompt destination reviews) with
      | Ok response_text => Ok response_text
      | Raise e =>
          if is_Exception e
          then Ok (analysis_failed_message destination)
          else Raise e
      end
  end.

(** *** run_agent_loop

    The body of the main loop from the point where a region has been read
    (lines 308-362).  What the loop prints is recorded, newest first, next
    to the browser session. *)

Record Console : Type := {
  session : State;
  printed : list str
}.

Definition IO (A : Type) : Type := Console -> outcome A * Console.

Definition io_ret {A} (a : A) : IO A := fun w => (Ok a, w).

Definition io_bind {A B} (m : IO A) (f : A -> IO B) : IO B :=
  fun w =>
    match m w with
    | (Ok a, w') => f a w'
    | (Raise e, w') => (Raise e, w')
    end.

Declare Scope io_scope.
Delimit Scope io_scope with IO.
Notation "'let*' x := m 'in' k" := (io_bind m (fun x => k))
  (at level 10, x name, m at level 100, k at level 200) : io_scope.
Notation "m >> k" := (io_bind m (fun _ => k))
  (at level 90, right associativity) : io_scope.

(** [print(line)] *)
Definition print (line : str) : IO unit :=
  fun w => (Ok tt, {| session := session w; printed := line :: printed w |}).

(** A method of the agent that drives the browser. *)
Definition browse {A} (m : M A) : IO A :=
  fun w =>
    let '(r, s) := m (session w) in
    (r, {| session := s; printed := printed w |}).

(** A method of the agent that only consults the model. *)
Definition consult {A} (answer : outcome A) : IO A := fun w => (answer, w).

(** [for x in xs: body], for a body without [break]. *)
Fixpoint io_for {A} (xs : list A) (body : A -> IO unit) : IO unit :=
  match xs with
  | [] => io_ret tt
  | x :: xs' => io_bind (body x) (fun _ => io_for xs' body)
  end.

(** [enumerate(xs, start)] *)
Fixpoint enumerate {A} (xs : list A) (start : nat) : list (nat * A) :=
  match xs with
  | [] => []
  | x :: xs' => (start, x) :: enumerate xs' (S start)
  end.

Fixpoint digits (d : Decimal.uint) : str :=
  match d with
  | Decimal.Nil => []
  | Decimal.D0 d' => 48%N :: digits d'
  | Decimal.D1 d' => 49%N :: digits d'
  | Decimal.D2 d' => 50%N :: digits d'
  | Decimal.D3 d' => 51%N :: digits d'
  | Decimal.D4 d' => 52%N :: digits d'
  | Decimal.D5 d' => 53%N :: digits d'
  | Decimal.D6 d' => 54%N :: digits d'
  | Decimal.D7 d' => 55%N :: digits d'
  | Decimal.D8 d' => 56%N :: digits d'
  | Decimal.D9 d' => 57%N :: digits d'
  end.

(** [str(n)] for a natural number, as an f-string renders it. *)
Definition str_of_nat (n : nat) : str := digits (Nat.to_uint n).

(** [s * n] *)
Definition repeat_str (s : str) (n : nat) : str := concat (replicate n s).

(** The answers met while one destination is handled: the browser during
    [search_naver_place], the browser during [crawl_reviews], the model
    during [analyze_reviews_and_recommend]. *)
Record Visit : Type := {
  results : Driver;
  place_page : Driver;
  summary : str -> outcome str
}.

Section Loop.

Variable quote : str -> str.
Variable unescape : str -> str.

(** Line 319: one line of the list of destinations. *)
Definition destination_line (entry : nat * str) : str :=
  let '(i, dest) := entry in
  lit "   " ++ str_of_nat i ++ lit ". " ++ dest.

(** Line 347: one line of the sample. *)
Definition sample_line (entry : nat * str) : str :=
  let '(j, review) := entry in
  lit "   " ++ str_of_nat j ++ lit ". " ++ slice_to review 100 ++
  (if 100 <? len review then lit "..." else []).

Definition place_not_found : IO unit :=
  print (lit "❌ 네이버 플레이스를 찾을 수 없습니다.").

(** Lines 327-359: the body of the loop over the destinations. *)
Definition run_agent_loop_destination (v : Visit) (region : str)
    (entry : nat * str) : IO unit :=
  let '(i, destination) := entry in
  (print ([newline] ++ lit "🏛️  " ++ str_of_nat i ++ lit ". " ++ destination) >>
   print (repeat_str (lit "-") 30) >>
   let* place_url := browse (search_naver_place (results v) quote destination region) in
   match place_url with
   | Some ((_ :: _) as url) =>
       print (lit "🔗 플레이스 URL: " ++ url) >>
       print (lit "📝 리뷰 수집 중...") >>
       let* reviews := browse (crawl_reviews (place_page v) unescape place_url 10) in
       match reviews with
       | _ :: _ =>
           print (lit "✅ " ++ str_of_nat (length reviews) ++
                  lit "개의 리뷰를 수집했습니다.") >>
           print (lit "🤖 AI가 리뷰를 분석하여 추천글을 생성 중...") >>
           print ([newline] ++ lit "📄 수집된 리뷰 샘플:") >>
           io_for (enumerate (slice_to reviews 3) 1)
             (fun entry => print (sample_line entry)) >>
           let* recommendation :=
             consult (analyze_reviews_and_recommend (summary v) destination reviews) in
           print ([newline] ++ lit "🎯 AI 추천 분석 결과:") >>
           print recommendation
       | [] =>
           print (lit "❌ 리뷰를 수집할 수 없습니다.") >>
           print (lit "네이버 플레이스 페이지 구조가 변경되었거나 리뷰가 없을 수 있습니다.")
       end
   | _ => place_not_found
   end >>
   print ([newline] ++ repeat_str (lit "=") 50)
   (* time.sleep(3) *))%IO.

(** Lines 308-362: one region.  [visits i] holds the answers met while the
    [i]-th destination is handled. *)
Definition run_agent_loop_region (generate_content : str -> outcome str)
    (visits : nat -> Visit) (region : str) : IO unit :=
  (print ([newline] ++ lit "🔍 " ++ region ++ lit " 지역의 여행지를 찾고 있습니다...") >>
   let* destinations := consult (get_travel_destinations generate_content region) in
   match destinations with
   | [] => print (lit "❌ 여행지를 찾을 수 없습니다. 다른 지역을 시도해보세요.")
   | _ :: _ =>
       print ([newline] ++ lit " " ++ region ++ lit " 지역 추천 여행지:") >>
       io_for (enumerate destinations 1)
         (fun entry => print (destination_line entry)) >>
       print ([newline] ++
              lit " 각 여행지의 네이버 플레이스에서 실제 리뷰를 수집하고 분석합니다...") >>
       print (lit "이 과정은 몇 분 정도 소요될 수 있습니다.") >>
       print (repeat_str (lit "=") 50) >>
       io_for (enumerate destinations 1)
         (fun entry => run_agent_loop_destination (visits entry.1) region entry) >>
       print ([newline] ++ lit "✅ " ++ region ++ lit " 지역 여행지 추천이 완료되었습니다!") >>
       print (lit "다른 지역도 검색해보세요! 🌟")
   end)%IO.

End Loop.

(** * Vocabulary of the properties *)

(** [p] occurs in [s] as a contiguous run of characters. *)
Definition occurs_in (p s : str) : Prop := ∃ pre post, s = pre ++ p ++ post.

(** Each snippet at its first occurrence: the head is kept and removed from
    what follows. *)
Fixpoint first_seen (rs : list str) : list str :=
  match rs with
  | [] => []
  | r :: rs' => r :: filter (λ x, x ≠ r) (first_seen rs')
  end.

(** The run of [m] from [s] only adds calls that satisfy [P]. *)
Definition adds {A} (P : Call → Prop) (m : M A) (s : State) : Prop :=
  ∃ cs, calls (m s).2 = cs ++ calls s ∧ Forall P cs.

(** The answer of [m] and what it does to [reviews] depend on the incoming
    [reviews] only, not on the scope or on the calls made so far. *)
Definition oblivious {A} (m : M A) : Prop :=
  ∀ s1 s2, reviews s1 = reviews s2 →
    (m s1).1 = (m s2).1 ∧ reviews (m s1).2 = reviews (m s2).2.

(** The only calls of [extract] are element reads and element queries. *)
Definition is_extract_call (c : Call) : Prop :=
  match c with
  | CallText | CallGetAttribute _ | CallFindElements _ _ => True
  | _ => False
  end.

(** A session on which nothing has happened yet. *)
Definition blank : State := {| scope := TopLevel; calls := []; reviews := [] |}.

(** The snippets Tier 1 accepts from the answers of [driver]. *)
Definition tier1_yield (driver : Driver) (max_reviews : Z) : list str :=
  reviews (tier1 driver max_reviews blank).2.

Definition is_tier2_query : Call → bool := is_find By_CSS_SELECTOR review_list_selector.
Definition is_tier3_query : Call → bool := is_find By_XPATH all_text_xpath.

(** The text of the node can be read and Tier 1 accepts it. *)
Definition accepted_by_tier1 (el : WebElement) : Prop :=
  ∃ t, text el = Ok t ∧ tier1_accept (strip t) = true.

(** The text of the node can be read and Tier 1 rejects it (empty, or at
    most 10 characters after trimming). *)
Definition rejected_by_tier1 (el : WebElement) : Prop :=
  ∃ t, text el = Ok t ∧ tier1_accept (strip t) = false.

Definition readable (el : WebElement) : Prop := ∃ t, text el = Ok t.

(** The pattern contributes no snippet: the query fails, or every node it
    returns (there may be none) is rejected. *)
Definition yields_nothing (driver : Driver) (selector : str) : Prop :=
  (∃ e, find_elements driver By_CSS_SELECTOR selector = Raise e) ∨
  (∃ els, find_elements driver By_CSS_SELECTOR selector = Ok els ∧
          Forall rejected_by_tier1 els).

Definition is_query (selector : str) : Call → bool := is_find By_CSS_SELECTOR selector.

(** The pattern matches no link: the query answers the empty list, or it
    fails. *)
Definition no_match (driver : Driver) (selector : str) : Prop :=
  find_elements driver By_CSS_SELECTOR selector = Ok [] ∨
  (∃ e, find_elements driver By_CSS_SELECTOR selector = Raise e).

(** ** Vocabulary of the further properties *)

(** The text does not begin, respectively end, with whitespace. *)
Definition starts_clean (s : str) : bool :=
  match s with
  | c :: _ => negb (isspace c)
  | [] => true
  end.

Definition ends_clean (s : str) : bool := starts_clean (rev s).

(** A non-empty text without whitespace around it. *)
Definition clean_name (n : str) : Prop := n ≠ [] ∧ strip n = n.

(** A reply in the format the prompt of [get_travel_destinations] asks for:
    one line per name, made of an ordinal, a period, a space and the name. *)
Definition numbered_line (item : str * str) : str :=
  item.1 ++ lit ". " ++ item.2.

Definition numbered_reply (items : list (str * str)) : str :=
  join [newline] (map numbered_line items).

(** A non-empty run of decimal digits. *)
Definition ordinal (o : str) : Prop :=
  o ≠ [] ∧ Forall (λ c, isdecimal c = true) o.

(** A name on one line, without whitespace around it. *)
Definition plain_name (n : str) : Prop :=
  n ≠ [] ∧ strip n = n ∧ newline ∉ n.

(** The pattern gives no URL: it matches no link, or the target of its
    first link cannot be read. *)
Definition no_usable_link (driver : Driver) (selector : str) : Prop :=
  no_match driver selector ∨
  ∃ first others,
    find_elements driver By_CSS_SELECTOR selector = Ok (first :: others) ∧
    (get_attribute first (lit "href") = Ok None ∨
     ∃ e, get_attribute first (lit "href") = Raise e).

(** A snippet of more than ten characters. *)
Definition long_enough (r : str) : Prop := 10 < len r.

(** While a tier is still collecting, nothing has been collected yet or
    fewer than [max_reviews] snippets have; once it stops, at most
    [max_reviews] snippets, or the single first one, have been collected. *)
Definition collecting (max_reviews : Z) (rs : list str) : Prop :=
  (rs = [] ∨ Z.of_nat (length rs) < max_reviews) ∧ Forall long_enough rs.

Definition collected (max_reviews : Z) (rs : list str) : Prop :=
  Z.of_nat (length rs) ≤ Z.max 1 max_reviews ∧ Forall long_enough rs.

(** The state in which [extract] starts once the place page is loaded and
    its content frame entered. *)
Definition frame_entered (url : str) (s : State) : State :=
  set_scope (InFrame (lit "entryIframe"))
    (add_call (CallFrameWait By_ID (lit "entryIframe"))
       (add_call (CallGet url) (set_reviews [] s))).

Definition is_reset (c : Call) : bool :=
  match c with CallDefaultContent => true | _ => false end.

(** The snippets Tier 2 accepts from the answers of [driver]. *)
Definition tier2_yield (driver : Driver) (unescape : str → str) (max_reviews : Z)
  : list str :=
  reviews (tier2 driver unescape max_reviews blank).2.

(** The trimmed text of a node when Tier 1 accepts it. *)
Definition tier1_text (el : WebElement) : option str :=
  match text el with
  | Ok t => if tier1_accept (strip t) then Some (strip t) else None
  | Raise _ => None
  end.

Definition tier1_texts (els : list WebElement) : list str := omap tier1_text els.

(** A page load. *)
Definition is_load (c : Call) : bool :=
  match c with CallGet _ => true | _ => false end.

(** The page loads made so far. *)
Definition loads (w : Console) : nat := count_calls is_load (session w).

(** ** Scenarios *)

Module Scenarios.

(** A node with a visible text and no attributes. *)
Definition node (t : string) : WebElement :=
  {| text := Ok (lit t); get_attribute := λ _, Ok None |}.

(** A link with a target. *)
Definition link (href : string) : WebElement :=
  {| text := Ok [];
     get_attribute := λ name, if eqb name (lit "href") then Ok (Some (lit href)) else Ok None |}.

Fixpoint answer (selector : str) (answers : list (string * list WebElement))
  : list WebElement :=
  match answers with
  | [] => []
  | (sel, els) :: rest => if eqb (lit sel) selector then els else answer selector rest
  end.

(** A page that loads, shows its content frame and answers CSS queries from
    a table. *)
Definition page (answers : list (string * list WebElement)) : Driver :=
  {| get := λ _, Ok tt;
     until_frame_available := λ _ _, Ok tt;
     find_elements := λ by_ selector,
       match by_ with
       | By_CSS_SELECTOR => Ok (answer selector answers)
       | _ => Ok []
       end;
     default_content := Ok tt;
     sleep := λ _, Ok tt |}.

(** The same page without the content frame. *)
Definition frameless (d : Driver) : Driver :=
  {| get := get d;
     until_frame_available := λ _ _, Raise TimeoutException;
     find_elements := find_elements d;
     default_content := default_content d;
     sleep := sleep d |}.

(** [quote] and [unescape] on texts they leave alone. *)
Definition unchanged (s : str) : str := s.

Definition place_url : str :=
  lit "https://m.place.naver.com/place/11?entry=pll&placePath=/review".

(** The first Tier 1 pattern matches four nodes: a short label, the same
    review twice, and another review. *)
Definition reviews_page : Driver :=
  page [(".zPfVt",
         [node "리뷰"; node "음식이 정말 맛있고 친절했어요";
          node "음식이 정말 맛있고 친절했어요"; node "  분위기가 좋아서 다시 가고 싶은 곳  "])]%string.

(** The first Tier 1 pattern matches one node whose text is too short; the
    second pattern matches a review. *)
Definition label_page : Driver :=
  page [(".zPfVt", [node "리뷰 12"]);
        (".YEtwtZFlx", [node "음식이 정말 맛있고 친절했어요"])]%string.

(** Search results in which only the second link pattern matches. *)
Definition results_page : Driver :=
  page [("a[href*='/place/']",
         [link "https://m.place.naver.com/place/11?entry=pll&placePath=/home";
          link "https://m.place.naver.com/place/12?entry=pll"])]%string.

Definition silent_model (p : str) : outcome str := Ok [].

(** A show-less button of the review list with its markup. *)
Definition button (html : string) : WebElement :=
  {| text := Ok [];
     get_attribute := λ name,
       if eqb name (lit "innerHTML") then Ok (Some (lit html)) else Ok None |}.

(** A place page on which only the review list answers: one expandable
    review. *)
Definition review_list_page : Driver :=
  {| get := λ _, Ok tt;
     until_frame_available := λ _ _, Ok tt;
     find_elements := λ by_ selector,
       match by_ with
       | By_CSS_SELECTOR =>
           if eqb selector review_list_selector
           then Ok [button "음식이 정말 맛있고 친절했어요.<br>분위기도 좋아서 다시 가고 싶어요"]
           else Ok []
       | _ => Ok []
       end;
     default_content := Ok tt;
     sleep := λ _, Ok tt |}.

(** A page on which no query finds anything. *)
Definition empty_page : Driver := page [].

(** The same page when loading it fails with [e]. *)
Definition unreachable (e : exn) (d : Driver) : Driver :=
  {| get := λ _, Raise e;
     until_frame_available := until_frame_available d;
     find_elements := find_elements d;
     default_content := default_content d;
     sleep := sleep d |}.

(** The same page when the user interrupts the pause after the load. *)
Definition interrupted (d : Driver) : Driver :=
  {| get := get d;
     until_frame_available := until_frame_available d;
     find_elements := find_elements d;
     default_content := default_content d;
     sleep := λ _, Raise BaseOnly |}.

(** Search results in which the first link pattern matches a node without
    a target and the second one a link. *)
Definition untargeted_results_page : Driver :=
  page [("a[href*='place.naver.com']", [node "지도"]);
        ("a[href*='/place/']", [link "https://m.place.naver.com/place/12?entry=pll"])]%string.

(** A reply that does not keep to the format, one that does (with a sixth
    name), and a collaborator interrupted from outside. *)
Definition messy_model (p : str) : outcome str :=
  Ok (lit "  1. 경복궁 " ++ [newline] ++ [newline] ++ lit "2)남산타워" ++ [newline] ++
      lit "3.   북촌 한옥마을  " ++ [newline] ++ lit "- 명동" ++ [newline] ++
      lit "5. 홍대" ++ [newline] ++ lit "6. 강남" ++ [newline]).

Definition numbered_items : list (str * str) :=
  [(lit "1", lit "경복궁"); (lit "2", lit "남산타워"); (lit "3", lit "북촌 한옥마을");
   (lit "4", lit "명동"); (lit "5", lit "홍대"); (lit "6", lit "강남")].

Definition numbered_model (p : str) : outcome str := Ok (numbered_reply numbered_items).

Definition interrupted_model (p : str) : outcome str := Raise BaseOnly.

Definition praising_model (p : str) : outcome str := Ok (lit "가족에게 추천합니다").

(** Destinations for which a place with reviews is found, no place is
    found, and a place without reviews is found. *)
Definition visit_found : Visit :=
  {| results := results_page; place_page := reviews_page; summary := praising_model |}.

Definition visit_not_found : Visit :=
  {| results := empty_page; place_page := reviews_page; summary := praising_model |}.

Definition visit_no_reviews : Visit :=
  {| results := results_page; place_page := empty_page; summary := praising_model |}.

Definition visit_interrupted : Visit :=
  {| results := results_page; place_page := reviews_page; summary := interrupted_model |}.

(** Nothing printed yet, on a fresh session. *)
Definition console : Console := {| session := blank; printed := [] |}.

End Scenarios.
Import Scenarios.

(** Case analysis on the next step of a run. *)
Ltac step :=
  match goal with
  | |- context [match ?m ?s with _ => _ end] =>
      let r := fresh "r" in let s' := fresh "s" in let E := fresh "E" in
      destruct (m s) as [[r|r] s'] eqn:E; simpl
  end.

(** * Properties *)

(** ** The string operations on examples *)

Example lit_hangul : lit "추천" = [52628; 52380]%N.
Proof. reflexivity. Qed.

Example strip_spaces : strip ([9%N] ++ lit "  x y  " ++ [newline]) = lit "x y".
Proof. reflexivity. Qed.

Example split_lines :
  split newline (lit "a" ++ [newline] ++ lit "b" ++ [newline; newline])
  = [lit "a"; lit "b"; []; []].
Proof. reflexivity. Qed.

Example replace_breaks :
  replace (lit "&nbsp;") (lit " ") (replace (lit "<br>") [newline] (lit "a<br><br>b&nbsp;c<br"))
  = lit "a" ++ [newline; newline] ++ lit "b c<br".
Proof. reflexivity. Qed.

Example sub_ordinal_examples :
  sub_ordinal (lit "12.   경복궁") = lit "경복궁" ∧
  sub_ordinal (lit "12 경복궁") = lit "12 경복궁" ∧
  sub_ordinal (lit "1.") = [].
Proof. repeat split; reflexivity. Qed.

Example slice_to_examples :
  slice_to [1; 2; 3; 4; 5; 6]%nat 5 = [1; 2; 3; 4; 5]%nat ∧
  slice_to [1; 2; 3]%nat 5 = [1; 2; 3]%nat ∧
  slice_to [1; 2; 3]%nat 0 = [] ∧
  slice_to [1; 2; 3]%nat (-1) = [1; 2]%nat.
Proof. repeat split; reflexivity. Qed.

Example prompt_length : length (prompt (lit "서울")) = 220%nat.
Proof. reflexivity. Qed.

Example sub_placePath_all_occurrences :
  sub_placePath (lit "u?placePath=/menu&x=1&placePath=/home#top")
  = lit "u?placePath=/review&x=1&placePath=/review".
Proof. reflexivity. Qed.

(** ** Substrings *)

Lemma startswith_spec (p s : str) :
  startswith p s = true ↔ ∃ post, s = p ++ post.
Proof.
  revert s. induction p as [|a p IH]; intros s; simpl.
  - split; [intros _; by exists s | done].
  - destruct s as [|b s].
    + split; [done | by intros [post ?]].
    + rewrite andb_true_iff, N.eqb_eq, IH. split.
      * intros [-> [post ->]]. by exists post.
      * intros [post Hs]. injection Hs as -> ->. split; [done | by exists post].
Qed.

Lemma startswith_app (p t : str) : startswith p (p ++ t) = true.
Proof. apply startswith_spec. by exists t. Qed.

Lemma contains_spec (p s : str) : contains p s = true ↔ occurs_in p s.
Proof.
  split.
  - induction s as [|c s IH].
    + simpl. rewrite orb_false_r. intros H.
      apply startswith_spec in H as [post ->]. by exists [], post.
    + simpl. rewrite orb_true_iff. intros [H|H].
      * apply startswith_spec in H as [post ->]. by exists [], post.
      * destruct (IH H) as (pre & post & ->). by exists (c :: pre), post.
  - intros (pre & post & ->). induction pre as [|c pre IH].
    + pose proof (startswith_app p post) as H. simpl.
      destruct (p ++ post); simpl; by rewrite H.
    + simpl. rewrite IH. apply orb_true_r.
Qed.

Lemma contains_false (p s : str) : contains p s = false ↔ ¬ occurs_in p s.
Proof.
  rewrite <- contains_spec. destruct (contains p s); split; done.
Qed.

Lemma contains_false_cons (p : str) (c : char) (s : str) :
  contains p (c :: s) = false → startswith p (c :: s) = false ∧ contains p s = false.
Proof. simpl. by intros [? ?]%orb_false_elim. Qed.

Lemma any_in_spec (kws : list str) (s : str) :
  any_in kws s = true ↔ ∃ kw, kw ∈ kws ∧ occurs_in kw s.
Proof.
  unfold any_in. rewrite existsb_exists. split.
  - intros (kw & Hin & H). exists kw. split; [by apply list_elem_of_In | by apply contains_spec].
  - intros (kw & Hin & H). exists kw. split; [by apply list_elem_of_In | by apply contains_spec].
Qed.

(** ** Tier 2 and Tier 3 filters *)

Lemma tier2_accept_spec (t : str) :
  tier2_accept t = true ↔
  (20 < len t < 1000 ∧ ∃ kw, kw ∈ tier2_keywords ∧ occurs_in kw t).
Proof.
  unfold tier2_accept. rewrite !andb_true_iff, any_in_spec, !Z.ltb_lt. split.
  - intros [[[_ ?] ?] ?]. done.
  - intros [[? ?] ?]. repeat split; try done.
    destruct t; [unfold len in *; simpl in *; lia | done].
Qed.

Lemma tier3_accept_spec (t : str) :
  tier3_accept t = true ↔
  (20 < len t < 500 ∧ ∃ kw, kw ∈ tier3_keywords ∧ occurs_in kw t).
Proof.
  unfold tier3_accept. rewrite !andb_true_iff, any_in_spec, !Z.ltb_lt. split.
  - intros [[? ?] ?]. done.
  - intros [[? ?] ?]. done.
Qed.

(** C4. A text passes the Tier 2 filter exactly when its length is strictly
    between 20 and 1000 and one of the ten Tier 2 keywords occurs in it; it
    passes the Tier 3 filter exactly when its length is strictly between 20
    and 500 and one of the six Tier 3 keywords occurs in it.  So texts of
    length 20, 1000 (Tier 2) or 20, 500 (Tier 3), and texts without a
    keyword, are rejected. *)
Theorem tier_filters_exact (t : str) :
  (tier2_accept t = true ↔
     (20 < len t < 1000 ∧ ∃ kw, kw ∈ tier2_keywords ∧ occurs_in kw t)) ∧
  (tier3_accept t = true ↔
     (20 < len t < 500 ∧ ∃ kw, kw ∈ tier3_keywords ∧ occurs_in kw t)).
Proof. split; [apply tier2_accept_spec | apply tier3_accept_spec]. Qed.

(** Texts of exactly the boundary lengths are rejected whatever they
    contain. *)
Lemma tier_filters_boundaries (t : str) :
  (len t = 20 ∨ len t = 1000 → tier2_accept t = false) ∧
  (len t = 20 ∨ len t = 500 → tier3_accept t = false).
Proof.
  split; intros Hl.
  - destruct (tier2_accept t) eqn:E; [|done]. apply tier2_accept_spec in E. lia.
  - destruct (tier3_accept t) eqn:E; [|done]. apply tier3_accept_spec in E. lia.
Qed.

(** The filters decide what the element loops of Tier 2 and Tier 3 append:
    the candidate text is added to [reviews] exactly when it is accepted. *)
Lemma tier2_element_run (unescape : str → str) (max_reviews : Z)
    (a : WebElement) (s : State) :
  tier2_element unescape max_reviews a s
  = let s1 := add_call (CallGetAttribute (lit "innerHTML")) s in
    match get_attribute a (lit "innerHTML") with
    | Ok (Some h) =>
        let t := unescape (strip (replace (lit "&nbsp;") (lit " ")
                                    (replace (lit "<br>") [newline] h))) in
        if tier2_accept t
        then (Ok (max_reviews <=? Z.of_nat (length (reviews s ++ [t]))),
              set_reviews (reviews s ++ [t]) s1)
        else (Ok false, s1)
    | Ok None => (Ok false, s1)
    | Raise e => if is_Exception e then (Ok false, s1) else (Raise e, s1)
    end.
Proof.
  unfold tier2_element, try_except, element_get_attribute, bind, call.
  destruct (get_attribute a (lit "innerHTML")) as [[h|]|e]; try done.
  cbn zeta. by destruct (tier2_accept _).
Qed.

Lemma tier3_element_run (max_reviews : Z) (el : WebElement) (s : State) :
  tier3_element max_reviews el s
  = let s1 := add_call CallText s in
    match text el with
    | Ok t =>
        if tier3_accept (strip t)
        then (Ok (max_reviews <=? Z.of_nat (length (reviews s ++ [strip t]))),
              set_reviews (reviews s ++ [strip t]) s1)
        else (Ok false, s1)
    | Raise _ => (Ok false, s1)
    end.
Proof.
  unfold tier3_element, try_except, element_text, bind, call.
  destruct (text el) as [t|e]; [|done]. by destruct (tier3_accept (strip t)).
Qed.

(** ** The review-tab rewrite *)

Section SubLiteral.

Variables (l : str) (stop : char) (repl : str).

Lemma sub_no_match (s : str) :
  contains l s = false → sub_literal_until l stop repl None s = s.
Proof.
  induction s as [|c s IH]; [done|].
  intros [Hs Hc]%contains_false_cons.
  cbn [sub_literal_until]. rewrite Hs. by rewrite IH.
Qed.

Lemma sub_inside_literal (w s : str) :
  sub_literal_until l stop repl (Some (length w)) (w ++ s)
  = sub_literal_until l stop repl (Some O) s.
Proof. induction w as [|c w IH]; [done|]. simpl. apply IH. Qed.

Lemma sub_inside_value (value rest : str) :
  stop ∉ value →
  rest = [] ∨ (∃ r, rest = stop :: r) →
  sub_literal_until l stop repl (Some O) (value ++ rest)
  = sub_literal_until l stop repl None rest.
Proof.
  intros Hv Hr. induction value as [|c v IH].
  - destruct Hr as [->|[r ->]]; [done|].
    cbn [app sub_literal_until]. by rewrite N.eqb_refl.
  - apply not_elem_of_cons in Hv as [Hc Hv].
    cbn [app sub_literal_until].
    destruct (N.eqb_spec c stop) as [->|_]; [done|]. by apply IH.
Qed.

Lemma sub_at_match (t : str) :
  l ≠ [] →
  sub_literal_until l stop repl None (l ++ t)
  = repl ++ sub_literal_until l stop repl (Some O) t.
Proof.
  intros Hl. pose proof (startswith_app l t) as Hs.
  destruct l as [|c w] eqn:E; [done|].
  cbn [app sub_literal_until]. cbn [app] in Hs. rewrite Hs.
  f_equal. replace (length (c :: w) - 1)%nat with (length w) by (simpl; lia).
  rewrite <- E. apply sub_inside_literal.
Qed.

(** Before the first occurrence the text is copied. *)
Lemma sub_before_match (pre t : str) :
  (∀ a b, pre = a ++ b → b ≠ [] → startswith l (b ++ t) = false) →
  sub_literal_until l stop repl None (pre ++ t)
  = pre ++ sub_literal_until l stop repl None t.
Proof.
  induction pre as [|c pre IH]; intros H; [done|].
  pose proof (H [] (c :: pre) eq_refl ltac:(done)) as Hs.
  cbn [app sub_literal_until]. cbn [app] in Hs. rewrite Hs. f_equal.
  apply IH. intros a b -> Hb. by apply (H (c :: a) b).
Qed.

End SubLiteral.

Lemma placePath_chars :
  lit "placePath=" = [112; 108; 97; 99; 101; 80; 97; 116; 104; 61]%N.
Proof. reflexivity. Qed.

(** No occurrence of the literal straddles the end of a text followed by
    the literal: its last character, [=], occurs nowhere else in it. *)
Lemma placePath_straddle (pre t : str) :
  pre ≠ [] →
  contains (lit "placePath=") pre = false →
  startswith (lit "placePath=") (pre ++ lit "placePath=" ++ t) = false.
Proof.
  rewrite placePath_chars. intros Hne Hc.
  destruct pre as [|c1 pre]; [done|].
  apply contains_false_cons in Hc as [Hs _]. revert Hs.
  do 9 (destruct pre as [|? pre];
        [intros _; cbn -[N.eqb];
         repeat (match goal with
                 | |- context [(?a =? ?b)%N] =>
                     is_var b; destruct (a =? b)%N; cbn -[N.eqb]
                 end); reflexivity|]).
  cbn -[N.eqb]. done.
Qed.

Lemma sub_placePath_first (pre value rest : str) :
  ¬ occurs_in (lit "placePath=") pre →
  38%N ∉ value →
  rest = [] ∨ (∃ r, rest = 38%N :: r) →
  sub_placePath (pre ++ lit "placePath=" ++ value ++ rest)
  = pre ++ lit "placePath=/review" ++
    sub_literal_until (lit "placePath=") 38%N (lit "placePath=/review") None rest.
Proof.
  intros Hpre Hv Hr. unfold sub_placePath.
  rewrite sub_before_match.
  - rewrite sub_at_match by done. by rewrite sub_inside_value.
  - intros a b -> Hb. apply placePath_straddle; [done|].
    apply contains_false. intros (x & y & ->). apply Hpre.
    exists (a ++ x), y. by rewrite <- !app_assoc.
Qed.

(** C5. A URL whose only [placePath] parameter has the value [value] (the
    text up to the next [&] or the end of the URL) is mapped to the same URL
    with that value replaced by [/review]; a URL without [placePath=] gets
    [&placePath=/review] appended. *)
Theorem force_review_tab_spec :
  (∀ pre value rest : str,
     ¬ occurs_in (lit "placePath=") pre →
     38%N ∉ value →
     rest = [] ∨ (∃ r, rest = 38%N :: r) →
     ¬ occurs_in (lit "placePath=") rest →
     force_review_tab (pre ++ lit "placePath=" ++ value ++ rest)
     = pre ++ lit "placePath=/review" ++ rest) ∧
  (∀ url : str,
     ¬ occurs_in (lit "placePath=") url →
     force_review_tab url = url ++ lit "&placePath=/review").
Proof.
  split.
  - intros pre value rest Hpre Hv Hr Hrest. unfold force_review_tab.
    replace (contains _ _) with true.
    + rewrite sub_placePath_first by done.
      rewrite sub_no_match; [done | by apply contains_false].
    + symmetry. apply contains_spec. by exists pre, (value ++ rest).
  - intros url Hurl. unfold force_review_tab.
    apply contains_false in Hurl. by rewrite Hurl.
Qed.

(** The two cases of the specification on concrete URLs. *)
Lemma force_review_tab_witness :
  force_review_tab (lit "https://m.place.naver.com/restaurant/11?entry=pll&placePath=/menu")
  = lit "https://m.place.naver.com/restaurant/11?entry=pll&placePath=/review" ∧
  force_review_tab (lit "https://m.place.naver.com/restaurant/11?entry=pll")
  = lit "https://m.place.naver.com/restaurant/11?entry=pll&placePath=/review".
Proof.
  split.
  - apply (proj1 force_review_tab_spec
             (lit "https://m.place.naver.com/restaurant/11?entry=pll&")
             (lit "/menu") []).
    + apply contains_false. reflexivity.
    + apply (bool_decide_eq_false_1 _). reflexivity.
    + by left.
    + apply contains_false. reflexivity.
  - apply (proj2 force_review_tab_spec
             (lit "https://m.place.naver.com/restaurant/11?entry=pll")).
    apply contains_false. reflexivity.
Defined.

(** ** Normalisation of the collected snippets *)

Lemma filter_all {A} (P : A → Prop) `{∀ x, Decision (P x)} (l : list A) :
  (∀ x, P x) → filter P l = l.
Proof.
  intros HP. induction l as [|a l IH]; [done|].
  rewrite filter_cons_True by done. by rewrite IH.
Qed.

Lemma first_seen_filter (P : str → Prop) `{∀ x, Decision (P x)} (rs : list str) :
  first_seen (filter P rs) = filter P (first_seen rs).
Proof.
  induction rs as [|r rs IH]; [done|].
  cbn [first_seen]. rewrite !filter_cons. destruct (decide (P r)) as [Hr|Hr].
  - cbn [first_seen]. rewrite IH. f_equal.
    rewrite !list_filter_filter. apply list_filter_iff. intros x. tauto.
  - rewrite IH. rewrite list_filter_filter. apply list_filter_iff.
    intros x. split; [|tauto]. intros Hx. split; [done|]. by intros ->.
Qed.

Lemma first_seen_subset (rs : list str) (x : str) : x ∈ first_seen rs → x ∈ rs.
Proof.
  induction rs as [|r rs IH]; [done|]. cbn [first_seen].
  rewrite !elem_of_cons, list_elem_of_filter.
  intros [->|[_ Hx]]; [by left | right; by apply IH].
Qed.

Lemma first_seen_NoDup (rs : list str) : NoDup (first_seen rs).
Proof.
  induction rs as [|r rs IH]; cbn [first_seen]; [constructor|].
  constructor.
  - rewrite list_elem_of_filter. by intros [Hne _].
  - by apply NoDup_filter.
Qed.

(** The loop of lines 235-240 computes [first_seen] of the snippets not yet
    in [seen], after what is already in [unique_reviews]. *)
Lemma dedup_first_seen (rs : list str) (seen : gset str) (unique_reviews : list str) :
  dedup rs seen unique_reviews
  = unique_reviews ++ first_seen (filter (λ x, x ∉ seen) rs).
Proof.
  revert seen unique_reviews. induction rs as [|r rs IH]; intros seen unique_reviews.
  - simpl. by rewrite app_nil_r.
  - cbn [dedup]. rewrite filter_cons. destruct (decide (r ∈ seen)) as [Hr|Hr].
    + rewrite decide_False by (intros Hn; by apply Hn). apply IH.
    + rewrite decide_True by done. rewrite IH. rewrite <- app_assoc. f_equal.
      cbn [app first_seen]. f_equal.
      rewrite <- first_seen_filter, list_filter_filter. f_equal.
      apply list_filter_iff. intros x.
      rewrite not_elem_of_union, not_elem_of_singleton. tauto.
Qed.

Lemma normalize_first_seen (rs : list str) (max_reviews : Z) :
  0 ≤ max_reviews →
  normalize rs max_reviews = take (Z.to_nat max_reviews) (first_seen rs).
Proof.
  intros Hmax. unfold normalize, slice_to.
  destruct (Z.ltb_spec max_reviews 0) as [?|_]; [lia|].
  rewrite dedup_first_seen. cbn [app]. f_equal. f_equal.
  apply filter_all. intros x. apply not_elem_of_empty.
Qed.

Lemma normalize_NoDup (rs : list str) (max_reviews : Z) :
  NoDup (normalize rs max_reviews).
Proof.
  unfold normalize, slice_to. rewrite dedup_first_seen. cbn [app].
  destruct (max_reviews <? 0);
    (eapply sublist_NoDup; [apply first_seen_NoDup | apply sublist_take]).
Qed.

Lemma normalize_length (rs : list str) (max_reviews : Z) :
  0 ≤ max_reviews →
  Z.of_nat (length (normalize rs max_reviews)) ≤ max_reviews.
Proof.
  intros Hmax. rewrite normalize_first_seen by done. rewrite length_take. lia.
Qed.

(** ** Reasoning about runs *)

Section Adds.

Context {A B : Type} (P : Call → Prop).

Lemma adds_nothing (m : M A) (s : State) :
  calls (m s).2 = calls s → adds P m s.
Proof. intros H. exists []. by rewrite H. Qed.

Lemma adds_ret (a : A) (s : State) : adds P (ret a) s.
Proof. by apply adds_nothing. Qed.

Lemma adds_raise (e : exn) (s : State) : adds P (raise (A:=A) e) s.
Proof. by apply adds_nothing. Qed.

Lemma adds_call (c : Call) (answer : outcome A) (s : State) :
  P c → adds P (call c answer) s.
Proof. intros Hc. exists [c]. split; [done | by constructor]. Qed.

Lemma adds_bind (m : M A) (f : A → M B) (s : State) :
  adds P m s →
  (∀ a, (m s).1 = Ok a → adds P (f a) (m s).2) →
  adds P (bind m f) s.
Proof.
  intros (cs & Hcs & HP) Hf. unfold adds, bind.
  destruct (m s) as [[a|e] s'] eqn:E; simpl in *.
  - destruct (Hf a eq_refl) as (cs' & Hcs' & HP').
    exists (cs' ++ cs). rewrite Hcs', Hcs, app_assoc. split; [done|].
    by apply Forall_app.
  - by exists cs.
Qed.

Lemma adds_try_except (catches : exn → bool) (body handler : M A) (s : State) :
  adds P body s →
  (∀ e, (body s).1 = Raise e → catches e = true → adds P handler (body s).2) →
  adds P (try_except catches body handler) s.
Proof.
  intros (cs & Hcs & HP) Hh. unfold adds, try_except.
  destruct (body s) as [[a|e] s'] eqn:E; simpl in *.
  - by exists cs.
  - destruct (catches e) eqn:Hc.
    + destruct (Hh e eq_refl Hc) as (cs' & Hcs' & HP').
      exists (cs' ++ cs). rewrite Hcs', Hcs, app_assoc. split; [done|].
      by apply Forall_app.
    + by exists cs.
Qed.

Lemma adds_try_finally (body : M A) (cleanup : M unit) (s : State) :
  adds P body s →
  adds P cleanup (body s).2 →
  adds P (try_finally body cleanup) s.
Proof.
  intros (cs & Hcs & HP) (cs' & Hcs' & HP'). unfold adds, try_finally.
  destruct (body s) as [r s'] eqn:E; simpl in *.
  exists (cs' ++ cs). split; [|by apply Forall_app].
  destruct (cleanup s') as [[u|e] s''] eqn:E'; simpl in *;
    by rewrite Hcs', Hcs, app_assoc.
Qed.

End Adds.

Lemma adds_for_each {A} (P : Call → Prop) (xs : list A) (body : A → M bool) (s : State) :
  (∀ x s', x ∈ xs → adds P (body x) s') →
  adds P (for_each xs body) s.
Proof.
  revert s. induction xs as [|x xs IH]; intros s Hb.
  - simpl. apply adds_ret.
  - cbn [for_each]. apply adds_bind.
    + apply Hb, elem_of_cons. by left.
    + intros [|] _; [apply adds_ret|]. apply IH. intros y s' Hy. apply Hb, elem_of_cons. by right.
Qed.

Lemma adds_for_return {A B} (P : Call → Prop) (xs : list A) (body : A → M (option B)) (s : State) :
  (∀ x s', x ∈ xs → adds P (body x) s') →
  adds P (for_return xs body) s.
Proof.
  revert s. induction xs as [|x xs IH]; intros s Hb.
  - simpl. apply adds_ret.
  - cbn [for_return]. apply adds_bind.
    + apply Hb, elem_of_cons. by left.
    + intros [v|] _; [apply adds_ret|]. apply IH. intros y s' Hy. apply Hb, elem_of_cons. by right.
Qed.

Lemma adds_weaken {A} (P Q : Call → Prop) (m : M A) (s : State) :
  (∀ c, P c → Q c) → adds P m s → adds Q m s.
Proof.
  intros HPQ (cs & Hcs & HP). exists cs. split; [done|].
  eapply Forall_impl; eauto.
Qed.

Lemma count_calls_app (p : Call → bool) (cs : list Call) (s s' : State) :
  calls s' = cs ++ calls s →
  count_calls p s' = (length (filter (λ c, p c = true) cs) + count_calls p s)%nat.
Proof. intros H. unfold count_calls. by rewrite H, filter_app, length_app. Qed.

Lemma filter_none (p : Call → bool) (cs : list Call) :
  Forall (λ c, p c = false) cs → filter (λ c, p c = true) cs = [].
Proof.
  induction 1 as [|c cs Hc _ IH]; [done|].
  rewrite filter_cons_False; [done | by rewrite Hc].
Qed.

(** Calls on which [p] is false leave the count of [p]-calls unchanged. *)
Lemma adds_count {A} (p : Call → bool) (m : M A) (s : State) :
  adds (λ c, p c = false) m s →
  count_calls p (m s).2 = count_calls p s.
Proof.
  intros (cs & Hcs & HP). rewrite (count_calls_app p cs s) by done.
  by rewrite filter_none.
Qed.

Lemma adds_count_le {A} (p : Call → bool) (P : Call → Prop) (m : M A) (s : State) :
  adds P m s → (count_calls p s ≤ count_calls p (m s).2)%nat.
Proof.
  intros (cs & Hcs & _). rewrite (count_calls_app p cs s (m s).2) by done. lia.
Qed.

Section Oblivious.

Context {A B : Type}.

Lemma oblivious_ret (a : A) : oblivious (ret a).
Proof. by intros s1 s2 H. Qed.

Lemma oblivious_raise (e : exn) : oblivious (raise (A:=A) e).
Proof. by intros s1 s2 H. Qed.

Lemma oblivious_call (c : Call) (answer : outcome A) : oblivious (call c answer).
Proof. by intros s1 s2 H. Qed.

Lemma oblivious_bind (m : M A) (f : A → M B) :
  oblivious m → (∀ a, oblivious (f a)) → oblivious (bind m f).
Proof.
  intros Hm Hf s1 s2 H. unfold bind.
  destruct (Hm s1 s2 H) as [H1 H2].
  destruct (m s1) as [[a|e] s1'], (m s2) as [[a'|e'] s2']; simpl in *; try done.
  - injection H1 as ->. by apply Hf.
  - by injection H1 as ->.
Qed.

Lemma oblivious_try_except (catches : exn → bool) (body handler : M A) :
  oblivious body → oblivious handler → oblivious (try_except catches body handler).
Proof.
  intros Hb Hh s1 s2 H. unfold try_except.
  destruct (Hb s1 s2 H) as [H1 H2].
  destruct (body s1) as [[a|e] s1'], (body s2) as [[a'|e'] s2']; simpl in *; try done.
  injection H1 as ->. destruct (catches e'); [by apply Hh | done].
Qed.

End Oblivious.

Lemma oblivious_for_each {A} (xs : list A) (body : A → M bool) :
  (∀ x, oblivious (body x)) → oblivious (for_each xs body).
Proof.
  intros Hb. induction xs as [|x xs IH]; [apply oblivious_ret|].
  cbn [for_each]. apply oblivious_bind; [done|].
  intros [|]; [apply oblivious_ret | done].
Qed.

Lemma oblivious_get_reviews : oblivious get_reviews.
Proof. intros s1 s2 H. simpl. by rewrite H. Qed.

Lemma oblivious_append_review (t : str) : oblivious (append_review t).
Proof. intros s1 s2 H. simpl. by rewrite H. Qed.

(** ** What [crawl_reviews] returns *)

Lemma normalize_nil (max_reviews : Z) : normalize [] max_reviews = [].
Proof. unfold normalize, slice_to. simpl. by destruct (max_reviews <? 0); rewrite take_nil. Qed.

Section Results.

Variables (driver : Driver) (unescape : str → str).

Lemma extract_answer (max_reviews : Z) (s : State) (rs : list str) :
  (extract driver unescape max_reviews s).1 = Ok rs →
  ∃ snippets, rs = normalize snippets max_reviews.
Proof.
  unfold extract, bind. repeat step; try done.
  intros [= <-]. by eexists.
Qed.

Lemma crawl_body_answer (url : str) (max_reviews : Z) (s : State) (rs : list str) :
  (crawl_body driver unescape url max_reviews s).1 = Ok rs →
  ∃ snippets, rs = normalize snippets max_reviews.
Proof.
  unfold crawl_body, crawl_try, try_finally, try_except, bind. simpl.
  destruct (get driver url) as [[]|e] eqn:Eg; simpl.
  - destruct (enter_entry_frame driver _) as [[[|]|e] s1] eqn:Ef; simpl.
    + destruct (extract driver unescape max_reviews s1) as [[xs|e] s2] eqn:Ex; simpl.
      * destruct (reset_scope driver s2) as [[u|e] s3]; simpl; [|done].
        intros [= <-]. eapply extract_answer. by rewrite Ex.
      * destruct (is_Exception e); simpl;
          destruct (reset_scope driver s2) as [[u|e'] s3]; simpl; try done.
        intros [= <-]. exists []. by rewrite normalize_nil.
    + destruct (reset_scope driver s1) as [[u|e'] s3]; simpl; [|done].
      intros [= <-]. exists []. by rewrite normalize_nil.
    + destruct (is_Exception e); simpl;
        destruct (reset_scope driver s1) as [[u|e'] s3]; simpl; try done.
      intros [= <-]. exists []. by rewrite normalize_nil.
  - destruct (is_Exception e); simpl;
      match goal with |- context [reset_scope driver ?s0] =>
        destruct (reset_scope driver s0) as [[u|e'] s3] end; simpl; try done.
    intros [= <-]. exists []. by rewrite normalize_nil.
Qed.

Lemma crawl_reviews_answer (place_url : option str) (max_reviews : Z)
    (s : State) (rs : list str) :
  (crawl_reviews driver unescape place_url max_reviews s).1 = Ok rs →
  ∃ snippets, rs = normalize snippets max_reviews.
Proof.
  destruct place_url as [[|c url]|]; simpl.
  - intros [= <-]. exists []. by rewrite normalize_nil.
  - destruct (crawl_body driver unescape (c :: url) max_reviews s) as [r s'] eqn:E.
    simpl. intros ->. eapply crawl_body_answer. by rewrite E.
  - intros [= <-]. exists []. by rewrite normalize_nil.
Qed.

End Results.

(** C1. For a non-negative [max_reviews], normalisation keeps each snippet
    at its first occurrence, in order, and cuts the list to [max_reviews]
    elements; every list returned by [crawl_reviews] is such a normalised
    list, so it has no two equal elements and at most [max_reviews] of
    them. *)
Theorem crawl_reviews_deduplicated_bounded (max_reviews : Z) :
  0 ≤ max_reviews →
  (∀ snippets : list str,
     normalize snippets max_reviews
     = take (Z.to_nat max_reviews) (first_seen snippets)) ∧
  (∀ driver unescape place_url s rs,
     (crawl_reviews driver unescape place_url max_reviews s).1 = Ok rs →
     (∃ snippets, rs = normalize snippets max_reviews) ∧
     NoDup rs ∧ Z.of_nat (length rs) ≤ max_reviews).
Proof.
  intros Hmax. split.
  - intros snippets. by apply normalize_first_seen.
  - intros driver unescape place_url s rs Hrs.
    destruct (crawl_reviews_answer _ _ _ _ _ _ Hrs) as [snippets ->].
    split; [by eexists|]. split; [apply normalize_NoDup | by apply normalize_length].
Qed.

(** ** Calls made by the tiers *)

Section TierCalls.

Variables (driver : Driver) (unescape : str → str) (max_reviews : Z).

Lemma append_and_check_adds (P : Call → Prop) (t : str) (s : State) :
  adds P (append_and_check max_reviews t) s.
Proof. by apply adds_nothing. Qed.

Lemma tier1_element_adds (el : WebElement) (s : State) :
  adds (λ c, c = CallText) (tier1_element max_reviews el) s.
Proof.
  unfold tier1_element, element_text. apply adds_bind; [by apply adds_call|].
  intros t _. destruct (tier1_accept (strip t));
    [apply append_and_check_adds | apply adds_ret].
Qed.

Lemma tier1_selector_adds (selector : str) (s : State) :
  adds (λ c, c = CallText ∨ c = CallFindElements By_CSS_SELECTOR selector)
       (tier1_selector driver max_reviews selector) s.
Proof.
  unfold tier1_selector, driver_find_elements.
  apply adds_try_except; [|intros; apply adds_ret].
  apply adds_bind; [apply adds_call; by right|].
  intros [|el els] _; [apply adds_ret|].
  apply adds_bind.
  - apply adds_for_each. intros x s' _.
    eapply adds_weaken; [|apply tier1_element_adds]. intros c ->. by left.
  - intros _ _. apply adds_bind; [by apply adds_nothing|].
    intros [|r rs] _; apply adds_ret.
Qed.

(** Tier 1 only reads texts and queries its own patterns. *)
Lemma tier1_adds (s : State) :
  adds (λ c, c = CallText ∨
             ∃ sel, sel ∈ review_selectors ∧ c = CallFindElements By_CSS_SELECTOR sel)
       (tier1 driver max_reviews) s.
Proof.
  unfold tier1. apply adds_for_each. intros sel s' Hsel.
  eapply adds_weaken; [|apply tier1_selector_adds].
  intros c [->| ->]; [by left | right; by exists sel].
Qed.

Lemma oblivious_append_and_check (t : str) : oblivious (append_and_check max_reviews t).
Proof.
  unfold append_and_check. apply oblivious_bind; [apply oblivious_append_review|].
  intros _. apply oblivious_bind; [apply oblivious_get_reviews|].
  intros rs. apply oblivious_ret.
Qed.

Lemma oblivious_tier1_selector (selector : str) :
  oblivious (tier1_selector driver max_reviews selector).
Proof.
  unfold tier1_selector. apply oblivious_try_except; [|apply oblivious_ret].
  apply oblivious_bind; [apply oblivious_call|].
  intros [|el els]; [apply oblivious_ret|].
  apply oblivious_bind.
  - apply oblivious_for_each. intros x. unfold tier1_element.
    apply oblivious_bind; [apply oblivious_call|].
    intros t. destruct (tier1_accept (strip t));
      [apply oblivious_append_and_check | apply oblivious_ret].
  - intros _. apply oblivious_bind; [apply oblivious_get_reviews|].
    intros [|r rs]; apply oblivious_ret.
Qed.

(** What Tier 1 collects does not depend on the state of the session. *)
Lemma oblivious_tier1 : oblivious (tier1 driver max_reviews).
Proof. apply oblivious_for_each, oblivious_tier1_selector. Qed.

Lemma if_no_reviews_skip (m : M unit) (s : State) :
  reviews s ≠ [] → if_no_reviews m s = (Ok tt, s).
Proof. unfold if_no_reviews, bind, get_reviews. by destruct (reviews s). Qed.

Lemma reset_scope_run (s : State) :
  ∃ s', reset_scope driver s = (Ok tt, s') ∧
        calls s' = CallDefaultContent :: calls s ∧
        reviews s' = reviews s ∧
        (default_content driver = Ok tt → scope s' = TopLevel).
Proof.
  unfold reset_scope, try_except, switch_to_default_content, bind, call. simpl.
  destruct (default_content driver) as [[]|e]; simpl; eexists; repeat split; done.
Qed.

Lemma tier2_adds (s : State) :
  adds (λ c, c = CallGetAttribute (lit "innerHTML") ∨
             c = CallFindElements By_CSS_SELECTOR review_list_selector)
       (tier2 driver unescape max_reviews) s.
Proof.
  unfold tier2, driver_find_elements.
  apply adds_try_except; [|intros; apply adds_ret].
  apply adds_bind; [apply adds_call; by right|].
  intros a_tags _. apply adds_for_each. intros a s' _.
  unfold tier2_element, element_get_attribute.
  apply adds_try_except; [|intros; apply adds_ret].
  apply adds_bind; [apply adds_call; by left|].
  intros [h|] _; [|apply adds_raise].
  match goal with |- context [tier2_accept ?t] => destruct (tier2_accept t) end;
    [apply append_and_check_adds | apply adds_ret].
Qed.

Lemma tier3_adds (s : State) :
  adds (λ c, c = CallText ∨ c = CallFindElements By_XPATH all_text_xpath)
       (tier3 driver max_reviews) s.
Proof.
  unfold tier3, driver_find_elements.
  apply adds_try_except; [|intros; apply adds_ret].
  apply adds_bind; [apply adds_call; by right|].
  intros all_texts _. apply adds_for_each. intros x s' _.
  unfold tier3_element, element_text.
  apply adds_try_except; [|intros; apply adds_ret].
  apply adds_bind; [apply adds_call; by left|].
  intros t _. destruct (tier3_accept (strip t));
    [apply append_and_check_adds | apply adds_ret].
Qed.

Lemma if_no_reviews_adds (P : Call → Prop) (m : M unit) (s : State) :
  adds P m s → adds P (if_no_reviews m) s.
Proof.
  intros Hm. unfold if_no_reviews. apply adds_bind; [by apply adds_nothing|].
  intros [|r rs] _; [done | apply adds_ret].
Qed.

Lemma extract_adds (s : State) :
  adds is_extract_call (extract driver unescape max_reviews) s.
Proof.
  unfold extract. apply adds_bind.
  { eapply adds_weaken; [|apply tier1_adds]. by intros c [->|(sel & _ & ->)]. }
  intros _ _. apply adds_bind.
  { apply if_no_reviews_adds. eapply adds_weaken; [|apply tier2_adds].
    by intros c [->| ->]. }
  intros _ _. apply adds_bind.
  { apply if_no_reviews_adds. eapply adds_weaken; [|apply tier3_adds].
    by intros c [->| ->]. }
  intros _ _. apply adds_bind; [by apply adds_nothing|]. intros rs _. apply adds_ret.
Qed.

(** The [try] block navigates, waits for the frame and, when the frame was
    entered, runs [extract] on a state with no reviews. *)
Lemma crawl_try_adds (P : Call → Prop) (url : str) (s : State) :
  reviews s = [] →
  P (CallGet url) →
  P (CallFrameWait By_ID (lit "entryIframe")) →
  (∀ s2, reviews s2 = [] → adds P (extract driver unescape max_reviews) s2) →
  adds P (crawl_try driver unescape url max_reviews) s.
Proof.
  intros Hs Pget Pwait Hextract.
  unfold adds, crawl_try, try_except, bind. simpl.
  destruct (get driver url) as [[]|e] eqn:Eg; simpl.
  - unfold enter_entry_frame, try_except, wait_and_switch_to_frame, bind, call. simpl.
    destruct (until_frame_available driver By_ID _) as [[]|e] eqn:Ef; simpl.
    + match goal with |- context [extract _ _ _ ?s2] =>
        destruct (Hextract s2 Hs) as (cs & Hcs & HP);
        destruct (extract driver unescape max_reviews s2) as [[xs|e] s3] eqn:Ex
      end; simpl in *; [|destruct (is_Exception e); simpl];
        exists (cs ++ [CallFrameWait By_ID (lit "entryIframe"); CallGet url]);
        rewrite Hcs; (split; [by rewrite <- app_assoc|]);
        apply Forall_app; (split; [done|]); by repeat constructor.
    + destruct (is_Timeout e); simpl; [|destruct (is_Exception e); simpl];
        exists [CallFrameWait By_ID (lit "entryIframe"); CallGet url];
        (split; [done | by repeat constructor]).
  - destruct (is_Exception e); simpl;
      exists [CallGet url]; (split; [done | by repeat constructor]).
Qed.

(** [crawl_body] is the [try] block followed by the reset, whatever the
    block answered. *)
Lemma crawl_body_run (url : str) (s : State) :
  ∃ r s3 s4,
    crawl_try driver unescape url max_reviews (set_reviews [] s) = (r, s3) ∧
    crawl_body driver unescape url max_reviews s = (r, s4) ∧
    calls s4 = CallDefaultContent :: calls s3 ∧
    (default_content driver = Ok tt → scope s4 = TopLevel).
Proof.
  unfold crawl_body, try_finally, bind. simpl.
  destruct (crawl_try driver unescape url max_reviews (set_reviews [] s)) as [r s3].
  destruct (reset_scope_run s3) as (s4 & -> & Hc & _ & Hsc).
  by exists r, s3, s4.
Qed.

Lemma crawl_body_adds (P : Call → Prop) (url : str) (s : State) :
  P (CallGet url) →
  P (CallFrameWait By_ID (lit "entryIframe")) →
  P CallDefaultContent →
  (∀ s2, reviews s2 = [] → adds P (extract driver unescape max_reviews) s2) →
  adds P (crawl_body driver unescape url max_reviews) s.
Proof.
  intros Pget Pwait Preset Hextract. unfold adds.
  destruct (crawl_body_run url s) as (r & s3 & s4 & Htry & -> & Hc & _).
  destruct (crawl_try_adds P url (set_reviews [] s) eq_refl Pget Pwait Hextract)
    as (cs & Hcs & HP).
  rewrite Htry in Hcs. simpl in *.
  exists (CallDefaultContent :: cs). rewrite Hc, Hcs. split; [done|].
  by constructor.
Qed.

End TierCalls.

(** ** The tier cascade *)

Lemma review_selectors_cases (sel : str) :
  sel ∈ review_selectors →
  sel = lit ".zPfVt" ∨ sel = lit ".YEtwtZFlx" ∨ sel = lit "span.Wzv5Z90S4".
Proof.
  unfold review_selectors. cbn [map]. rewrite !elem_of_cons, elem_of_nil. tauto.
Qed.

Lemma tier1_call_not_lower_tier (c : Call) :
  c = CallText ∨
  (∃ sel, sel ∈ review_selectors ∧ c = CallFindElements By_CSS_SELECTOR sel) →
  is_tier2_query c = false ∧ is_tier3_query c = false.
Proof.
  intros [->|(sel & Hsel & ->)]; [done|].
  apply review_selectors_cases in Hsel as [->|[->| ->]]; by vm_compute.
Qed.

Section Cascade.

Variables (driver : Driver) (unescape : str → str) (max_reviews : Z).

Lemma tier1_reviews (s : State) :
  reviews s = [] →
  reviews (tier1 driver max_reviews s).2 = tier1_yield driver max_reviews.
Proof. intros Hs. by apply oblivious_tier1. Qed.

(** When Tier 1 has collected something, [extract] makes no call beyond
    those of Tier 1. *)
Lemma extract_after_tier1 (s : State) :
  reviews s = [] →
  tier1_yield driver max_reviews ≠ [] →
  adds (λ c, is_tier2_query c = false ∧ is_tier3_query c = false)
       (extract driver unescape max_reviews) s.
Proof.
  intros Hs Hyield.
  pose proof (tier1_reviews s Hs) as Hrs.
  pose proof (tier1_adds driver max_reviews s) as Hadds.
  apply (adds_weaken _ _ _ _ tier1_call_not_lower_tier) in Hadds.
  destruct Hadds as (cs & Hcs & HP).
  unfold adds, extract, bind.
  destruct (tier1 driver max_reviews s) as [[[]|e] s1]; simpl in *; [|by exists cs].
  rewrite !if_no_reviews_skip by (by rewrite Hrs). simpl. by exists cs.
Qed.

Lemma crawl_reviews_adds (P : Call → Prop) (place_url : option str) (s : State) :
  (∀ url, adds P (crawl_body driver unescape url max_reviews) s) →
  adds P (crawl_reviews driver unescape place_url max_reviews) s.
Proof.
  intros H. destruct place_url as [[|c url]|]; try (by apply adds_nothing).
  destruct (H (c :: url)) as (cs & Hcs & HP). exists cs. split; [|done].
  unfold crawl_reviews.
  destruct (crawl_body driver unescape (c :: url) max_reviews s) as [r s']. done.
Qed.

End Cascade.

(** C2. When Tier 1 yields at least one accepted snippet, a run of
    [crawl_reviews] issues neither the Tier 2 query (the review-list
    pattern) nor the Tier 3 query (the full-page text scan): the number of
    such calls on the session is the same after the run as before. *)
Theorem tier1_success_skips_lower_tiers
    (driver : Driver) (unescape : str → str) (place_url : option str)
    (max_reviews : Z) (s : State) :
  tier1_yield driver max_reviews ≠ [] →
  let s' := (crawl_reviews driver unescape place_url max_reviews s).2 in
  count_calls is_tier2_query s' = count_calls is_tier2_query s ∧
  count_calls is_tier3_query s' = count_calls is_tier3_query s.
Proof.
  intros Hyield s'.
  assert (adds (λ c, is_tier2_query c = false ∧ is_tier3_query c = false)
               (crawl_reviews driver unescape place_url max_reviews) s) as Hadds.
  { apply crawl_reviews_adds. intros url. apply crawl_body_adds; try done.
    intros s2 Hs2. by apply extract_after_tier1. }
  split; apply adds_count; eapply adds_weaken; try apply Hadds; by intros c [? ?].
Qed.

(** ** Exit paths of [crawl_reviews] *)

(** C6. Whenever [crawl_reviews] is run on a present place URL, the last
    call it makes on the session, whatever happened before (snippets found,
    nothing found, frame not entered, an exception inside the [try] block,
    even one that leaves the method), is [switch_to.default_content]; when
    that call goes through, the scope is the top-level document on
    return. *)
Theorem crawl_reviews_resets_scope
    (driver : Driver) (unescape : str → str) (url : str) (max_reviews : Z)
    (s : State) :
  url ≠ [] →
  let s' := (crawl_reviews driver unescape (Some url) max_reviews s).2 in
  (∃ cs, calls s' = CallDefaultContent :: cs ++ calls s) ∧
  (default_content driver = Ok tt → scope s' = TopLevel).
Proof.
  intros Hurl. destruct url as [|c url]; [done|]. cbn [crawl_reviews].
  destruct (crawl_body_run driver unescape max_reviews (c :: url) s)
    as (r & s3 & s4 & Htry & -> & Hc & Hsc).
  destruct (crawl_try_adds driver unescape max_reviews (λ _, True) (c :: url)
              (set_reviews [] s) eq_refl I I) as (cs & Hcs & _).
  { intros s2 _. eapply adds_weaken; [|apply extract_adds]. done. }
  rewrite Htry in Hcs. simpl in *. split; [|done].
  exists cs. by rewrite Hc, Hcs.
Qed.

(** C7. When the place page loads but the wait for [entryIframe] times
    out, [crawl_reviews] answers the empty list, not an exception, and the
    only calls of the run are the navigation, the frame wait and the final
    reset: no tier is attempted. *)
Theorem frame_timeout_gives_empty
    (driver : Driver) (unescape : str → str) (url : str) (max_reviews : Z)
    (s : State) :
  url ≠ [] →
  get driver url = Ok tt →
  until_frame_available driver By_ID (lit "entryIframe") = Raise TimeoutException →
  (crawl_reviews driver unescape (Some url) max_reviews s).1 = Ok [] ∧
  calls (crawl_reviews driver unescape (Some url) max_reviews s).2
  = [CallDefaultContent; CallFrameWait By_ID (lit "entryIframe"); CallGet url]
    ++ calls s.
Proof.
  intros Hurl Hget Hwait. destruct url as [|c url]; [done|]. cbn [crawl_reviews].
  destruct (crawl_body_run driver unescape max_reviews (c :: url) s)
    as (r & s3 & s4 & Htry & -> & Hc & _).
  revert Htry.
  unfold crawl_try, try_except, bind, driver_get, enter_entry_frame, try_except,
    wait_and_switch_to_frame, bind, call.
  rewrite Hget, Hwait. simpl. intros [= <- <-]. simpl. by rewrite Hc.
Qed.

(** C10. With no place URL ([None] or the empty string) [crawl_reviews]
    answers the empty list and leaves the session as it was: no navigation,
    no query and no scope reset take place. *)
Theorem crawl_reviews_absent_url
    (driver : Driver) (unescape : str → str) (max_reviews : Z) (s : State) :
  crawl_reviews driver unescape None max_reviews s = (Ok [], s) ∧
  crawl_reviews driver unescape (Some []) max_reviews s = (Ok [], s).
Proof. split; reflexivity. Qed.

(** ** Tier 1: which patterns are queried *)

Section Tier1.

Variables (driver : Driver) (max_reviews : Z).

Lemma for_each_cons {A} (x : A) (xs : list A) (body : A → M bool) (s : State) :
  for_each (x :: xs) body s
  = match body x s with
    | (Ok true, s') => (Ok tt, s')
    | (Ok false, s') => for_each xs body s'
    | (Raise e, s') => (Raise e, s')
    end.
Proof. cbn [for_each]. unfold bind. by destruct (body x s) as [[[|]|e] s']. Qed.

Lemma tier1_element_run (el : WebElement) (s : State) :
  tier1_element max_reviews el s
  = match text el with
    | Ok t =>
        if tier1_accept (strip t)
        then (Ok (max_reviews <=? Z.of_nat (length (reviews s ++ [strip t]))),
              set_reviews (reviews s ++ [strip t]) (add_call CallText s))
        else (Ok false, add_call CallText s)
    | Raise e => (Raise e, add_call CallText s)
    end.
Proof.
  unfold tier1_element, element_text, bind, call.
  destruct (text el) as [t|e]; [|done]. by destruct (tier1_accept (strip t)).
Qed.

Lemma tier1_selector_run (selector : str) (s : State) :
  tier1_selector driver max_reviews selector s
  = let s1 := add_call (CallFindElements By_CSS_SELECTOR selector) s in
    match find_elements driver By_CSS_SELECTOR selector with
    | Ok [] => (Ok false, s1)
    | Ok els =>
        match for_each els (tier1_element max_reviews) s1 with
        | (Ok _, s2) => (Ok (bool_decide (reviews s2 ≠ [])), s2)
        | (Raise _, s2) => (Ok false, s2)
        end
    | Raise _ => (Ok false, s1)
    end.
Proof.
  unfold tier1_selector, try_except, driver_find_elements, bind, call, get_reviews.
  destruct (find_elements driver By_CSS_SELECTOR selector) as [[|el els]|e]; try done.
  generalize (for_each (el :: els) (tier1_element max_reviews)). intros loop. simpl.
  destruct (loop _) as [[[]|e] s2]; simpl; [by destruct (reviews s2) | done].
Qed.

Lemma tier1_elements_rejected (els : list WebElement) (s : State) :
  Forall rejected_by_tier1 els →
  (for_each els (tier1_element max_reviews) s).1 = Ok tt ∧
  reviews (for_each els (tier1_element max_reviews) s).2 = reviews s.
Proof.
  intros H. revert s. induction H as [|el els (t & Ht & Hrej) _ IH]; intros s; [done|].
  rewrite for_each_cons, tier1_element_run, Ht, Hrej.
  apply (IH (add_call CallText s)).
Qed.

Lemma tier1_selector_nothing (selector : str) (s : State) :
  yields_nothing driver selector →
  reviews s = [] →
  (tier1_selector driver max_reviews selector s).1 = Ok false ∧
  reviews (tier1_selector driver max_reviews selector s).2 = [].
Proof.
  intros [[e He]|(els & Hels & Hrej)] Hs; rewrite tier1_selector_run; cbn zeta.
  - by rewrite He.
  - rewrite Hels. destruct els as [|el els]; [done|].
    destruct (tier1_elements_rejected (el :: els)
                (add_call (CallFindElements By_CSS_SELECTOR selector) s) Hrej)
      as [Hr Hrs].
    destruct (for_each (el :: els) (tier1_element max_reviews) _) as [[[]|e] s1];
      simpl in *; [|done].
    rewrite Hrs, Hs. by rewrite bool_decide_eq_false_2 by (intros H; by apply H).
Qed.

Lemma tier1_elements_readable (els : list WebElement) (s : State) :
  Forall readable els →
  (for_each els (tier1_element max_reviews) s).1 = Ok tt ∧
  (reviews s ≠ [] ∨ Exists accepted_by_tier1 els →
   reviews (for_each els (tier1_element max_reviews) s).2 ≠ []).
Proof.
  intros H. revert s. induction H as [|el els [t Ht] _ IH]; intros s.
  - simpl. split; [done|]. intros [?|Hex]; [done | by apply Exists_nil in Hex].
  - rewrite for_each_cons, tier1_element_run, Ht.
    destruct (tier1_accept (strip t)) eqn:Hacc.
    + destruct (max_reviews <=? _).
      * split; [done|]. intros _. simpl. by destruct (reviews s).
      * destruct (IH (set_reviews (reviews s ++ [strip t]) (add_call CallText s)))
          as [Hr Hrs].
        split; [done|]. intros _. apply Hrs. left. simpl. by destruct (reviews s).
    + destruct (IH (add_call CallText s)) as [Hr Hrs]. split; [done|].
      intros [Hs|Hex]; apply Hrs; [by left|].
      apply Exists_cons in Hex as [(t' & Ht' & Hacc')|Hex]; [|by right].
      rewrite Ht in Ht'. injection Ht' as <-. congruence.
Qed.

Lemma tier1_selector_breaks (selector : str) (els : list WebElement) (s : State) :
  find_elements driver By_CSS_SELECTOR selector = Ok els →
  Forall readable els →
  Exists accepted_by_tier1 els →
  (tier1_selector driver max_reviews selector s).1 = Ok true.
Proof.
  intros Hels Hread Hacc. rewrite tier1_selector_run; cbn zeta.
  rewrite Hels. destruct els as [|el els]; [by apply Exists_nil in Hacc|].
  destruct (tier1_elements_readable (el :: els)
              (add_call (CallFindElements By_CSS_SELECTOR selector) s) Hread)
    as [Hr Hrs].
  specialize (Hrs (or_intror Hacc)).
  destruct (for_each (el :: els) (tier1_element max_reviews) _) as [[[]|e] s1];
    simpl in *; [|done].
  by rewrite bool_decide_eq_true_2.
Qed.

(** Patterns that yield nothing are passed over. *)
Lemma tier1_passes_over (pre rest : list str) (s : State) :
  Forall (yields_nothing driver) pre →
  reviews s = [] →
  ∃ s' cs,
    for_each (pre ++ rest) (tier1_selector driver max_reviews) s
    = for_each rest (tier1_selector driver max_reviews) s' ∧
    reviews s' = [] ∧
    calls s' = cs ++ calls s ∧
    Forall (λ c, c = CallText ∨
                 ∃ p, p ∈ pre ∧ c = CallFindElements By_CSS_SELECTOR p) cs.
Proof.
  intros H. revert s. induction H as [|p pre Hp _ IH]; intros s Hs.
  - exists s, []. by repeat split.
  - destruct (tier1_selector_nothing p s Hp Hs) as [Hr Hrs].
    destruct (tier1_selector_adds driver max_reviews p s) as (cs1 & Hcs1 & HP1).
    cbn [app]. rewrite for_each_cons.
    destruct (tier1_selector driver max_reviews p s) as [[b|e] s1]; simpl in *; [|done].
    injection Hr as ->.
    destruct (IH s1 Hrs) as (s' & cs & Heq & Hrs' & Hcs & HP).
    exists s', (cs ++ cs1). split; [done|]. split; [done|].
    split; [by rewrite Hcs, Hcs1, app_assoc|].
    apply Forall_app. split.
    + eapply Forall_impl; [exact HP|]. intros c [->|(q & Hq & ->)]; [by left|].
      right. exists q. split; [by apply elem_of_cons; right | done].
    + eapply Forall_impl; [exact HP1|]. intros c [->| ->]; [by left|].
      right. exists p. split; [by apply elem_of_cons; left | done].
Qed.

(** Whatever the patterns of [pre] do, the loop either comes to the
    patterns after them or ends among them, and up to there it has only read
    texts and queried patterns of [pre]. *)
Lemma tier1_prefix_calls (pre rest : list str) (s : State) :
  ∃ s' cs,
    (for_each (pre ++ rest) (tier1_selector driver max_reviews) s
     = for_each rest (tier1_selector driver max_reviews) s' ∨
     (for_each (pre ++ rest) (tier1_selector driver max_reviews) s).2 = s') ∧
    calls s' = cs ++ calls s ∧
    Forall (λ c, c = CallText ∨
                 ∃ p, p ∈ pre ∧ c = CallFindElements By_CSS_SELECTOR p) cs.
Proof.
  revert s. induction pre as [|p pre IH]; intros s.
  - exists s, []. split; [by left | by split].
  - destruct (tier1_selector_adds driver max_reviews p s) as (cs1 & Hcs1 & HP1).
    assert (Forall (λ c, c = CallText ∨
                         ∃ q, q ∈ p :: pre ∧ c = CallFindElements By_CSS_SELECTOR q) cs1)
      as HP1'.
    { eapply Forall_impl; [exact HP1|]. intros c [->| ->]; [by left|].
      right. exists p. split; [by apply elem_of_cons; left | done]. }
    cbn [app]. rewrite for_each_cons.
    destruct (tier1_selector driver max_reviews p s) as [[[|]|e] s1]; cbn [snd] in *;
      try (exists s1, cs1; split; [by right | by split]).
    destruct (IH s1) as (s' & cs & Hrun & Hcs & HP).
    exists s', (cs ++ cs1). split; [done|].
    split; [by rewrite Hcs, Hcs1, app_assoc|].
    apply Forall_app. split; [|done].
    eapply Forall_impl; [exact HP|]. intros c [->|(q & Hq & ->)]; [by left|].
    right. exists q. split; [by apply elem_of_cons; right | done].
Qed.

Lemma count_calls_add (p : Call → bool) (c : Call) (s : State) :
  p c = true → count_calls p (add_call c s) = S (count_calls p s).
Proof. intros Hc. unfold count_calls. simpl. by rewrite filter_cons_True. Qed.

Lemma is_query_self (selector : str) :
  is_query selector (CallFindElements By_CSS_SELECTOR selector) = true.
Proof. unfold is_query, is_find, eqb. simpl. by rewrite bool_decide_eq_true_2. Qed.

Lemma is_query_other (selector other : str) :
  other ≠ selector →
  is_query selector (CallFindElements By_CSS_SELECTOR other) = false.
Proof. intros H. unfold is_query, is_find, eqb. simpl. by rewrite bool_decide_eq_false_2. Qed.

(** A pattern that is reached is queried. *)
Lemma tier1_queries_next (next : str) (post : list str) (s : State) :
  (count_calls (is_query next) s
   < count_calls (is_query next)
       (for_each (next :: post) (tier1_selector driver max_reviews) s).2)%nat.
Proof.
  assert (adds (λ _, True)
            (for_each post (tier1_selector driver max_reviews))
            (tier1_selector driver max_reviews next s).2) as Hrest.
  { apply adds_for_each. intros x s' _.
    eapply adds_weaken; [|apply tier1_selector_adds]. done. }
  apply (adds_count_le (is_query next)) in Hrest.
  assert (count_calls (is_query next) s
          < count_calls (is_query next) (tier1_selector driver max_reviews next s).2)%nat
    as Hnext.
  { rewrite tier1_selector_run; cbn zeta.
    pose proof (count_calls_add (is_query next) _ s (is_query_self next)) as E.
    set (s1 := add_call (CallFindElements By_CSS_SELECTOR next) s) in *.
    destruct (find_elements driver By_CSS_SELECTOR next) as [[|el els]|e];
      cbn [fst snd]; [lia| |lia].
    assert (adds (λ _, True) (for_each (el :: els) (tier1_element max_reviews)) s1) as Hm.
    { apply adds_for_each. intros x s' _.
      eapply adds_weaken; [|apply tier1_element_adds]. done. }
    apply (adds_count_le (is_query next)) in Hm.
    destruct (for_each (el :: els) (tier1_element max_reviews) s1) as [[[]|e] s2];
      cbn [fst snd] in *; lia. }
  rewrite for_each_cons.
  destruct (tier1_selector driver max_reviews next s) as [[[|]|e] s1];
    cbn [fst snd] in *; lia.
Qed.

End Tier1.

Lemma review_selectors_NoDup : NoDup review_selectors.
Proof. apply (bool_decide_unpack _). by vm_compute. Qed.

(** C3 (amended). Tier 1 queries its patterns in their order.  A pattern
    whose query returns nodes that are all read and of which at least one is
    accepted ends the loop: no later pattern is queried.  Returning a node
    is not enough: as long as every pattern so far has yielded nothing, be
    it that its query fails, that it matches no node or that every node it
    matches is read and rejected, the loop goes on and the pattern after it
    is queried. *)
Theorem tier1_stops_at_first_yield (driver : Driver) (max_reviews : Z) (s : State) :
  reviews s = [] →
  (∀ pre sel post els,
     review_selectors = pre ++ sel :: post →
     find_elements driver By_CSS_SELECTOR sel = Ok els →
     Forall readable els →
     Exists accepted_by_tier1 els →
     ∀ later, later ∈ post →
       count_calls (is_query later) (tier1 driver max_reviews s).2
       = count_calls (is_query later) s) ∧
  (∀ pre sel next post,
     review_selectors = pre ++ sel :: next :: post →
     Forall (yields_nothing driver) pre →
     yields_nothing driver sel →
     (count_calls (is_query next) s
      < count_calls (is_query next) (tier1 driver max_reviews s).2)%nat).
Proof.
  intros Hs. split.
  - intros pre sel post els Hsplit Hels Hread Hacc later Hlater.
    pose proof review_selectors_NoDup as Hnd. rewrite Hsplit in Hnd.
    apply NoDup_app in Hnd as (_ & Hdisj & [Hsel _]%NoDup_cons).
    assert (later ≠ sel) as Hne by (by intros ->).
    assert (later ∉ pre) as Hnpre.
    { intros Hin. apply (Hdisj later Hin), elem_of_cons. by right. }
    unfold tier1. rewrite Hsplit.
    destruct (tier1_prefix_calls driver max_reviews pre (sel :: post) s)
      as (s' & cs & Hrun & Hcs & HP).
    assert (Forall (λ c, is_query later c = false) cs) as Hquiet.
    { eapply Forall_impl; [exact HP|]. intros c [->|(p & Hp & ->)]; [done|].
      apply is_query_other. by intros ->. }
    destruct Hrun as [-> | ->].
    + rewrite for_each_cons.
      pose proof (tier1_selector_breaks driver max_reviews sel els s' Hels Hread Hacc)
        as Hb.
      destruct (tier1_selector_adds driver max_reviews sel s') as (cs1 & Hcs1 & HP1).
      destruct (tier1_selector driver max_reviews sel s') as [[b|e] s1];
        cbn [fst snd] in *; [|done].
      injection Hb as ->. cbn [snd].
      rewrite (count_calls_app (is_query later) (cs1 ++ cs) s s1)
        by (by rewrite Hcs1, Hcs, app_assoc).
      rewrite filter_none; [done|]. apply Forall_app. split; [|done].
      eapply Forall_impl; [exact HP1|]. intros c [->| ->]; [done|].
      apply is_query_other. by intros ->.
    + rewrite (count_calls_app (is_query later) cs s s') by done.
      by rewrite filter_none.
  - intros pre sel next post Hsplit Hpre Hsel.
    unfold tier1. rewrite Hsplit.
    replace (pre ++ sel :: next :: post) with ((pre ++ [sel]) ++ next :: post)
      by (by rewrite <- app_assoc).
    destruct (tier1_passes_over driver max_reviews (pre ++ [sel]) (next :: post) s)
      as (s' & cs & -> & Hs' & Hcs & _); [|done|].
    { apply Forall_app. split; [done | by constructor]. }
    pose proof (tier1_queries_next driver max_reviews next post s') as Hlt.
    rewrite (count_calls_app (is_query next) cs s s') in Hlt by done. lia.
Qed.

(** ** Place resolution *)

Section Resolver.

Variables (driver : Driver) (quote : str → str).

Lemma for_return_cons {A R} (x : A) (xs : list A) (body : A → M (option R)) (s : State) :
  for_return (x :: xs) body s
  = match body x s with
    | (Ok (Some v), s') => (Ok (Some v), s')
    | (Ok None, s') => for_return xs body s'
    | (Raise e, s') => (Raise e, s')
    end.
Proof. cbn [for_return]. unfold bind. by destruct (body x s) as [[[v|]|e] s']. Qed.

Lemma try_place_selector_run (selector : str) (s : State) :
  try_place_selector driver selector s
  = let s1 := add_call (CallFindElements By_CSS_SELECTOR selector) s in
    match find_elements driver By_CSS_SELECTOR selector with
    | Ok (first :: _) =>
        let s2 := add_call (CallGetAttribute (lit "href")) s1 in
        match get_attribute first (lit "href") with
        | Ok (Some place_url) => (Ok (Some (force_review_tab place_url)), s2)
        | _ => (Ok None, s2)
        end
    | _ => (Ok None, s1)
    end.
Proof.
  unfold try_place_selector, try_except, driver_find_elements,
    element_get_attribute, bind, call.
  destruct (find_elements driver By_CSS_SELECTOR selector) as [[|first els]|e]; try done.
  by destruct (get_attribute first (lit "href")) as [[u|]|e].
Qed.

(** One round of the loop never raises. *)
Lemma try_place_selector_returns (selector : str) (s : State) :
  ∃ r, (try_place_selector driver selector s).1 = Ok r.
Proof.
  rewrite try_place_selector_run. cbn zeta.
  destruct (find_elements driver By_CSS_SELECTOR selector) as [[|first others]|e];
    try by eexists.
  destruct (get_attribute first (lit "href")) as [[href|]|e]; by eexists.
Qed.

Lemma resolver_loop_returns (selectors : list str) (s : State) :
  ∃ r, (for_return selectors (try_place_selector driver) s).1 = Ok r.
Proof.
  revert s. induction selectors as [|sel sels IH]; intros s; [by eexists|].
  rewrite for_return_cons.
  destruct (try_place_selector_returns sel s) as [r Hr].
  destruct (try_place_selector driver sel s) as [[[v|]|e] s1]; cbn [fst] in Hr;
    [by eexists | apply IH | done].
Qed.

(** Once the search page is loaded and the pause after it has passed, the
    answer is that of the loop over the link patterns. *)
Lemma search_naver_place_loaded (destination region : str) (s : State) :
  get driver (search_url quote destination region) = Ok tt →
  sleep driver 2 = Ok tt →
  search_naver_place driver quote destination region s
  = for_return place_selectors (try_place_selector driver)
      (add_call (CallGet (search_url quote destination region)) s).
Proof.
  intros Hget Hsleep.
  unfold search_naver_place, try_except, bind, driver_get, call, time_sleep.
  rewrite Hget, Hsleep.
  destruct (resolver_loop_returns place_selectors
              (add_call (CallGet (search_url quote destination region)) s)) as [r Hr].
  destruct (for_return place_selectors _ _) as [[r'|e] s']; by cbn [fst] in Hr.
Qed.

(** Patterns that give no URL, for want of a match or of a readable target
    of the first link, are passed over, at the cost of their queries. *)
Lemma resolver_passes_over_links (pre rest : list str) (s : State) :
  Forall (no_usable_link driver) pre →
  ∃ s' cs,
    for_return (pre ++ rest) (try_place_selector driver) s
    = for_return rest (try_place_selector driver) s' ∧
    calls s' = cs ++ calls s ∧
    Forall (λ c, c = CallGetAttribute (lit "href") ∨
                 ∃ p, p ∈ pre ∧ c = CallFindElements By_CSS_SELECTOR p) cs.
Proof.
  intros H. revert s. induction H as [|p pre Hp _ IH]; intros s.
  - by exists s, [].
  - assert (∃ s1 cs1,
              try_place_selector driver p s = (Ok None, s1) ∧
              calls s1 = cs1 ++ calls s ∧
              Forall (λ c, c = CallGetAttribute (lit "href") ∨
                           c = CallFindElements By_CSS_SELECTOR p) cs1)
      as (s1 & cs1 & Hrun & Hcs1 & HP1).
    { rewrite try_place_selector_run. cbn zeta.
      destruct Hp as [[->|[e ->]]|(first & others & -> & [->|[e ->]])];
        [exists (add_call (CallFindElements By_CSS_SELECTOR p) s),
           [CallFindElements By_CSS_SELECTOR p]..
        |exists (add_call (CallGetAttribute (lit "href"))
                   (add_call (CallFindElements By_CSS_SELECTOR p) s)),
           [CallGetAttribute (lit "href"); CallFindElements By_CSS_SELECTOR p]
        |exists (add_call (CallGetAttribute (lit "href"))
                   (add_call (CallFindElements By_CSS_SELECTOR p) s)),
           [CallGetAttribute (lit "href"); CallFindElements By_CSS_SELECTOR p]];
        (split; [done|]); (split; [done|]);
        repeat constructor; by (left + right). }
    destruct (IH s1) as (s' & cs & Heq & Hcs & HP).
    exists s', (cs ++ cs1). split; [|split].
    + cbn [app]. by rewrite for_return_cons, Hrun.
    + by rewrite Hcs, Hcs1, app_assoc.
    + apply Forall_app. split.
      * eapply Forall_impl; [exact HP|]. intros c [->|(q & Hq & ->)]; [by left|].
        right. exists q. split; [by apply elem_of_cons; right | done].
      * eapply Forall_impl; [exact HP1|]. intros c [->| ->]; [by left|].
        right. exists p. split; [by apply elem_of_cons; left | done].
Qed.

(** A pattern that is reached is queried. *)
Lemma resolver_queries_next (next : str) (post : list str) (s : State) :
  (count_calls (is_query next) s
   < count_calls (is_query next)
       (for_return (next :: post) (try_place_selector driver) s).2)%nat.
Proof.
  assert (adds (λ _, True)
            (for_return post (try_place_selector driver))
            (try_place_selector driver next s).2) as Hrest.
  { apply adds_for_return. intros x s' _. unfold adds.
    rewrite try_place_selector_run. cbn zeta.
    destruct (find_elements driver By_CSS_SELECTOR x) as [[|first others]|e];
      try (exists [CallFindElements By_CSS_SELECTOR x];
           split; [done | by repeat constructor]).
    destruct (get_attribute first (lit "href")) as [[href|]|e];
      exists [CallGetAttribute (lit "href"); CallFindElements By_CSS_SELECTOR x];
      (split; [done | by repeat constructor]). }
  apply (adds_count_le (is_query next)) in Hrest.
  assert (count_calls (is_query next) s
          < count_calls (is_query next) (try_place_selector driver next s).2)%nat
    as Hnext.
  { rewrite try_place_selector_run. cbn zeta.
    pose proof (count_calls_add (is_query next) _ s (is_query_self next)) as E.
    set (s1 := add_call (CallFindElements By_CSS_SELECTOR next) s) in *.
    assert (count_calls (is_query next) (add_call (CallGetAttribute (lit "href")) s1)
            = count_calls (is_query next) s1) as E2.
    { unfold count_calls. cbn [calls add_call]. by rewrite filter_cons_False. }
    destruct (find_elements driver By_CSS_SELECTOR next) as [[|first others]|e];
      cbn [snd]; try lia.
    destruct (get_attribute first (lit "href")) as [[href|]|e]; cbn [snd]; lia. }
  rewrite for_return_cons.
  destruct (try_place_selector driver next s) as [[[v|]|e] s1];
    cbn [fst snd] in *; lia.
Qed.

End Resolver.

Lemma place_selectors_NoDup : NoDup place_selectors.
Proof. apply (bool_decide_unpack _). by vm_compute. Qed.

(** C8 (amended). Once the search page is loaded and the pause after it has
    passed, the link patterns are tried in order and the first one whose
    first link has a readable target wins: the answer is that target
    rewritten to the review tab and no later pattern is queried.  A pattern
    that gives no such link, be it that it matches nothing, that its query
    fails or that the target of its first link cannot be read, is passed
    over: the pattern after it is queried.  When no pattern gives a link
    with a target, the answer is [None], not an exception. *)
Theorem search_first_usable_link_wins
    (driver : Driver) (quote : str → str) (destination region : str) (s : State) :
  get driver (search_url quote destination region) = Ok tt →
  sleep driver 2 = Ok tt →
  (∀ pre sel post first others url,
     place_selectors = pre ++ sel :: post →
     Forall (no_usable_link driver) pre →
     find_elements driver By_CSS_SELECTOR sel = Ok (first :: others) →
     get_attribute first (lit "href") = Ok (Some url) →
     (search_naver_place driver quote destination region s).1
     = Ok (Some (force_review_tab url)) ∧
     ∀ later, later ∈ post →
       count_calls (is_query later)
         (search_naver_place driver quote destination region s).2
       = count_calls (is_query later) s) ∧
  (∀ pre sel next post,
     place_selectors = pre ++ sel :: next :: post →
     Forall (no_usable_link driver) pre →
     no_usable_link driver sel →
     (count_calls (is_query next) s
      < count_calls (is_query next)
          (search_naver_place driver quote destination region s).2)%nat) ∧
  (Forall (no_usable_link driver) place_selectors →
   (search_naver_place driver quote destination region s).1 = Ok None).
Proof.
  intros Hget Hsleep.
  rewrite (search_naver_place_loaded driver quote destination region s Hget Hsleep).
  set (s0 := add_call (CallGet (search_url quote destination region)) s) in *.
  split; [|split].
  - intros pre sel post first others url Hsplit Hpre Hfind Hhref.
    destruct (resolver_passes_over_links driver pre (sel :: post) s0 Hpre)
      as (s' & cs & Heq & Hcs & HP).
    assert (for_return place_selectors (try_place_selector driver) s0
            = (Ok (Some (force_review_tab url)),
               add_call (CallGetAttribute (lit "href"))
                 (add_call (CallFindElements By_CSS_SELECTOR sel) s'))) as Hrun.
    { rewrite Hsplit, Heq, for_return_cons, try_place_selector_run. cbn zeta.
      by rewrite Hfind, Hhref. }
    rewrite Hrun. split; [done|]. intros later Hlater. cbn [snd].
    pose proof place_selectors_NoDup as Hnd. rewrite Hsplit in Hnd.
    apply NoDup_app in Hnd as (_ & Hdisj & [Hsel _]%NoDup_cons).
    rewrite (count_calls_app (is_query later)
               ([CallGetAttribute (lit "href"); CallFindElements By_CSS_SELECTOR sel]
                ++ cs ++ [CallGet (search_url quote destination region)]) s).
    + rewrite filter_none; [done|]. apply Forall_app. split; [|apply Forall_app; split].
      * constructor; [done|]. constructor; [|done].
        apply is_query_other. by intros ->.
      * eapply Forall_impl; [exact HP|]. intros c [->|(p & Hp & ->)]; [done|].
        apply is_query_other. intros ->.
        apply (Hdisj later Hp), elem_of_cons. by right.
      * by constructor.
    + simpl. rewrite Hcs. unfold s0. simpl. by rewrite <- app_assoc.
  - intros pre sel next post Hsplit Hpre Hsel. rewrite Hsplit.
    replace (pre ++ sel :: next :: post) with ((pre ++ [sel]) ++ next :: post)
      by (by rewrite <- app_assoc).
    destruct (resolver_passes_over_links driver (pre ++ [sel]) (next :: post) s0)
      as (s' & cs & -> & Hcs & _).
    { apply Forall_app. split; [done | by constructor]. }
    pose proof (resolver_queries_next driver next post s') as Hlt.
    rewrite (count_calls_app (is_query next) cs s0 s') in Hlt by done.
    assert (count_calls (is_query next) s0 = count_calls (is_query next) s) as E.
    { unfold s0, count_calls. cbn [calls add_call]. by rewrite filter_cons_False. }
    lia.
  - intros Hnone.
    destruct (resolver_passes_over_links driver place_selectors [] s0 Hnone)
      as (s' & cs & Heq & _).
    rewrite app_nil_r in Heq. by rewrite Heq.
Qed.

(** ** Destination names *)

Lemma default_destinations_lookup (region : str) :
  default placeholder_destinations (default_destinations !! region)
  = if decide (lit "서울" = region)
    then map lit ["경복궁"; "명동"; "홍대"; "강남"; "한강공원"]%string
    else if decide (lit "부산" = region)
    then map lit ["해운대"; "광안리"; "태종대"; "감천문화마을"; "자갈치시장"]%string
    else if decide (lit "경주" = region)
    then map lit ["불국사"; "석굴암"; "첨성대"; "안압지"; "대릉원"]%string
    else placeholder_destinations.
Proof.
  unfold default_destinations. rewrite !lookup_insert, lookup_empty.
  by repeat case_decide.
Qed.


(** * The properties on the scenarios *)

Lemma crawl_reviews_deduplicated_bounded_witness :
  (crawl_reviews reviews_page unchanged (Some place_url) 3 blank).1
  = Ok [lit "음식이 정말 맛있고 친절했어요"; lit "분위기가 좋아서 다시 가고 싶은 곳"] ∧
  NoDup [lit "음식이 정말 맛있고 친절했어요"; lit "분위기가 좋아서 다시 가고 싶은 곳"] ∧
  Z.of_nat (length [lit "음식이 정말 맛있고 친절했어요"; lit "분위기가 좋아서 다시 가고 싶은 곳"]) ≤ 3.
Proof.
  split; [by vm_compute|].
  apply (proj2 (crawl_reviews_deduplicated_bounded 3 ltac:(lia))
           reviews_page unchanged (Some place_url) blank).
  by vm_compute.
Defined.

Lemma tier1_success_skips_lower_tiers_witness :
  tier1_yield reviews_page 10 ≠ [] ∧
  count_calls is_tier2_query
    (crawl_reviews reviews_page unchanged (Some place_url) 10 blank).2
  = count_calls is_tier2_query blank ∧
  count_calls is_tier3_query
    (crawl_reviews reviews_page unchanged (Some place_url) 10 blank).2
  = count_calls is_tier3_query blank.
Proof.
  split; [by vm_compute|].
  apply (tier1_success_skips_lower_tiers reviews_page unchanged (Some place_url) 10 blank).
  by vm_compute.
Defined.

(** C3 as stated fails: the first Tier 1 pattern returns a node, none of
    its nodes is accepted, and the second pattern is queried all the same
    (and supplies the review that is returned). *)
Lemma later_pattern_queried_after_match :
  find_elements label_page By_CSS_SELECTOR (lit ".zPfVt") = Ok [node "리뷰 12"] ∧
  count_calls (is_query (lit ".YEtwtZFlx")) blank = 0%nat ∧
  count_calls (is_query (lit ".YEtwtZFlx"))
    (crawl_reviews label_page unchanged (Some place_url) 10 blank).2 = 1%nat ∧
  (crawl_reviews label_page unchanged (Some place_url) 10 blank).1
  = Ok [lit "음식이 정말 맛있고 친절했어요"].
Proof. by vm_compute. Qed.

Lemma tier1_stops_at_first_yield_witness :
  count_calls (is_query (lit ".YEtwtZFlx")) (tier1 reviews_page 10 blank).2
  = count_calls (is_query (lit ".YEtwtZFlx")) blank ∧
  (count_calls (is_query (lit ".YEtwtZFlx")) blank
   < count_calls (is_query (lit ".YEtwtZFlx")) (tier1 label_page 10 blank).2)%nat.
Proof.
  split.
  - apply (proj1 (tier1_stops_at_first_yield reviews_page 10 blank eq_refl)
             [] (lit ".zPfVt") [lit ".YEtwtZFlx"; lit "span.Wzv5Z90S4"]
             [node "리뷰"; node "음식이 정말 맛있고 친절했어요";
              node "음식이 정말 맛있고 친절했어요";
              node "  분위기가 좋아서 다시 가고 싶은 곳  "]).
    + reflexivity.
    + reflexivity.
    + repeat constructor; by eexists.
    + apply Exists_cons_tl, Exists_cons_hd. eexists. split; [reflexivity | by vm_compute].
    + apply elem_of_cons. by left.
  - apply (proj2 (tier1_stops_at_first_yield label_page 10 blank eq_refl)
             [] (lit ".zPfVt") (lit ".YEtwtZFlx") [lit "span.Wzv5Z90S4"]).
    + reflexivity.
    + constructor.
    + right. exists [node "리뷰 12"]. split; [reflexivity|].
      repeat constructor. eexists. split; [reflexivity | by vm_compute].
Defined.

Lemma crawl_reviews_resets_scope_witness :
  place_url ≠ [] ∧
  (∃ cs, calls (crawl_reviews reviews_page unchanged (Some place_url) 10 blank).2
         = CallDefaultContent :: cs ++ calls blank) ∧
  scope (crawl_reviews reviews_page unchanged (Some place_url) 10 blank).2 = TopLevel.
Proof.
  assert (place_url ≠ []) as Hurl by (by vm_compute).
  split; [exact Hurl|].
  split.
  - apply (crawl_reviews_resets_scope reviews_page unchanged place_url 10 blank Hurl).
  - apply (crawl_reviews_resets_scope reviews_page unchanged place_url 10 blank Hurl).
    reflexivity.
Defined.

Lemma frame_timeout_gives_empty_witness :
  (crawl_reviews (frameless reviews_page) unchanged (Some place_url) 10 blank).1 = Ok [] ∧
  calls (crawl_reviews (frameless reviews_page) unchanged (Some place_url) 10 blank).2
  = [CallDefaultContent; CallFrameWait By_ID (lit "entryIframe"); CallGet place_url]
    ++ calls blank.
Proof.
  apply (frame_timeout_gives_empty (frameless reviews_page) unchanged place_url 10 blank).
  - by vm_compute.
  - reflexivity.
  - reflexivity.
Defined.

(** C8 as stated fails: the first link pattern matches a node, the node has
    no target, and the second pattern is queried all the same and supplies
    the URL that is returned. *)
Lemma matched_pattern_without_target_is_passed_over :
  get untargeted_results_page (search_url unchanged (lit "경복궁") (lit "서울")) = Ok tt ∧
  find_elements untargeted_results_page By_CSS_SELECTOR (lit "a[href*='place.naver.com']")
  = Ok [node "지도"] ∧
  count_calls (is_query (lit "a[href*='/place/']")) blank = 0%nat ∧
  count_calls (is_query (lit "a[href*='/place/']"))
    (search_naver_place untargeted_results_page unchanged
       (lit "경복궁") (lit "서울") blank).2 = 1%nat ∧
  (search_naver_place untargeted_results_page unchanged
     (lit "경복궁") (lit "서울") blank).1
  = Ok (Some (lit "https://m.place.naver.com/place/12?entry=pll&placePath=/review")).
Proof. by vm_compute. Qed.

Lemma search_first_usable_link_wins_witness :
  (search_naver_place results_page unchanged (lit "경복궁") (lit "서울") blank).1
  = Ok (Some (lit "https://m.place.naver.com/place/11?entry=pll&placePath=/review")) ∧
  count_calls (is_query (lit ".place_bluelink a"))
    (search_naver_place results_page unchanged (lit "경복궁") (lit "서울") blank).2
  = count_calls (is_query (lit ".place_bluelink a")) blank ∧
  (count_calls (is_query (lit "a[href*='/place/']")) blank
   < count_calls (is_query (lit "a[href*='/place/']"))
       (search_naver_place untargeted_results_page unchanged
          (lit "경복궁") (lit "서울") blank).2)%nat.
Proof.
  destruct (proj1 (search_first_usable_link_wins results_page unchanged
                     (lit "경복궁") (lit "서울") blank eq_refl eq_refl)
              [lit "a[href*='place.naver.com']"] (lit "a[href*='/place/']")
              [lit ".place_bluelink a"]
              (link "https://m.place.naver.com/place/11?entry=pll&placePath=/home")
              [link "https://m.place.naver.com/place/12?entry=pll"]
              (lit "https://m.place.naver.com/place/11?entry=pll&placePath=/home"))
    as [Hurl Hlater].
  - reflexivity.
  - constructor; [by left; left | constructor].
  - reflexivity.
  - reflexivity.
  - split; [exact Hurl|]. split; [apply Hlater, elem_of_cons; by left|].
    apply (proj1 (proj2 (search_first_usable_link_wins untargeted_results_page unchanged
                           (lit "경복궁") (lit "서울") blank eq_refl eq_refl))
             [] (lit "a[href*='place.naver.com']") (lit "a[href*='/place/']")
             [lit ".place_bluelink a"]).
    + reflexivity.
    + constructor.
    + right. exists (node "지도"), []. split; [reflexivity | left; reflexivity].
Defined.



(** * Further properties *)

(** ** Trimming *)

Lemma lstrip_suffix (s : str) : ∃ a, s = a ++ lstrip s.
Proof.
  induction s as [|c s [a IH]]; [by exists []|].
  simpl. destruct (isspace c); [|by exists []].
  exists (c :: a). simpl. by rewrite <- IH.
Qed.

Lemma lstrip_starts_clean (s : str) : starts_clean (lstrip s) = true.
Proof.
  induction s as [|c s IH]; [done|].
  simpl. destruct (isspace c) eqn:E; [done|]. simpl. by rewrite E.
Qed.

Lemma lstrip_fixed (s : str) : starts_clean s = true → lstrip s = s.
Proof. destruct s as [|c s]; [done|]. simpl. by destruct (isspace c). Qed.

Lemma starts_clean_prefix (p b : str) :
  starts_clean (p ++ b) = true → p ≠ [] → starts_clean p = true.
Proof. by destruct p. Qed.

Lemma ends_clean_suffix (a t : str) :
  ends_clean (a ++ t) = true → t ≠ [] → ends_clean t = true.
Proof.
  unfold ends_clean. rewrite rev_app_distr. intros H Ht.
  apply (starts_clean_prefix _ (rev a)); [done|].
  intros Hr. apply Ht. by rewrite <- (rev_involutive t), Hr.
Qed.

Lemma ends_clean_app (a t : str) :
  t ≠ [] → ends_clean (a ++ t) = ends_clean t.
Proof.
  intros Ht. unfold ends_clean. rewrite rev_app_distr.
  destruct (rev t) as [|c r] eqn:E; [|done].
  exfalso. apply Ht. by rewrite <- (rev_involutive t), E.
Qed.

Lemma rstrip_ends_clean (s : str) : ends_clean (rstrip s) = true.
Proof. unfold ends_clean, rstrip. rewrite rev_involutive. apply lstrip_starts_clean. Qed.

Lemma rstrip_fixed (s : str) : ends_clean s = true → rstrip s = s.
Proof.
  unfold ends_clean, rstrip. intros H. rewrite lstrip_fixed by done.
  apply rev_involutive.
Qed.

Lemma rstrip_prefix (s : str) : ∃ b, s = rstrip s ++ b.
Proof.
  unfold rstrip. destruct (lstrip_suffix (rev s)) as [a Ha].
  exists (rev a). rewrite <- rev_app_distr, <- Ha. by rewrite rev_involutive.
Qed.

Lemma strip_clean (s : str) :
  starts_clean (strip s) = true ∧ ends_clean (strip s) = true.
Proof.
  unfold strip. split; [|apply rstrip_ends_clean].
  destruct (rstrip_prefix (lstrip s)) as [b Hb].
  destruct (rstrip (lstrip s)) as [|c r] eqn:E; [done|].
  apply (starts_clean_prefix _ b); [|done].
  rewrite <- Hb. apply lstrip_starts_clean.
Qed.

Lemma strip_fixed (s : str) :
  starts_clean s = true → ends_clean s = true → strip s = s.
Proof.
  intros Hs He. unfold strip. rewrite (lstrip_fixed s Hs). by apply rstrip_fixed.
Qed.

Lemma strip_fixed_inv (s : str) :
  strip s = s → starts_clean s = true ∧ ends_clean s = true.
Proof. intros <-. apply strip_clean. Qed.

(** ** Names returned by [get_travel_destinations] *)

Lemma skip_while_suffix (p : char → bool) (s : str) : ∃ a, s = a ++ skip_while p s.
Proof.
  induction s as [|c s [a IH]]; [by exists []|].
  simpl. destruct (p c); [|by exists []].
  exists (c :: a). simpl. by rewrite <- IH.
Qed.

Lemma skip_while_isspace (s : str) : skip_while isspace s = lstrip s.
Proof. induction s as [|c s IH]; [done|]. simpl. by rewrite IH. Qed.

(** Removing the ordinal from a trimmed line leaves a trimmed text. *)
Lemma sub_ordinal_clean (x : str) :
  starts_clean x = true → ends_clean x = true →
  starts_clean (sub_ordinal x) = true ∧ ends_clean (sub_ordinal x) = true.
Proof.
  intros Hs He. unfold sub_ordinal. destruct x as [|c x']; [done|].
  destruct (isdecimal c); [|done].
  destruct (skip_while_suffix isdecimal (c :: x')) as [a Ha].
  destruct (skip_while isdecimal (c :: x')) as [|d r]; [done|].
  destruct d as [|p]; [done|]. do 6 (destruct p as [p|p|]; try (by split)).
  rewrite skip_while_isspace. split; [apply lstrip_starts_clean|].
  destruct (lstrip_suffix r) as [b Hb].
  destruct (lstrip r) as [|e t] eqn:E; [done|].
  apply (ends_clean_suffix (a ++ 46%N :: b)); [|done].
  rewrite <- app_assoc. simpl. by rewrite <- Hb, <- Ha.
Qed.

Lemma collect_destinations_clean (lines destinations : list str) :
  Forall clean_name destinations →
  Forall clean_name (collect_destinations lines destinations).
Proof.
  revert destinations. induction lines as [|line lines IH]; intros ds Hds; [done|].
  cbn [collect_destinations]. destruct (truthy (strip line)); [|by apply IH].
  destruct (truthy (sub_ordinal (strip line))) eqn:Ht; [|by apply IH].
  apply IH. apply Forall_app. split; [done|]. constructor; [|done].
  destruct (strip_clean line) as [Hs He].
  destruct (sub_ordinal_clean _ Hs He) as [Hs' He'].
  split; [by destruct (sub_ordinal (strip line)) | by apply strip_fixed].
Qed.

Lemma default_destinations_clean (region : str) :
  Forall clean_name (default placeholder_destinations (default_destinations !! region)).
Proof.
  rewrite default_destinations_lookup.
  repeat case_decide; repeat (constructor; [split; [done | reflexivity]|]); constructor.
Qed.

(** X1. Whatever the collaborator replies, [get_travel_destinations] hands
    out at most five names, none of them empty and none with whitespace
    around it. *)
Theorem destinations_at_most_five_clean
    (generate_content : str → outcome str) (region : str) (names : list str) :
  get_travel_destinations generate_content region = Ok names →
  (length names ≤ 5)%nat ∧ Forall (λ n, n ≠ [] ∧ strip n = n) names.
Proof.
  unfold get_travel_destinations.
  destruct (generate_content (prompt region)) as [reply|e].
  - intros [= <-]. unfold slice_to. simpl. rewrite length_take. split; [lia|].
    apply Forall_take. by apply (collect_destinations_clean _ []).
  - destruct (is_Exception e); [|done]. intros [= <-]. split.
    + rewrite default_destinations_lookup. by repeat case_decide.
    + apply default_destinations_clean.
Qed.

Lemma isdecimal_outside (lo hi c : N) :
  forallb (λ z, (z + 10 <=? lo) || (hi <? z))%N Nd_zeros = true →
  (lo ≤ c ≤ hi)%N → isdecimal c = false.
Proof.
  intros Hall Hc. unfold isdecimal.
  apply not_true_is_false. intros (z & Hz & Hzc)%existsb_exists.
  rewrite forallb_forall in Hall. specialize (Hall z Hz).
  apply andb_prop in Hzc as [H1%N.leb_le H2%N.ltb_lt].
  apply orb_prop in Hall as [H%N.leb_le|H%N.ltb_lt]; lia.
Qed.

(** No decimal digit is a whitespace character. *)
Lemma decimal_not_space (c : char) : isdecimal c = true → isspace c = false.
Proof.
  intros Hd. apply not_true_is_false. intros Hs.
  assert (isdecimal c = false) as Hn; [|congruence].
  unfold isspace in Hs.
  repeat (apply orb_prop in Hs as [Hs|Hs]);
    try (apply andb_prop in Hs as [H1%N.leb_le H2%N.leb_le]);
    try apply N.eqb_eq in Hs.
  - by apply (isdecimal_outside 9 13).
  - by apply (isdecimal_outside 28 32).
  - apply (isdecimal_outside 133 133); [done | lia].
  - apply (isdecimal_outside 160 160); [done | lia].
  - apply (isdecimal_outside 5760 5760); [done | lia].
  - by apply (isdecimal_outside 8192 8202).
  - apply (isdecimal_outside 8232 8232); [done | lia].
  - apply (isdecimal_outside 8233 8233); [done | lia].
  - apply (isdecimal_outside 8239 8239); [done | lia].
  - apply (isdecimal_outside 8287 8287); [done | lia].
  - apply (isdecimal_outside 12288 12288); [done | lia].
Qed.

Lemma skip_while_app (p : char → bool) (o r : str) :
  Forall (λ c, p c = true) o → skip_while p (o ++ r) = skip_while p r.
Proof. induction 1 as [|c o Hc _ IH]; [done|]. simpl. by rewrite Hc. Qed.

Lemma split_no_sep (sep : char) (l : str) : sep ∉ l → split sep l = [l].
Proof.
  induction l as [|c l IH]; [done|]. intros [Hc Hl]%not_elem_of_cons.
  simpl. destruct (N.eqb_spec c sep) as [->|_]; [done|]. by rewrite IH.
Qed.

Lemma split_app_sep (sep : char) (l rest : str) :
  sep ∉ l → split sep (l ++ sep :: rest) = l :: split sep rest.
Proof.
  induction l as [|c l IH]; intros Hl.
  - simpl. by rewrite N.eqb_refl.
  - apply not_elem_of_cons in Hl as [Hc Hl]. simpl.
    destruct (N.eqb_spec c sep) as [->|_]; [done|]. by rewrite IH.
Qed.

(** Splitting at line breaks undoes joining with line breaks. *)
Lemma split_join (lines : list str) :
  lines ≠ [] →
  Forall (λ l, newline ∉ l) lines →
  split newline (join [newline] lines) = lines.
Proof.
  intros Hne H. induction H as [|l lines Hl Hlines IH]; [done|].
  destruct lines as [|l' lines]; [by apply split_no_sep|].
  change (join [newline] (l :: l' :: lines))
    with (l ++ newline :: join [newline] (l' :: lines)).
  rewrite split_app_sep by done. by rewrite IH.
Qed.

Section NumberedReply.

Variables (o n : str).
Hypothesis (Ho : ordinal o) (Hn : plain_name n).

Lemma numbered_line_starts_clean : starts_clean (numbered_line (o, n)) = true.
Proof.
  destruct Ho as [Hne Hd]. unfold numbered_line. cbn [fst snd].
  destruct Hd as [|c o' Hc _]; [done|]. cbn [app starts_clean].
  by rewrite decimal_not_space.
Qed.

Lemma numbered_line_ends_clean : ends_clean (numbered_line (o, n)) = true.
Proof.
  destruct Hn as (Hne & Hstrip & _). unfold numbered_line. cbn [fst snd].
  rewrite app_assoc, ends_clean_app by done. by apply strip_fixed_inv.
Qed.

Lemma numbered_line_no_newline : newline ∉ numbered_line (o, n).
Proof.
  destruct Ho as [_ Hd]. destruct Hn as (_ & _ & Hnl). unfold numbered_line.
  cbn [fst snd]. rewrite !elem_of_app. intros [H|[H|H]]; [| |done].
  - rewrite Forall_forall in Hd. by specialize (Hd _ H).
  - revert H. apply (bool_decide_unpack _). by vm_compute.
Qed.

(** The name is what is left of the line once the ordinal is removed. *)
Lemma sub_ordinal_numbered_line : sub_ordinal (numbered_line (o, n)) = n.
Proof.
  destruct Ho as [Hne Hd]. destruct Hn as (Hnne & Hstrip & _).
  apply strip_fixed_inv in Hstrip as [Hs _].
  unfold sub_ordinal, numbered_line. cbn [fst snd].
  rewrite skip_while_app by done.
  destruct o as [|c o']; [done|]. cbn [app].
  apply Forall_cons in Hd as [Hc _]. rewrite Hc.
  change (skip_while isdecimal (lit ". " ++ n)) with (46%N :: 32%N :: n).
  change (skip_while isspace (32%N :: n) = n).
  rewrite skip_while_isspace. change (lstrip (32%N :: n)) with (lstrip n).
  by apply lstrip_fixed.
Qed.

End NumberedReply.

Lemma collect_numbered_lines (items : list (str * str)) (destinations : list str) :
  Forall (λ it, ordinal it.1 ∧ plain_name it.2) items →
  collect_destinations (map numbered_line items) destinations
  = destinations ++ map snd items.
Proof.
  intros H. revert destinations.
  induction H as [|[o n] items [Ho Hn] _ IH]; intros ds; [by rewrite app_nil_r|].
  cbn [map collect_destinations fst snd] in *.
  rewrite (strip_fixed (numbered_line (o, n))
             (numbered_line_starts_clean o n Ho) (numbered_line_ends_clean o n Hn)).
  rewrite sub_ordinal_numbered_line by done.
  assert (truthy (numbered_line (o, n)) = true) as ->.
  { destruct Ho as [Hne _]. unfold numbered_line. simpl. by destruct o. }
  assert (truthy n = true) as -> by (destruct Hn as [Hne _]; by destruct n).
  rewrite IH. by rewrite <- app_assoc.
Qed.

Lemma numbered_reply_clean (items : list (str * str)) :
  Forall (λ it, ordinal it.1 ∧ plain_name it.2) items →
  strip (numbered_reply items) = numbered_reply items.
Proof.
  intros H. unfold numbered_reply. apply strip_fixed.
  - destruct H as [|[o n] items [Ho Hn] _]; [done|]. cbn [map join].
    pose proof (numbered_line_starts_clean o n Ho) as Hs.
    destruct (map numbered_line items); [done|].
    destruct (numbered_line (o, n)) as [|? ?] eqn:E; [|done].
    destruct Ho as [Hne _]. unfold numbered_line in E. simpl in E. by destruct o.
  - induction H as [|[o n] items [Ho Hn] _ IH]; [done|]. cbn [map join].
    destruct (map numbered_line items) as [|l ls] eqn:E;
      [by apply numbered_line_ends_clean|].
    rewrite app_assoc, ends_clean_app; [done|].
    destruct items as [|[o' n'] items']; [done|].
    cbn [map] in E. injection E as <- <-.
    destruct (map numbered_line items'); intros Hnil.
    + cbn [join] in Hnil. unfold numbered_line in Hnil. simpl in Hnil.
      by apply app_eq_nil in Hnil as [_ ?].
    + cbn [join] in Hnil. apply app_eq_nil in Hnil as [_ Hnil]. done.
Qed.

(** X2. When the collaborator answers in the format the prompt asks for,
    one line per name with an ordinal, a period and a space in front, the
    names come back exactly as written, in order, cut to the first five. *)
Theorem numbered_reply_round_trip
    (generate_content : str → outcome str) (region : str)
    (items : list (str * str)) :
  generate_content (prompt region) = Ok (numbered_reply items) →
  Forall (λ it, ordinal it.1 ∧ plain_name it.2) items →
  get_travel_destinations generate_content region = Ok (take 5 (map snd items)).
Proof.
  intros Hgc Hitems. unfold get_travel_destinations. rewrite Hgc.
  rewrite numbered_reply_clean by done. f_equal.
  destruct items as [|it items]; [done|].
  unfold numbered_reply. rewrite split_join.
  - by rewrite (collect_numbered_lines _ []).
  - done.
  - apply Forall_map. eapply Forall_impl; [exact Hitems|].
    intros [o n] [Ho Hn]. by apply numbered_line_no_newline.
Qed.

(** ** More on the review-tab rewrite *)

(** The leftmost occurrence of a non-empty text. *)
Lemma leftmost_occurrence (p s : str) :
  p ≠ [] → contains p s = true →
  ∃ pre post, s = pre ++ p ++ post ∧ ¬ occurs_in p pre.
Proof.
  intros Hp. induction s as [|c s IH]; intros Hc.
  - apply contains_spec in Hc as (pre & post & Hs).
    symmetry in Hs. apply app_eq_nil in Hs as [_ Hs].
    by apply app_eq_nil in Hs as [? _].
  - destruct (startswith p (c :: s)) eqn:Hs.
    + apply startswith_spec in Hs as [post ->]. exists [], post. split; [done|].
      intros (a & b & Hab). symmetry in Hab. apply app_eq_nil in Hab as [_ Hab].
      by apply app_eq_nil in Hab as [? _].
    + simpl in Hc. rewrite Hs in Hc. simpl in Hc.
      destruct (IH Hc) as (pre & post & -> & Hpre).
      exists (c :: pre), post. split; [done|].
      intros (a & b & Hab). destruct a as [|c' a].
      * simpl in Hab. assert (startswith p (c :: pre ++ p ++ post) = true) as Ht.
        { apply startswith_spec. exists (b ++ p ++ post).
          rewrite (app_assoc p b), <- Hab. done. }
        congruence.
      * injection Hab as -> ->. apply Hpre. by exists a, b.
Qed.

(** A text splits at its first [&]. *)
Lemma split_at_ampersand (t : str) :
  ∃ value rest, t = value ++ rest ∧ (38%N ∉ value) ∧
                (rest = [] ∨ ∃ r, rest = 38%N :: r).
Proof.
  induction t as [|c t (value & rest & -> & Hv & Hr)].
  - exists [], []. repeat split; [apply not_elem_of_nil | by left].
  - destruct (N.eqb_spec c 38) as [->|Hc].
    + exists [], (38%N :: value ++ rest).
      repeat split; [apply not_elem_of_nil | right; by eexists].
    + exists (c :: value), rest. repeat split; [|done].
      apply not_elem_of_cons. split; [by intros <- | done].
Qed.

Lemma sub_placePath_ampersand (r : str) :
  sub_placePath (38%N :: r) = 38%N :: sub_placePath r.
Proof. reflexivity. Qed.

(** The rewritten text of a URL with a [placePath] parameter: up to the
    first one it is unchanged, then comes [placePath=/review], then the
    rewritten rest. *)
Lemma sub_placePath_shape (s : str) :
  contains (lit "placePath=") s = true →
  ∃ pre value rest,
    s = pre ++ lit "placePath=" ++ value ++ rest ∧
    ¬ occurs_in (lit "placePath=") pre ∧
    (38%N ∉ value) ∧
    (rest = [] ∨ ∃ r, rest = 38%N :: r) ∧
    sub_placePath s = pre ++ lit "placePath=/review" ++ sub_placePath rest.
Proof.
  intros Hc.
  assert (lit "placePath=" ≠ []) as Hp by (by vm_compute).
  destruct (leftmost_occurrence _ s Hp Hc) as (pre & t & -> & Hpre).
  destruct (split_at_ampersand t) as (value & rest & -> & Hv & Hr).
  exists pre, value, rest. repeat split; try done.
  by apply sub_placePath_first.
Qed.

Lemma sub_placePath_idempotent (s : str) :
  sub_placePath (sub_placePath s) = sub_placePath s.
Proof.
  remember (length s) as n eqn:Hn. revert s Hn.
  induction n as [n IH] using lt_wf_ind. intros s ->.
  destruct (contains (lit "placePath=") s) eqn:Hc.
  - destruct (sub_placePath_shape s Hc) as (pre & value & rest & Hs & Hpre & Hv & Hr & ->).
    assert (sub_placePath (sub_placePath rest) = sub_placePath rest) as Hrest.
    { apply (IH (length rest)); [|done]. rewrite Hs, !length_app. simpl. lia. }
    assert (sub_placePath
              (pre ++ lit "placePath=" ++ lit "/review" ++ sub_placePath rest)
            = pre ++ lit "placePath=/review" ++ sub_placePath (sub_placePath rest)) as E.
    { apply sub_placePath_first; [done| |].
      - apply (bool_decide_unpack _). by vm_compute.
      - destruct Hr as [->|[r ->]]; [by left|].
        right. rewrite sub_placePath_ampersand. by eexists. }
    etransitivity; [exact E | by rewrite Hrest].
  - unfold sub_placePath. by rewrite !(sub_no_match _ _ _ s Hc).
Qed.

Lemma no_occurrence_before_ampersand (url : str) :
  ¬ occurs_in (lit "placePath=") url →
  ¬ occurs_in (lit "placePath=") (url ++ [38%N]).
Proof.
  intros Hurl (a & b & Hab). destruct b as [|x b _] using rev_ind.
  - rewrite app_nil_r in Hab.
    change (lit "placePath=") with (lit "placePath" ++ [61%N]) in Hab.
    rewrite !app_assoc in Hab. by apply app_inj_tail in Hab as [_ ?].
  - rewrite !app_assoc in Hab. apply app_inj_tail in Hab as [-> _].
    apply Hurl. exists a, b. by rewrite <- app_assoc.
Qed.

Lemma force_review_tab_occurs (url : str) :
  occurs_in (lit "placePath=/review") (force_review_tab url).
Proof.
  unfold force_review_tab. destruct (contains (lit "placePath=") url) eqn:Hc.
  - destruct (sub_placePath_shape url Hc) as (pre & value & rest & _ & _ & _ & _ & ->).
    by exists pre, (sub_placePath rest).
  - exists (url ++ [38%N]), []. rewrite <- app_assoc. reflexivity.
Qed.

(** X3. Forcing the review tab twice is the same as forcing it once: a URL
    that was already rewritten is left as it is. *)
Theorem force_review_tab_idempotent (url : str) :
  force_review_tab (force_review_tab url) = force_review_tab url.
Proof.
  assert (contains (lit "placePath=") (force_review_tab url) = true) as Hc'.
  { apply contains_spec. destruct (force_review_tab_occurs url) as (a & b & ->).
    exists a, (lit "/review" ++ b). reflexivity. }
  unfold force_review_tab at 1. rewrite Hc'.
  unfold force_review_tab. destruct (contains (lit "placePath=") url) eqn:Hc.
  - apply sub_placePath_idempotent.
  - apply contains_false in Hc.
    assert (sub_placePath ((url ++ [38%N]) ++ lit "placePath=" ++ lit "/review" ++ [])
            = (url ++ [38%N]) ++ lit "placePath=/review" ++ sub_placePath []) as E.
    { apply sub_placePath_first; [|  | by left].
      - by apply no_occurrence_before_ampersand.
      - apply (bool_decide_unpack _). by vm_compute. }
    rewrite <- !app_assoc in E. rewrite app_nil_r in E. exact E.
Qed.

(** ** More on place resolution *)

Section ResolverMore.

Variables (driver : Driver) (quote : str → str).

(** One round of the loop never fails; when it returns a URL, that is the
    rewritten target of the first link the pattern matched. *)
Lemma try_place_selector_answer (selector : str) (s : State) :
  ∃ r, (try_place_selector driver selector s).1 = Ok r ∧
       ∀ url, r = Some url →
         ∃ first others href,
           find_elements driver By_CSS_SELECTOR selector = Ok (first :: others) ∧
           get_attribute first (lit "href") = Ok (Some href) ∧
           url = force_review_tab href.
Proof.
  rewrite try_place_selector_run. cbn zeta.
  destruct (find_elements driver By_CSS_SELECTOR selector) as [[|first others]|e];
    try (exists None; split; [done | by intros ? [=]]).
  destruct (get_attribute first (lit "href")) as [[href|]|e] eqn:Hh;
    try (exists None; split; [done | by intros ? [=]]).
  exists (Some (force_review_tab href)). split; [done|].
  intros url [= <-]. by exists first, others, href.
Qed.

Lemma resolver_loop_answer (selectors : list str) (s : State) :
  ∃ r, (for_return selectors (try_place_selector driver) s).1 = Ok r ∧
       ∀ url, r = Some url →
         ∃ sel first others href,
           sel ∈ selectors ∧
           find_elements driver By_CSS_SELECTOR sel = Ok (first :: others) ∧
           get_attribute first (lit "href") = Ok (Some href) ∧
           url = force_review_tab href.
Proof.
  revert s. induction selectors as [|sel sels IH]; intros s.
  - exists None. split; [done | by intros ? [=]].
  - rewrite for_return_cons.
    destruct (try_place_selector_answer sel s) as (r & Hr & Hurl).
    destruct (try_place_selector driver sel s) as [[[v|]|e] s1]; simpl in Hr; try done.
    + injection Hr as <-. exists (Some v). split; [done|]. intros url [= <-].
      destruct (Hurl v eq_refl) as (first & others & href & ? & ? & ?).
      exists sel, first, others, href. split; [by apply elem_of_cons; left | done].
    + destruct (IH s1) as (r' & Hr' & Hurl'). exists r'. split; [done|].
      intros url Hu. destruct (Hurl' url Hu) as (sel' & first & others & href & ? & ?).
      exists sel', first, others, href. split; [by apply elem_of_cons; right | done].
Qed.

(** The ways [search_naver_place] can end: with the answer of the loop over
    the link patterns, or, when the load or the pause after it fails, with
    [None] or the error according to its class. *)
Lemma search_naver_place_cases (destination region : str) (s : State) :
  let url := search_url quote destination region in
  match get driver url, sleep driver 2 with
  | Ok _, Ok _ =>
      search_naver_place driver quote destination region s
      = for_return place_selectors (try_place_selector driver) (add_call (CallGet url) s)
  | Ok _, Raise e | Raise e, _ =>
      search_naver_place driver quote destination region s
      = (if is_Exception e then Ok None else Raise e, add_call (CallGet url) s)
  end.
Proof.
  cbn zeta.
  destruct (get driver (search_url quote destination region)) as [[]|e] eqn:Hget.
  - destruct (sleep driver 2) as [[]|e] eqn:Hsleep.
    + by apply search_naver_place_loaded.
    + unfold search_naver_place, try_except, bind, driver_get, call, time_sleep.
      rewrite Hget, Hsleep. by destruct (is_Exception e).
  - unfold search_naver_place, try_except, bind, driver_get, call, time_sleep.
    rewrite Hget. by destruct (is_Exception e).
Qed.

(** Patterns that give no URL are passed over. *)
Lemma resolver_passes_over_unusable (pre rest : list str) (s : State) :
  Forall (no_usable_link driver) pre →
  ∃ s', for_return (pre ++ rest) (try_place_selector driver) s
        = for_return rest (try_place_selector driver) s'.
Proof.
  intros H. revert s. induction H as [|p pre Hp _ IH]; intros s; [by exists s|].
  cbn [app]. rewrite for_return_cons, try_place_selector_run. cbn zeta.
  destruct Hp as [[->|[e ->]]|(first & others & -> & [->|[e ->]])]; apply IH.
Qed.

End ResolverMore.

(** X4. A URL returned by [search_naver_place] is always the target of the
    first link matched by one of the link patterns, rewritten to the review
    tab; it contains [placePath=/review], so it is never empty. *)
Theorem search_result_is_review_url
    (driver : Driver) (quote : str → str) (destination region : str)
    (s : State) (url : str) :
  (search_naver_place driver quote destination region s).1 = Ok (Some url) →
  (∃ sel first others href,
     sel ∈ place_selectors ∧
     find_elements driver By_CSS_SELECTOR sel = Ok (first :: others) ∧
     get_attribute first (lit "href") = Ok (Some href) ∧
     url = force_review_tab href) ∧
  occurs_in (lit "placePath=/review") url ∧ url ≠ [].
Proof.
  intros Hres.
  assert (∃ sel first others href,
            sel ∈ place_selectors ∧
            find_elements driver By_CSS_SELECTOR sel = Ok (first :: others) ∧
            get_attribute first (lit "href") = Ok (Some href) ∧
            url = force_review_tab href) as Hfrom.
  { pose proof (search_naver_place_cases driver quote destination region s) as Hc.
    cbn zeta in Hc.
    destruct (get driver (search_url quote destination region)) as [[]|e];
      [destruct (sleep driver 2) as [[]|e]|]; rewrite Hc in Hres.
    - destruct (resolver_loop_answer driver place_selectors
                  (add_call (CallGet (search_url quote destination region)) s))
        as (r & Hr & Hurl).
      rewrite Hr in Hres. injection Hres as ->. by apply Hurl.
    - simpl in Hres. by destruct (is_Exception e).
    - simpl in Hres. by destruct (is_Exception e). }
  split; [done|]. destruct Hfrom as (sel & first & others & href & _ & _ & _ & ->).
  pose proof (force_review_tab_occurs href) as Hocc. split; [done|].
  destruct Hocc as (a & b & ->). intros Hnil.
  apply app_eq_nil in Hnil as [_ Hnil]. by apply app_eq_nil in Hnil as [Hnil _].
Qed.

(** X5. An exception leaves [search_naver_place] only when loading the
    search page, or the pause after a successful load, raised it, and it is
    not an [Exception]: whatever goes wrong with the queries or the links
    is swallowed. *)
Theorem search_raises_only_from_load_or_pause
    (driver : Driver) (quote : str → str) (destination region : str)
    (s : State) (e : exn) :
  (search_naver_place driver quote destination region s).1 = Raise e →
  is_Exception e = false ∧
  (get driver (search_url quote destination region) = Raise e ∨
   get driver (search_url quote destination region) = Ok tt ∧
   sleep driver 2 = Raise e).
Proof.
  intros Hres.
  pose proof (search_naver_place_cases driver quote destination region s) as Hc.
  cbn zeta in Hc.
  destruct (get driver (search_url quote destination region)) as [[]|e1];
    [destruct (sleep driver 2) as [[]|e2]|]; rewrite Hc in Hres.
  - destruct (resolver_loop_answer driver place_selectors
                (add_call (CallGet (search_url quote destination region)) s))
      as (r & Hr & _).
    by rewrite Hr in Hres.
  - simpl in Hres. destruct (is_Exception e2) eqn:He; [done|].
    injection Hres as ->. split; [done | by right].
  - simpl in Hres. destruct (is_Exception e1) eqn:He; [done|].
    injection Hres as ->. split; [done | by left].
Qed.

(** X6. When loading the search page fails with an [Exception], the answer
    is [None] and no link pattern is queried: the page load is the only
    call made. *)
Theorem search_load_failure_gives_none
    (driver : Driver) (quote : str → str) (destination region : str)
    (s : State) (e : exn) :
  get driver (search_url quote destination region) = Raise e →
  is_Exception e = true →
  search_naver_place driver quote destination region s
  = (Ok None, add_call (CallGet (search_url quote destination region)) s).
Proof.
  intros Hget He.
  pose proof (search_naver_place_cases driver quote destination region s) as Hc.
  cbn zeta in Hc. rewrite Hget in Hc. by rewrite Hc, He.
Qed.

(** X7. Once the search page is loaded and the pause after it has passed,
    a pattern whose first link has no readable target (no [href], or
    reading it fails) does not end the search: it is passed over like a
    pattern without match, and the first pattern whose first link has a
    target gives the answer; when no pattern gives a URL the answer is
    [None]. *)
Theorem search_passes_over_unusable_links
    (driver : Driver) (quote : str → str) (destination region : str) (s : State) :
  get driver (search_url quote destination region) = Ok tt →
  sleep driver 2 = Ok tt →
  (∀ pre sel post first others href,
     place_selectors = pre ++ sel :: post →
     Forall (no_usable_link driver) pre →
     find_elements driver By_CSS_SELECTOR sel = Ok (first :: others) →
     get_attribute first (lit "href") = Ok (Some href) →
     (search_naver_place driver quote destination region s).1
     = Ok (Some (force_review_tab href))) ∧
  (Forall (no_usable_link driver) place_selectors →
   (search_naver_place driver quote destination region s).1 = Ok None).
Proof.
  intros Hget Hsleep.
  pose proof (search_naver_place_cases driver quote destination region s) as Hc.
  cbn zeta in Hc. rewrite Hget, Hsleep in Hc. rewrite Hc. split.
  - intros pre sel post first others href Hsplit Hpre Hfind Hhref.
    rewrite Hsplit.
    destruct (resolver_passes_over_unusable driver pre (sel :: post)
                (add_call (CallGet (search_url quote destination region)) s) Hpre)
      as [s' ->].
    rewrite for_return_cons, try_place_selector_run. cbn zeta.
    by rewrite Hfind, Hhref.
  - intros Hnone.
    destruct (resolver_passes_over_unusable driver place_selectors []
                (add_call (CallGet (search_url quote destination region)) s) Hnone)
      as [s' Heq].
    rewrite app_nil_r in Heq. by rewrite Heq.
Qed.

(** ** What the tiers collect *)

Lemma for_each_invariant {A} (Open Closed : list str → Prop)
    (xs : list A) (body : A → M bool) :
  (∀ rs, Open rs → Closed rs) →
  (∀ x s, Open (reviews s) →
     match body x s with
     | (Ok true, s') => Closed (reviews s')
     | (Ok false, s') | (Raise _, s') => Open (reviews s')
     end) →
  ∀ s, Open (reviews s) →
    match for_each xs body s with
    | (Ok _, s') => Closed (reviews s')
    | (Raise _, s') => Open (reviews s')
    end.
Proof.
  intros Hoc Hbody. induction xs as [|x xs IH]; intros s Hs.
  - simpl. by apply Hoc.
  - rewrite for_each_cons. specialize (Hbody x s Hs).
    destruct (body x s) as [[[|]|e] s']; [done | by apply IH | done].
Qed.

Lemma collecting_collected (max_reviews : Z) (rs : list str) :
  collecting max_reviews rs → collected max_reviews rs.
Proof.
  intros [[->|Hlt] Hgood]; (split; [|done]).
  - change (Z.of_nat (length (@nil str))) with 0. lia.
  - lia.
Qed.

(** One more snippet: the loop stops exactly when [max_reviews] is
    reached. *)
Lemma collecting_append (max_reviews : Z) (rs : list str) (t : str) :
  collecting max_reviews rs → long_enough t →
  if max_reviews <=? Z.of_nat (length (rs ++ [t]))
  then collected max_reviews (rs ++ [t])
  else collecting max_reviews (rs ++ [t]).
Proof.
  intros [Hopen Hgood] Ht.
  assert (Forall long_enough (rs ++ [t])) as Hgood'.
  { apply Forall_app. split; [done | by constructor]. }
  rewrite length_app. simpl length.
  destruct (Z.leb_spec max_reviews (Z.of_nat (length rs + 1))).
  - split; [|done]. rewrite length_app. simpl length.
    destruct Hopen as [->|Hlt]; [simpl length|]; lia.
  - split; [|done]. right. rewrite length_app. simpl length. lia.
Qed.

Lemma tier1_accept_long (t : str) : tier1_accept t = true → long_enough t.
Proof. unfold tier1_accept. by intros [_ ?%Z.ltb_lt]%andb_prop. Qed.

Lemma tier2_accept_long (t : str) : tier2_accept t = true → long_enough t.
Proof.
  intros H%tier2_accept_spec. unfold long_enough. lia.
Qed.

Lemma tier3_accept_long (t : str) : tier3_accept t = true → long_enough t.
Proof.
  intros H%tier3_accept_spec. unfold long_enough. lia.
Qed.

Section Collecting.

Variables (driver : Driver) (unescape : str → str) (max_reviews : Z).

Lemma tier1_element_collects (el : WebElement) (s : State) :
  collecting max_reviews (reviews s) →
  match tier1_element max_reviews el s with
  | (Ok true, s') => collected max_reviews (reviews s')
  | (Ok false, s') | (Raise _, s') => collecting max_reviews (reviews s')
  end.
Proof.
  intros Hs. rewrite tier1_element_run. destruct (text el) as [t|e]; [|done].
  destruct (tier1_accept (strip t)) eqn:Hacc; [|done].
  pose proof (collecting_append _ _ _ Hs (tier1_accept_long _ Hacc)) as H.
  by destruct (max_reviews <=? _).
Qed.

Lemma tier1_selector_collects (selector : str) (s : State) :
  collecting max_reviews (reviews s) →
  match tier1_selector driver max_reviews selector s with
  | (Ok true, s') => collected max_reviews (reviews s')
  | (Ok false, s') | (Raise _, s') => collecting max_reviews (reviews s')
  end.
Proof.
  intros Hs. rewrite tier1_selector_run. cbn zeta.
  destruct (find_elements driver By_CSS_SELECTOR selector) as [[|el els]|e]; try done.
  pose proof (for_each_invariant (collecting max_reviews) (collected max_reviews)
                (el :: els) (tier1_element max_reviews)
                (collecting_collected max_reviews) tier1_element_collects
                (add_call (CallFindElements By_CSS_SELECTOR selector) s) Hs) as H.
  destruct (for_each (el :: els) (tier1_element max_reviews) _) as [[[]|e] s2]; [|done].
  case_bool_decide as Hne; [done|].
  destruct (reviews s2) as [|r rs2] eqn:E.
  - split; [by left | done].
  - done.
Qed.

Lemma tier1_collects (s : State) :
  collecting max_reviews (reviews s) →
  (tier1 driver max_reviews s).1 = Ok tt ∧
  collected max_reviews (reviews (tier1 driver max_reviews s).2).
Proof.
  intros Hs. unfold tier1.
  assert (∀ sels s, (for_each sels (tier1_selector driver max_reviews) s).1 = Ok tt) as Hok.
  { induction sels as [|sel sels IH]; intros s0; [done|].
    rewrite for_each_cons, tier1_selector_run. cbn zeta.
    destruct (find_elements driver By_CSS_SELECTOR sel) as [[|el els]|e]; try apply IH.
    destruct (for_each (el :: els) (tier1_element max_reviews) _) as [[[]|e] s2];
      [|apply IH].
    case_bool_decide; [done | apply IH]. }
  split; [apply Hok|].
  pose proof (for_each_invariant (collecting max_reviews) (collected max_reviews)
                review_selectors (tier1_selector driver max_reviews)
                (collecting_collected max_reviews) tier1_selector_collects s Hs) as H.
  specialize (Hok review_selectors s).
  by destruct (for_each review_selectors _ s) as [[[]|e] s'].
Qed.

Lemma tier2_element_collects (a : WebElement) (s : State) :
  collecting max_reviews (reviews s) →
  match tier2_element unescape max_reviews a s with
  | (Ok true, s') => collected max_reviews (reviews s')
  | (Ok false, s') | (Raise _, s') => collecting max_reviews (reviews s')
  end.
Proof.
  intros Hs. rewrite tier2_element_run. cbn zeta.
  destruct (get_attribute a (lit "innerHTML")) as [[h|]|e]; [|done|by destruct (is_Exception e)].
  destruct (tier2_accept _) eqn:Hacc; [|done].
  pose proof (collecting_append _ _ _ Hs (tier2_accept_long _ Hacc)) as H.
  by destruct (max_reviews <=? _).
Qed.

Lemma tier2_run (s : State) :
  tier2 driver unescape max_reviews s
  = let s1 := add_call (CallFindElements By_CSS_SELECTOR review_list_selector) s in
    match find_elements driver By_CSS_SELECTOR review_list_selector with
    | Ok a_tags =>
        match for_each a_tags (tier2_element unescape max_reviews) s1 with
        | (Ok _, s2) => (Ok tt, s2)
        | (Raise e, s2) => if is_Exception e then (Ok tt, s2) else (Raise e, s2)
        end
    | Raise e => if is_Exception e then (Ok tt, s1) else (Raise e, s1)
    end.
Proof.
  unfold tier2, try_except, driver_find_elements, bind, call.
  destruct (find_elements driver By_CSS_SELECTOR review_list_selector) as [a_tags|e];
    [|by destruct (is_Exception e)].
  cbn zeta. by destruct (for_each a_tags _ _) as [[[]|e] s2].
Qed.

Lemma tier2_collects (s : State) :
  collecting max_reviews (reviews s) →
  match tier2 driver unescape max_reviews s with
  | (Ok _, s') => collected max_reviews (reviews s')
  | (Raise _, s') => collecting max_reviews (reviews s')
  end.
Proof.
  intros Hs. rewrite tier2_run. cbn zeta.
  destruct (find_elements driver By_CSS_SELECTOR review_list_selector) as [a_tags|e].
  - pose proof (for_each_invariant (collecting max_reviews) (collected max_reviews)
                  a_tags (tier2_element unescape max_reviews)
                  (collecting_collected max_reviews) tier2_element_collects
                  (add_call (CallFindElements By_CSS_SELECTOR review_list_selector) s) Hs)
      as H.
    destruct (for_each a_tags (tier2_element unescape max_reviews) _) as [[[]|e] s2];
      [done|].
    destruct (is_Exception e); [by apply collecting_collected | done].
  - destruct (is_Exception e); [by apply collecting_collected | done].
Qed.

Lemma tier3_element_collects (el : WebElement) (s : State) :
  collecting max_reviews (reviews s) →
  match tier3_element max_reviews el s with
  | (Ok true, s') => collected max_reviews (reviews s')
  | (Ok false, s') | (Raise _, s') => collecting max_reviews (reviews s')
  end.
Proof.
  intros Hs. rewrite tier3_element_run. cbn zeta. destruct (text el) as [t|e]; [|done].
  destruct (tier3_accept (strip t)) eqn:Hacc; [|done].
  pose proof (collecting_append _ _ _ Hs (tier3_accept_long _ Hacc)) as H.
  by destruct (max_reviews <=? _).
Qed.

Lemma tier3_run (s : State) :
  tier3 driver max_reviews s
  = let s1 := add_call (CallFindElements By_XPATH all_text_xpath) s in
    match find_elements driver By_XPATH all_text_xpath with
    | Ok all_texts =>
        (Ok tt, (for_each all_texts (tier3_element max_reviews) s1).2)
    | Raise _ => (Ok tt, s1)
    end.
Proof.
  unfold tier3, try_except, driver_find_elements, bind, call.
  destruct (find_elements driver By_XPATH all_text_xpath) as [all_texts|e]; [|done].
  cbn zeta. by destruct (for_each all_texts _ _) as [[[]|e] s2].
Qed.

Lemma tier3_collects (s : State) :
  collecting max_reviews (reviews s) →
  (tier3 driver max_reviews s).1 = Ok tt ∧
  collected max_reviews (reviews (tier3 driver max_reviews s).2).
Proof.
  intros Hs. rewrite tier3_run. cbn zeta.
  destruct (find_elements driver By_XPATH all_text_xpath) as [all_texts|e].
  - pose proof (for_each_invariant (collecting max_reviews) (collected max_reviews)
                  all_texts (tier3_element max_reviews)
                  (collecting_collected max_reviews) tier3_element_collects
                  (add_call (CallFindElements By_XPATH all_text_xpath) s) Hs) as H.
    split; [done|]. cbn [snd].
    destruct (for_each all_texts (tier3_element max_reviews) _) as [[[]|e] s2];
      [done | by apply collecting_collected].
  - split; [done | by apply collecting_collected].
Qed.

Lemma if_no_reviews_run (m : M unit) (s : State) :
  reviews s = [] → if_no_reviews m s = m s.
Proof. intros Hs. unfold if_no_reviews, bind, get_reviews. by rewrite Hs. Qed.

(** What [extract] answers is the normalisation of a collected list. *)
Lemma extract_collected (s : State) (rs : list str) :
  reviews s = [] →
  (extract driver unescape max_reviews s).1 = Ok rs →
  ∃ collected_reviews,
    rs = normalize collected_reviews max_reviews ∧
    collected max_reviews collected_reviews.
Proof.
  intros Hs. unfold extract.
  assert (collecting max_reviews (reviews s)) as Hopen by (rewrite Hs; by split; [left|]).
  destruct (tier1_collects s Hopen) as [Hok H1].
  unfold bind at 1. destruct (tier1 driver max_reviews s) as [[[]|e] s1]; [|done].
  simpl in H1. clear Hok.
  assert (match if_no_reviews (tier2 driver unescape max_reviews) s1 with
          | (Ok _, s2) => collected max_reviews (reviews s2)
          | (Raise _, _) => True
          end) as H2.
  { destruct (reviews s1) as [|r rs1] eqn:E.
    - rewrite if_no_reviews_run by done.
      assert (collecting max_reviews (reviews s1)) as Ho by (rewrite E; by split; [left|]).
      pose proof (tier2_collects s1 Ho) as H.
      by destruct (tier2 driver unescape max_reviews s1) as [[[]|e] s2].
    - rewrite if_no_reviews_skip by (by rewrite E). by rewrite E. }
  unfold bind at 1.
  destruct (if_no_reviews (tier2 driver unescape max_reviews) s1) as [[[]|e] s2]; [|done].
  assert (match if_no_reviews (tier3 driver max_reviews) s2 with
          | (Ok _, s3) => collected max_reviews (reviews s3)
          | (Raise _, _) => True
          end) as H3.
  { destruct (reviews s2) as [|r rs2] eqn:E.
    - rewrite if_no_reviews_run by done.
      assert (collecting max_reviews (reviews s2)) as Ho by (rewrite E; by split; [left|]).
      destruct (tier3_collects s2 Ho) as [Hok H].
      by destruct (tier3 driver max_reviews s2) as [[[]|e] s3].
    - rewrite if_no_reviews_skip by (by rewrite E). by rewrite E. }
  unfold bind at 1.
  destruct (if_no_reviews (tier3 driver max_reviews) s2) as [[[]|e] s3]; [|done].
  simpl. intros [= <-]. by exists (reviews s3).
Qed.

End Collecting.

(** ** More on the exit paths of [crawl_reviews] *)

Section CrawlRuns.

Variables (driver : Driver) (unescape : str → str) (max_reviews : Z).

(** The [try] block, path by path. *)
Lemma crawl_try_run (url : str) (s : State) :
  crawl_try driver unescape url max_reviews s
  = let s1 := add_call (CallGet url) s in
    match get driver url with
    | Ok _ =>
        let s2 := add_call (CallFrameWait By_ID (lit "entryIframe")) s1 in
        match until_frame_available driver By_ID (lit "entryIframe") with
        | Ok _ =>
            match extract driver unescape max_reviews
                    (set_scope (InFrame (lit "entryIframe")) s2) with
            | (Ok rs, s3) => (Ok rs, s3)
            | (Raise e, s3) => (if is_Exception e then Ok [] else Raise e, s3)
            end
        | Raise e => (if is_Exception e then Ok [] else Raise e, s2)
        end
    | Raise e => (if is_Exception e then Ok [] else Raise e, s1)
    end.
Proof.
  unfold crawl_try, try_except, bind, driver_get, enter_entry_frame, try_except,
    wait_and_switch_to_frame, bind, call, enter_scope.
  destruct (get driver url) as [[]|e]; [|by destruct (is_Exception e)].
  destruct (until_frame_available driver By_ID (lit "entryIframe")) as [[]|e].
  - cbn zeta. generalize (extract driver unescape max_reviews). intros ex. simpl.
    destruct (ex _) as [[rs|e] s3]; [done | by destruct (is_Exception e)].
  - by destruct e.
Qed.

(** With a place URL, a run is the [try] block from a state without
    reviews, then the reset; the caller's [reviews] are untouched. *)
Lemma crawl_reviews_present (url : str) (s : State) :
  url ≠ [] →
  ∃ r s3 s4,
    crawl_reviews driver unescape (Some url) max_reviews s = (r, s4) ∧
    crawl_try driver unescape url max_reviews (set_reviews [] s) = (r, s3) ∧
    calls s4 = CallDefaultContent :: calls s3.
Proof.
  intros Hurl. destruct url as [|c url]; [done|]. cbn [crawl_reviews].
  destruct (crawl_body_run driver unescape max_reviews (c :: url) s)
    as (r & s3 & s4 & Htry & -> & Hc & _).
  by exists r, s3, (set_reviews (reviews s) s4).
Qed.

(** When the page loads and the frame is entered, the run is [extract]
    from [frame_entered], then the reset. *)
Lemma crawl_reviews_entered (url : str) (s : State) :
  url ≠ [] →
  get driver url = Ok tt →
  until_frame_available driver By_ID (lit "entryIframe") = Ok tt →
  ∃ r s3 s4,
    extract driver unescape max_reviews (frame_entered url s) = (r, s3) ∧
    crawl_reviews driver unescape (Some url) max_reviews s
    = (match r with
       | Ok rs => Ok rs
       | Raise e => if is_Exception e then Ok [] else Raise e
       end, s4) ∧
    calls s4 = CallDefaultContent :: calls s3.
Proof.
  intros Hurl Hget Hwait.
  destruct (crawl_reviews_present url s Hurl) as (r & s3 & s4 & -> & Htry & Hcalls).
  rewrite crawl_try_run in Htry. cbv zeta in Htry. rewrite Hget, Hwait in Htry.
  fold (frame_entered url s) in Htry.
  destruct (extract driver unescape max_reviews (frame_entered url s)) as [r' s3'].
  exists r', s3', s4. split; [done|].
  destruct r' as [rs|e]; injection Htry as <- <-; by split.
Qed.

Lemma crawl_reviews_collected (place_url : option str) (s : State) (rs : list str) :
  (crawl_reviews driver unescape place_url max_reviews s).1 = Ok rs →
  ∃ collected_reviews,
    rs = normalize collected_reviews max_reviews ∧
    collected max_reviews collected_reviews.
Proof.
  assert (∃ collected_reviews : list str,
            [] = normalize collected_reviews max_reviews ∧
            collected max_reviews collected_reviews) as Hnil.
  { exists []. rewrite normalize_nil. split; [done|]. split; [|done].
    change (Z.of_nat (length (@nil str))) with 0. lia. }
  destruct place_url as [[|c url]|]; try (by intros [= <-]).
  destruct (crawl_reviews_present (c :: url) s ltac:(done))
    as (r & s3 & s4 & -> & Htry & _).
  cbn [fst]. intros ->. rewrite crawl_try_run in Htry. cbv zeta in Htry.
  destruct (get driver (c :: url)) as [[]|e];
    [|destruct (is_Exception e); [by injection Htry as <- _ | done]].
  destruct (until_frame_available driver By_ID (lit "entryIframe")) as [[]|e];
    [|destruct (is_Exception e); [by injection Htry as <- _ | done]].
  match type of Htry with context [extract _ _ _ ?s2] =>
    pose proof (extract_collected driver unescape max_reviews s2) as Hex;
    destruct (extract driver unescape max_reviews s2) as [[xs|e] s3']
  end.
  - injection Htry as -> _. by apply Hex.
  - destruct (is_Exception e); [by injection Htry as <- _ | done].
Qed.

End CrawlRuns.

Lemma first_seen_length (rs : list str) : (length (first_seen rs) ≤ length rs)%nat.
Proof.
  induction rs as [|r rs IH]; [done|]. cbn [first_seen length].
  pose proof (length_filter (λ x, x ≠ r) (first_seen rs)). lia.
Qed.

Lemma normalize_shape (rs : list str) (max_reviews : Z) :
  normalize rs max_reviews
  = take (Z.to_nat (if max_reviews <? 0
                    then Z.of_nat (length (first_seen rs)) + max_reviews
                    else max_reviews))
         (first_seen rs).
Proof.
  unfold normalize, slice_to. rewrite dedup_first_seen. cbn [app].
  rewrite filter_all by (intros x; apply not_elem_of_empty).
  by destruct (max_reviews <? 0).
Qed.

(** X8. No exception of class [Exception] ever leaves [crawl_reviews]:
    timeouts, failed queries and unreadable elements all end in a list. *)
Theorem crawl_reviews_swallows_exceptions
    (driver : Driver) (unescape : str → str) (place_url : option str)
    (max_reviews : Z) (s : State) (e : exn) :
  (crawl_reviews driver unescape place_url max_reviews s).1 = Raise e →
  is_Exception e = false.
Proof.
  destruct place_url as [[|c url]|]; try done.
  destruct (crawl_reviews_present driver unescape max_reviews (c :: url) s ltac:(done))
    as (r & s3 & s4 & -> & Htry & _).
  cbn [fst]. intros ->. rewrite crawl_try_run in Htry. cbv zeta in Htry.
  destruct (get driver (c :: url)) as [[]|e1];
    [|destruct (is_Exception e1) eqn:E; [done | by injection Htry as <- _]].
  destruct (until_frame_available driver By_ID (lit "entryIframe")) as [[]|e2];
    [|destruct (is_Exception e2) eqn:E; [done | by injection Htry as <- _]].
  destruct (extract driver unescape max_reviews _) as [[xs|e3] s3']; [done|].
  destruct (is_Exception e3) eqn:E; [done | by injection Htry as <- _].
Qed.

(** X9. When loading the place page fails with an [Exception],
    [crawl_reviews] answers the empty list; it neither waits for the frame
    nor queries anything, and it still resets the scope. *)
Theorem crawl_load_failure_gives_empty
    (driver : Driver) (unescape : str → str) (url : str) (max_reviews : Z)
    (s : State) (e : exn) :
  url ≠ [] →
  get driver url = Raise e →
  is_Exception e = true →
  (crawl_reviews driver unescape (Some url) max_reviews s).1 = Ok [] ∧
  calls (crawl_reviews driver unescape (Some url) max_reviews s).2
  = [CallDefaultContent; CallGet url] ++ calls s.
Proof.
  intros Hurl Hget He.
  destruct (crawl_reviews_present driver unescape max_reviews url s Hurl)
    as (r & s3 & s4 & -> & Htry & Hcalls).
  rewrite crawl_try_run in Htry. cbv zeta in Htry. rewrite Hget, He in Htry.
  injection Htry as <- <-. cbn [fst snd]. by rewrite Hcalls.
Qed.

(** X10. Every snippet [crawl_reviews] returns has more than ten
    characters, whichever tier found it. *)
Theorem crawl_reviews_snippets_long
    (driver : Driver) (unescape : str → str) (place_url : option str)
    (max_reviews : Z) (s : State) (rs : list str) :
  (crawl_reviews driver unescape place_url max_reviews s).1 = Ok rs →
  Forall (λ r, 10 < len r) rs.
Proof.
  intros Hrs.
  destruct (crawl_reviews_collected _ _ _ _ _ _ Hrs) as (R & -> & _ & Hgood).
  rewrite normalize_shape. apply Forall_take.
  apply Forall_forall. intros x Hx%first_seen_subset.
  rewrite Forall_forall in Hgood. by apply Hgood.
Qed.

(** X11. For every integer [max_reviews], also zero and negative ones, the
    list returned has at most [max(0, max_reviews)] elements: with
    [max_reviews <= 0] it is empty, although the tiers collect one snippet
    before they stop. *)
Theorem crawl_reviews_bounded_for_all_max
    (driver : Driver) (unescape : str → str) (place_url : option str)
    (max_reviews : Z) (s : State) (rs : list str) :
  (crawl_reviews driver unescape place_url max_reviews s).1 = Ok rs →
  Z.of_nat (length rs) ≤ Z.max 0 max_reviews ∧ (max_reviews ≤ 0 → rs = []).
Proof.
  intros Hrs.
  destruct (crawl_reviews_collected _ _ _ _ _ _ Hrs) as (R & -> & Hlen & _).
  assert (Z.of_nat (length (normalize R max_reviews)) ≤ Z.max 0 max_reviews) as Hb.
  { rewrite normalize_shape, length_take.
    pose proof (first_seen_length R). destruct (Z.ltb_spec max_reviews 0); lia. }
  split; [done|]. intros Hmax.
  destruct (normalize R max_reviews); [done|]. simpl length in Hb. lia.
Qed.

(** X12. With a place URL, [crawl_reviews] executes the scope reset exactly
    once per call. *)
Theorem crawl_reviews_resets_once
    (driver : Driver) (unescape : str → str) (url : str) (max_reviews : Z)
    (s : State) :
  url ≠ [] →
  count_calls is_reset (crawl_reviews driver unescape (Some url) max_reviews s).2
  = S (count_calls is_reset s).
Proof.
  intros Hurl.
  destruct (crawl_reviews_present driver unescape max_reviews url s Hurl)
    as (r & s3 & s4 & -> & Htry & Hcalls).
  destruct (crawl_try_adds driver unescape max_reviews (λ c, is_reset c = false) url
              (set_reviews [] s) eq_refl eq_refl eq_refl) as (cs & Hcs & HP).
  { intros s2 _. eapply adds_weaken; [|apply extract_adds]. by intros []. }
  rewrite Htry in Hcs. cbn [fst snd] in *.
  rewrite (count_calls_app is_reset (CallDefaultContent :: cs) s s4)
    by (by rewrite Hcalls, Hcs).
  rewrite filter_cons_True by done. simpl length. by rewrite filter_none.
Qed.

(** ** When the lower tiers are tried *)

Section LowerTiers.

Variables (driver : Driver) (unescape : str → str) (max_reviews : Z).

Lemma extract_run (s : State) :
  extract driver unescape max_reviews s
  = match tier1 driver max_reviews s with
    | (Ok _, s1) =>
        match if_no_reviews (tier2 driver unescape max_reviews) s1 with
        | (Ok _, s2) =>
            match if_no_reviews (tier3 driver max_reviews) s2 with
            | (Ok _, s3) => (Ok (normalize (reviews s3) max_reviews), s3)
            | (Raise e, s3) => (Raise e, s3)
            end
        | (Raise e, s2) => (Raise e, s2)
        end
    | (Raise e, s1) => (Raise e, s1)
    end.
Proof.
  unfold extract, bind, get_reviews, ret.
  destruct (tier1 driver max_reviews s) as [[[]|e] s1]; [|done].
  destruct (if_no_reviews (tier2 driver unescape max_reviews) s1) as [[[]|e] s2]; [|done].
  by destruct (if_no_reviews (tier3 driver max_reviews) s2) as [[[]|e] s3].
Qed.

Lemma tier1_never_fails (s : State) : (tier1 driver max_reviews s).1 = Ok tt.
Proof.
  unfold tier1. generalize review_selectors. intros sels. revert s.
  induction sels as [|sel sels IH]; intros s; [done|].
  rewrite for_each_cons, tier1_selector_run. cbn zeta.
  destruct (find_elements driver By_CSS_SELECTOR sel) as [[|el els]|e]; try apply IH.
  destruct (for_each (el :: els) (tier1_element max_reviews) _) as [[[]|e] s2];
    [|apply IH].
  case_bool_decide; [done | apply IH].
Qed.

Lemma oblivious_tier2 : oblivious (tier2 driver unescape max_reviews).
Proof.
  unfold tier2. apply oblivious_try_except; [|apply oblivious_ret].
  apply oblivious_bind; [apply oblivious_call|].
  intros a_tags. apply oblivious_for_each. intros a. unfold tier2_element.
  apply oblivious_try_except; [|apply oblivious_ret].
  apply oblivious_bind; [apply oblivious_call|].
  intros [h|]; [|apply oblivious_raise].
  match goal with |- context [tier2_accept ?t] => destruct (tier2_accept t) end;
    [apply oblivious_append_and_check | apply oblivious_ret].
Qed.

Lemma tier2_from_nothing (s : State) :
  reviews s = [] →
  (tier2 driver unescape max_reviews s).1 = (tier2 driver unescape max_reviews blank).1 ∧
  reviews (tier2 driver unescape max_reviews s).2 = tier2_yield driver unescape max_reviews.
Proof. intros Hs. by apply oblivious_tier2. Qed.

(** Tier 2 issues its query exactly once, Tier 3 likewise. *)
Lemma tier2_queries_once (s : State) :
  count_calls is_tier2_query (tier2 driver unescape max_reviews s).2
  = S (count_calls is_tier2_query s).
Proof.
  rewrite tier2_run. cbn zeta.
  pose proof (count_calls_add is_tier2_query
                (CallFindElements By_CSS_SELECTOR review_list_selector) s
                ltac:(by vm_compute)) as E.
  set (s1 := add_call (CallFindElements By_CSS_SELECTOR review_list_selector) s) in *.
  destruct (find_elements driver By_CSS_SELECTOR review_list_selector) as [a_tags|e];
    [|by destruct (is_Exception e)].
  assert (adds (λ c, is_tier2_query c = false)
               (for_each a_tags (tier2_element unescape max_reviews)) s1) as Hm.
  { apply adds_for_each. intros a s' _.
    unfold tier2_element, element_get_attribute.
    apply adds_try_except; [|intros; apply adds_ret].
    apply adds_bind; [by apply adds_call|].
    intros [h|] _; [|apply adds_raise].
    match goal with |- context [tier2_accept ?t] => destruct (tier2_accept t) end;
      [apply append_and_check_adds | apply adds_ret]. }
  apply adds_count in Hm.
  destruct (for_each a_tags (tier2_element unescape max_reviews) s1) as [[[]|e] s2];
    [|destruct (is_Exception e)]; cbn [fst snd] in *; congruence.
Qed.

Lemma tier3_queries_once (s : State) :
  count_calls is_tier3_query (tier3 driver max_reviews s).2
  = S (count_calls is_tier3_query s).
Proof.
  rewrite tier3_run. cbn zeta.
  pose proof (count_calls_add is_tier3_query
                (CallFindElements By_XPATH all_text_xpath) s ltac:(by vm_compute)) as E.
  set (s1 := add_call (CallFindElements By_XPATH all_text_xpath) s) in *.
  destruct (find_elements driver By_XPATH all_text_xpath) as [all_texts|e]; [|done].
  assert (adds (λ c, is_tier3_query c = false)
               (for_each all_texts (tier3_element max_reviews)) s1) as Hm.
  { apply adds_for_each. intros x s' _.
    unfold tier3_element, element_text.
    apply adds_try_except; [|intros; apply adds_ret].
    apply adds_bind; [by apply adds_call|].
    intros t _. destruct (tier3_accept (strip t));
      [apply append_and_check_adds | apply adds_ret]. }
  apply adds_count in Hm. cbn [snd]. congruence.
Qed.

Lemma tier1_keeps_lower_counts (s : State) :
  count_calls is_tier2_query (tier1 driver max_reviews s).2 = count_calls is_tier2_query s ∧
  count_calls is_tier3_query (tier1 driver max_reviews s).2 = count_calls is_tier3_query s.
Proof.
  pose proof (tier1_adds driver max_reviews s) as Hadds.
  apply (adds_weaken _ _ _ _ tier1_call_not_lower_tier) in Hadds.
  split; apply adds_count; (eapply adds_weaken; [|exact Hadds]); by intros c [? ?].
Qed.

Lemma tier2_keeps_tier3_count (s : State) :
  count_calls is_tier3_query (tier2 driver unescape max_reviews s).2
  = count_calls is_tier3_query s.
Proof.
  apply adds_count. eapply adds_weaken; [|apply tier2_adds]. by intros c [->| ->].
Qed.

Lemma tier3_keeps_tier2_count (s : State) :
  count_calls is_tier2_query (tier3 driver max_reviews s).2
  = count_calls is_tier2_query s.
Proof.
  apply adds_count. eapply adds_weaken; [|apply tier3_adds]. by intros c [->| ->].
Qed.

Lemma if_no_reviews_keeps_count (p : Call → bool) (m : M unit) (s : State) :
  count_calls p (m s).2 = count_calls p s →
  count_calls p (if_no_reviews m s).2 = count_calls p s.
Proof.
  intros H. destruct (reviews s) eqn:E.
  - by rewrite if_no_reviews_run.
  - by rewrite if_no_reviews_skip by (by rewrite E).
Qed.

(** When Tier 1 collects nothing, [extract] issues the Tier 2 query exactly
    once. *)
Lemma extract_tier2_once (s : State) :
  reviews s = [] →
  tier1_yield driver max_reviews = [] →
  count_calls is_tier2_query (extract driver unescape max_reviews s).2
  = S (count_calls is_tier2_query s).
Proof.
  intros Hs Hyield. rewrite extract_run.
  pose proof (tier1_never_fails s) as Hok.
  pose proof (tier1_reviews driver max_reviews s Hs) as Hrs. rewrite Hyield in Hrs.
  destruct (tier1_keeps_lower_counts s) as [Hc _].
  destruct (tier1 driver max_reviews s) as [[[]|e] s1]; [|done]. cbn [fst snd] in *.
  rewrite if_no_reviews_run by done.
  pose proof (tier2_queries_once s1) as H2.
  destruct (tier2 driver unescape max_reviews s1) as [[[]|e] s2]; cbn [fst snd] in *;
    [|congruence].
  pose proof (if_no_reviews_keeps_count is_tier2_query (tier3 driver max_reviews) s2
                (tier3_keeps_tier2_count s2)) as H3.
  destruct (if_no_reviews (tier3 driver max_reviews) s2) as [[[]|e] s3];
    cbn [fst snd] in *; congruence.
Qed.

(** When Tier 2 would collect something, [extract] never issues the Tier 3
    query. *)
Lemma extract_after_tier2 (s : State) :
  reviews s = [] →
  tier2_yield driver unescape max_reviews ≠ [] →
  adds (λ c, is_tier3_query c = false) (extract driver unescape max_reviews) s.
Proof.
  intros Hs Hyield. unfold extract. apply adds_bind.
  { eapply adds_weaken; [|apply tier1_adds].
    intros c Hc. by apply tier1_call_not_lower_tier. }
  intros ? _. set (s1 := (tier1 driver max_reviews s).2). apply adds_bind.
  { apply if_no_reviews_adds. eapply adds_weaken; [|apply tier2_adds].
    by intros c [->| ->]. }
  intros ? _.
  assert (reviews (if_no_reviews (tier2 driver unescape max_reviews) s1).2 ≠ []) as Hne.
  { destruct (reviews s1) eqn:E.
    - rewrite if_no_reviews_run by done.
      by rewrite (proj2 (tier2_from_nothing s1 E)).
    - rewrite if_no_reviews_skip by (by rewrite E). cbn [snd]. by rewrite E. }
  apply adds_bind.
  { apply adds_nothing. by rewrite if_no_reviews_skip. }
  intros _ _. apply adds_bind; [by apply adds_nothing|]. intros rs _. apply adds_ret.
Qed.

(** When Tiers 1 and 2 collect nothing and Tier 2 comes to its end,
    [extract] issues the Tier 3 query exactly once. *)
Lemma extract_tier3_once (s : State) :
  reviews s = [] →
  tier1_yield driver max_reviews = [] →
  (tier2 driver unescape max_reviews blank).1 = Ok tt →
  tier2_yield driver unescape max_reviews = [] →
  count_calls is_tier3_query (extract driver unescape max_reviews s).2
  = S (count_calls is_tier3_query s).
Proof.
  intros Hs Hy1 Hok2 Hy2. rewrite extract_run.
  pose proof (tier1_never_fails s) as Hok.
  pose proof (tier1_reviews driver max_reviews s Hs) as Hrs. rewrite Hy1 in Hrs.
  destruct (tier1_keeps_lower_counts s) as [_ Hc].
  destruct (tier1 driver max_reviews s) as [[[]|e] s1]; [|done]. cbn [fst snd] in *.
  rewrite if_no_reviews_run by done.
  destruct (tier2_from_nothing s1 Hrs) as [Hr2 Hrs2].
  rewrite Hok2 in Hr2. rewrite Hy2 in Hrs2.
  pose proof (tier2_keeps_tier3_count s1) as Hc2.
  destruct (tier2 driver unescape max_reviews s1) as [[[]|e] s2]; [|done].
  cbn [fst snd] in *. rewrite if_no_reviews_run by done.
  pose proof (tier3_queries_once s2) as H3.
  rewrite tier3_run in *. cbv zeta in *.
  destruct (find_elements driver By_XPATH all_text_xpath); cbn [fst snd] in *; congruence.
Qed.

End LowerTiers.

Lemma frame_entered_count (p : Call → bool) (url : str) (s : State) :
  p (CallGet url) = false →
  p (CallFrameWait By_ID (lit "entryIframe")) = false →
  count_calls p (frame_entered url s) = count_calls p s.
Proof.
  intros Hg Hw.
  rewrite (count_calls_app p
             [CallFrameWait By_ID (lit "entryIframe"); CallGet url] s) by done.
  rewrite filter_none; [done|]. by repeat constructor.
Qed.

Lemma reset_count (p : Call → bool) (s3 s4 : State) :
  p CallDefaultContent = false →
  calls s4 = CallDefaultContent :: calls s3 →
  count_calls p s4 = count_calls p s3.
Proof.
  intros Hp Hc. rewrite (count_calls_app p [CallDefaultContent] s3) by done.
  rewrite filter_none; [done|]. by repeat constructor.
Qed.

(** X13. When the frame is entered and Tier 1 yields nothing, the Tier 2
    query (the review-list pattern) is issued exactly once during the
    run. *)
Theorem tier2_tried_once_after_empty_tier1
    (driver : Driver) (unescape : str → str) (url : str) (max_reviews : Z)
    (s : State) :
  url ≠ [] →
  get driver url = Ok tt →
  until_frame_available driver By_ID (lit "entryIframe") = Ok tt →
  tier1_yield driver max_reviews = [] →
  count_calls is_tier2_query
    (crawl_reviews driver unescape (Some url) max_reviews s).2
  = S (count_calls is_tier2_query s).
Proof.
  intros Hurl Hget Hwait Hyield.
  destruct (crawl_reviews_entered driver unescape max_reviews url s Hurl Hget Hwait)
    as (r & s3 & s4 & Hex & -> & Hcalls).
  cbn [snd]. rewrite (reset_count _ s3 s4 eq_refl Hcalls).
  pose proof (extract_tier2_once driver unescape max_reviews (frame_entered url s)
                eq_refl Hyield) as H.
  rewrite Hex in H. cbn [snd] in H. rewrite H.
  by rewrite frame_entered_count.
Qed.

(** X14. When Tier 2 yields at least one accepted snippet, the Tier 3
    query (the full-page text scan) is never issued. *)
Theorem tier2_success_skips_tier3
    (driver : Driver) (unescape : str → str) (place_url : option str)
    (max_reviews : Z) (s : State) :
  tier2_yield driver unescape max_reviews ≠ [] →
  count_calls is_tier3_query
    (crawl_reviews driver unescape place_url max_reviews s).2
  = count_calls is_tier3_query s.
Proof.
  intros Hyield. apply adds_count. apply crawl_reviews_adds. intros url.
  apply crawl_body_adds; try done.
  intros s2 Hs2. by apply extract_after_tier2.
Qed.

(** X15. When the frame is entered, Tiers 1 and 2 yield nothing and Tier 2
    comes to its end, the Tier 3 query is issued exactly once. *)
Theorem tier3_tried_once_after_empty_tiers
    (driver : Driver) (unescape : str → str) (url : str) (max_reviews : Z)
    (s : State) :
  url ≠ [] →
  get driver url = Ok tt →
  until_frame_available driver By_ID (lit "entryIframe") = Ok tt →
  tier1_yield driver max_reviews = [] →
  (tier2 driver unescape max_reviews blank).1 = Ok tt →
  tier2_yield driver unescape max_reviews = [] →
  count_calls is_tier3_query
    (crawl_reviews driver unescape (Some url) max_reviews s).2
  = S (count_calls is_tier3_query s).
Proof.
  intros Hurl Hget Hwait Hy1 Hok2 Hy2.
  destruct (crawl_reviews_entered driver unescape max_reviews url s Hurl Hget Hwait)
    as (r & s3 & s4 & Hex & -> & Hcalls).
  cbn [snd]. rewrite (reset_count _ s3 s4 eq_refl Hcalls).
  pose proof (extract_tier3_once driver unescape max_reviews (frame_entered url s)
                eq_refl Hy1 Hok2 Hy2) as H.
  rewrite Hex in H. cbn [snd] in H. rewrite H.
  by rewrite frame_entered_count.
Qed.

Section Tier1Result.
Variable driver : Driver.
Variable unescape : str → str.
Variable max_reviews : Z.

(** On readable nodes, and while fewer than [max_reviews] snippets have been
    collected, the node loop of Tier 1 appends the accepted texts in page
    order and stops once [max_reviews] snippets have been collected. *)
Lemma tier1_elements_take (els : list WebElement) (s : State) :
  Forall readable els →
  Z.of_nat (length (reviews s)) < max_reviews →
  (for_each els (tier1_element max_reviews) s).1 = Ok tt ∧
  reviews (for_each els (tier1_element max_reviews) s).2
  = reviews s ++ take (Z.to_nat max_reviews - length (reviews s)) (tier1_texts els).
Proof.
  intros H. revert s. induction H as [|el els [t Ht] _ IH]; intros s Hlt.
  - split; [done|]. change (tier1_texts []) with (@nil str).
    rewrite take_nil, app_nil_r. done.
  - rewrite for_each_cons, tier1_element_run, Ht.
    change (tier1_texts (el :: els))
      with (match tier1_text el with
            | Some y => y :: tier1_texts els
            | None => tier1_texts els
            end).
    unfold tier1_text. rewrite Ht.
    destruct (tier1_accept (strip t)).
    + destruct (Z.leb_spec max_reviews (Z.of_nat (length (reviews s ++ [strip t]))))
        as [Hfull|Hroom].
      * split; [done|]. cbn [snd reviews set_reviews].
        rewrite length_app in Hfull. cbn [length] in Hfull.
        replace (Z.to_nat max_reviews - length (reviews s))%nat with 1%nat by lia.
        done.
      * destruct (IH (set_reviews (reviews s ++ [strip t]) (add_call CallText s)) Hroom)
          as [Hr Hrs].
        split; [done|]. rewrite Hrs. cbn [reviews set_reviews].
        rewrite length_app in *. cbn [length] in *.
        replace (Z.to_nat max_reviews - length (reviews s))%nat
          with (S (Z.to_nat max_reviews - (length (reviews s) + 1)))%nat by lia.
        by rewrite <- app_assoc.
    + destruct (IH (add_call CallText s) Hlt) as [Hr Hrs]. by split.
Qed.

(** What Tier 1 collects when the first pattern that contributes is known:
    the first [max_reviews] accepted texts of that pattern's nodes. *)
Lemma tier1_yield_first_match (pre post : list str) (sel : str) (els : list WebElement) :
  1 ≤ max_reviews →
  review_selectors = pre ++ sel :: post →
  Forall (yields_nothing driver) pre →
  find_elements driver By_CSS_SELECTOR sel = Ok els →
  Forall readable els →
  tier1_texts els ≠ [] →
  tier1_yield driver max_reviews = take (Z.to_nat max_reviews) (tier1_texts els).
Proof.
  intros Hmax Hsel Hpre Hfind Hread Htexts. unfold tier1_yield, tier1. rewrite Hsel.
  destruct (tier1_passes_over driver max_reviews pre (sel :: post) blank Hpre eq_refl)
    as (s' & cs & -> & Hrs & _).
  rewrite for_each_cons, tier1_selector_run. cbn zeta. rewrite Hfind.
  destruct els as [|el els]; [done|].
  assert (Z.of_nat (length (reviews
            (add_call (CallFindElements By_CSS_SELECTOR sel) s'))) < max_reviews) as Hlt.
  { cbn [reviews add_call]. rewrite Hrs. cbn [length]. lia. }
  destruct (tier1_elements_take (el :: els) _ Hread Hlt) as [Hr Hrs2].
  destruct (for_each (el :: els) (tier1_element max_reviews) _) as [[[]|e] s2];
    cbn [fst snd] in *; [|done].
  cbn [reviews add_call] in Hrs2. rewrite Hrs in Hrs2.
  cbn [app length] in Hrs2. rewrite Nat.sub_0_r in Hrs2.
  rewrite bool_decide_eq_true_2; [done|].
  rewrite Hrs2. destruct (tier1_texts (el :: els)) as [|x xs]; [done|].
  destruct (Z.to_nat max_reviews) eqn:E; [lia | done].
Qed.

End Tier1Result.

(** X16. With the place page loaded and its frame entered, if the patterns
    before [sel] contribute nothing and the nodes of [sel] are readable with at
    least one accepted text, the run returns the first [max_reviews]
    accepted texts of those nodes (trimmed, in page order), duplicates
    dropped. *)
Theorem tier1_result_is_first_matching_pattern
    (driver : Driver) (unescape : str → str) (url : str) (max_reviews : Z)
    (pre post : list str) (sel : str) (els : list WebElement) (s : State) :
  url ≠ [] →
  get driver url = Ok tt →
  until_frame_available driver By_ID (lit "entryIframe") = Ok tt →
  1 ≤ max_reviews →
  review_selectors = pre ++ sel :: post →
  Forall (yields_nothing driver) pre →
  find_elements driver By_CSS_SELECTOR sel = Ok els →
  Forall readable els →
  tier1_texts els ≠ [] →
  (crawl_reviews driver unescape (Some url) max_reviews s).1
  = Ok (first_seen (take (Z.to_nat max_reviews) (tier1_texts els))).
Proof.
  intros Hurl Hget Hwait Hmax Hsel Hpre Hfind Hread Htexts.
  pose proof (tier1_yield_first_match driver max_reviews pre post sel els
                Hmax Hsel Hpre Hfind Hread Htexts) as Hyield.
  destruct (crawl_reviews_entered driver unescape max_reviews url s Hurl Hget Hwait)
    as (r & s3 & s4 & Hex & -> & _).
  cbn [fst]. rewrite extract_run in Hex.
  pose proof (tier1_never_fails driver max_reviews (frame_entered url s)) as Hok.
  pose proof (tier1_reviews driver max_reviews (frame_entered url s) eq_refl) as Hrs.
  rewrite Hyield in Hrs.
  assert (take (Z.to_nat max_reviews) (tier1_texts els) ≠ []) as Hne.
  { destruct (tier1_texts els) as [|x xs]; [done|].
    destruct (Z.to_nat max_reviews) eqn:E; [lia | done]. }
  destruct (tier1 driver max_reviews (frame_entered url s)) as [[[]|e] s1];
    cbn [fst snd] in *; [|done].
  rewrite !if_no_reviews_skip in Hex by (by rewrite Hrs).
  injection Hex as <- _. rewrite Hrs, normalize_first_seen by lia.
  f_equal. apply take_ge.
  etrans; [apply first_seen_length|]. rewrite length_take. lia.
Qed.

(** ** The analysis of the reviews *)

(** X17. [analyze_reviews_and_recommend] raises only what the model raised
    outside the class [Exception], and only when it was given reviews. *)
Theorem analysis_swallows_exceptions
    (generate_content : str → outcome str) (destination : str)
    (reviews : list str) (e : exn) :
  analyze_reviews_and_recommend generate_content destination reviews = Raise e →
  is_Exception e = false ∧
  reviews ≠ [] ∧
  generate_content (analysis_prompt destination reviews) = Raise e.
Proof.
  destruct reviews as [|r rs]; [done|]. cbn [analyze_reviews_and_recommend].
  destruct (generate_content _) as [t|e']; [done|].
  destruct (is_Exception e') eqn:E; [done|]. by intros [= <-].
Qed.

(** X18. In the prompt of the analysis every review stands on a line of
    its own, after a dash and a blank and in the order received, as long
    as no review contains a line break. *)
Theorem reviews_text_lines (reviews : list str) :
  reviews ≠ [] →
  Forall (λ review, newline ∉ review) reviews →
  split newline (reviews_text reviews) = map (λ review, lit "- " ++ review) reviews.
Proof.
  intros Hne Hlines. unfold reviews_text. apply split_join.
  - by destruct reviews.
  - apply Forall_map. eapply Forall_impl; [exact Hlines|].
    intros review Hr. cbn [app lit]. intros Hin.
    change (lit "- ") with [45%N; 32%N] in Hin. cbn [app] in Hin.
    apply elem_of_cons in Hin as [Hin|Hin]; [done|].
    apply elem_of_cons in Hin as [Hin|Hin]; [done|]. by apply Hr.
Qed.

(** ** The methods as the main loop sees them *)

Lemma count_calls_skip (p : Call → bool) (c : Call) (s : State) :
  p c = false → count_calls p (add_call c s) = count_calls p s.
Proof.
  intros Hc. unfold count_calls. cbn [calls add_call].
  rewrite filter_cons_False; [done | by rewrite Hc].
Qed.

Section Methods.
Variable driver : Driver.
Variable quote : str → str.
Variable unescape : str → str.

Lemma try_place_selector_quiet (selector : str) (s : State) :
  adds (λ c, is_load c = false) (try_place_selector driver selector) s ∧
  scope (try_place_selector driver selector s).2 = scope s.
Proof.
  unfold adds. rewrite try_place_selector_run. cbn zeta.
  destruct (find_elements driver By_CSS_SELECTOR selector) as [[|first els]|e];
    try (split; [|done];
         exists [CallFindElements By_CSS_SELECTOR selector];
         split; [done | by repeat constructor]).
  destruct (get_attribute first (lit "href")) as [[u|]|e];
    (split; [|done]);
    exists [CallGetAttribute (lit "href"); CallFindElements By_CSS_SELECTOR selector];
    (split; [done | by repeat constructor]).
Qed.

Lemma resolver_loop_scope (selectors : list str) (s : State) :
  scope (for_return selectors (try_place_selector driver) s).2 = scope s.
Proof.
  revert s. induction selectors as [|sel sels IH]; intros s; [done|].
  rewrite for_return_cons.
  destruct (try_place_selector_quiet sel s) as [_ Hsc].
  destruct (try_place_selector driver sel s) as [[[u|]|e] s1]; cbn [snd] in *;
    [done| |done].
  by rewrite IH.
Qed.

(** [search_naver_place] loads one page, leaves the scope as it was, raises
    nothing of the class [Exception] and never answers an empty URL. *)
Lemma search_naver_place_session (destination region : str) (s : State) :
  count_calls is_load (search_naver_place driver quote destination region s).2
  = S (count_calls is_load s) ∧
  scope (search_naver_place driver quote destination region s).2 = scope s ∧
  match (search_naver_place driver quote destination region s).1 with
  | Ok (Some url) => url ≠ []
  | Ok None => True
  | Raise e => is_Exception e = false
  end.
Proof.
  pose proof (search_naver_place_cases driver quote destination region s) as Hc.
  cbn zeta in Hc.
  destruct (get driver (search_url quote destination region)) as [[]|e];
    [destruct (sleep driver 2) as [[]|e]|]; rewrite Hc.
  - set (s1 := add_call (CallGet (search_url quote destination region)) s).
    split; [|split].
    + rewrite adds_count.
      * by apply count_calls_add.
      * apply adds_for_return. intros sel s' _. apply try_place_selector_quiet.
    + by rewrite resolver_loop_scope.
    + destruct (resolver_loop_answer driver place_selectors s1) as (r & -> & Hurl).
      destruct r as [url|]; [|done].
      destruct (Hurl url eq_refl) as (sel & first & others & href & _ & _ & _ & ->).
      destruct (force_review_tab_occurs href) as (a & b & ->). intros Hnil.
      apply app_eq_nil in Hnil as [_ Hnil]. by apply app_eq_nil in Hnil as [Hnil _].
  - cbn [fst snd]. split; [by apply count_calls_add|]. split; [done|].
    by destruct (is_Exception e) eqn:E.
  - cbn [fst snd]. split; [by apply count_calls_add|]. split; [done|].
    by destruct (is_Exception e) eqn:E.
Qed.

(** [crawl_reviews] on a URL loads one page, ends at the top level when the
    reset succeeds and raises nothing of the class [Exception]. *)
Lemma crawl_reviews_session (url : str) (max_reviews : Z) (s : State) :
  url ≠ [] →
  count_calls is_load (crawl_reviews driver unescape (Some url) max_reviews s).2
  = S (count_calls is_load s) ∧
  (default_content driver = Ok tt →
   scope (crawl_reviews driver unescape (Some url) max_reviews s).2 = TopLevel) ∧
  match (crawl_reviews driver unescape (Some url) max_reviews s).1 with
  | Ok _ => True
  | Raise e => is_Exception e = false
  end.
Proof.
  intros Hurl. destruct url as [|c url]; [done|]. cbn [crawl_reviews].
  destruct (crawl_body_run driver unescape max_reviews (c :: url) s)
    as (r & s3 & s4 & Htry & -> & Hcalls & Hscope).
  cbn [fst snd].
  change (count_calls is_load (set_reviews (reviews s) s4))
    with (count_calls is_load s4).
  rewrite (reset_count is_load s3 s4 eq_refl Hcalls).
  split; [|split; [done|]]; rewrite crawl_try_run in Htry; cbv zeta in Htry.
  - assert (∀ s0, count_calls is_load (add_call (CallGet (c :: url)) (set_reviews [] s0))
                  = S (count_calls is_load s0)) as Hget by done.
    destruct (get driver (c :: url)) as [[]|e1];
      [|injection Htry as _ <-; apply Hget].
    destruct (until_frame_available driver By_ID (lit "entryIframe")) as [[]|e2];
      [|injection Htry as _ <-; rewrite count_calls_skip by done; apply Hget].
    assert (adds (λ c, is_load c = false) (extract driver unescape max_reviews)
              (frame_entered (c :: url) s)) as Hex.
    { eapply adds_weaken; [|apply extract_adds]. by intros []. }
    apply adds_count in Hex. fold (frame_entered (c :: url) s) in Htry.
    destruct (extract driver unescape max_reviews (frame_entered (c :: url) s))
      as [[xs|e3] s3']; injection Htry as _ <-; cbn [snd] in Hex; rewrite Hex;
      unfold frame_entered;
      change (count_calls is_load (set_scope ?sc ?x)) with (count_calls is_load x);
      rewrite count_calls_skip by done; apply Hget.
  - destruct (get driver (c :: url)) as [[]|e1];
      [|injection Htry as <- _; by destruct (is_Exception e1) eqn:E].
    destruct (until_frame_available driver By_ID (lit "entryIframe")) as [[]|e2];
      [|injection Htry as <- _; by destruct (is_Exception e2) eqn:E].
    destruct (extract driver unescape max_reviews _) as [[xs|e3] s3'];
      injection Htry as <- _; [done|]. by destruct (is_Exception e3) eqn:E.
Qed.

End Methods.

(** ** The main loop *)

Lemma io_for_print {A} (line : A → str) (xs : list A) (w : Console) :
  io_for xs (λ x, print (line x)) w
  = (Ok tt, {| session := session w; printed := rev (map line xs) ++ printed w |}).
Proof.
  revert w. induction xs as [|x xs IH]; intros w; [by destruct w|].
  cbn [io_for]. unfold io_bind. cbn [print]. rewrite IH.
  cbn [session printed map rev]. by rewrite <- app_assoc.
Qed.

Lemma io_for_loads {A} (xs : list A) (body : A → IO unit) (k : nat) (w : Console) :
  (∀ x w0, x ∈ xs → (loads (body x w0).2 ≤ loads w0 + k)%nat) →
  (loads (io_for xs body w).2 ≤ loads w + k * length xs)%nat.
Proof.
  revert w. induction xs as [|x xs IH]; intros w Hb; [cbn; lia|].
  cbn [io_for length]. unfold io_bind.
  pose proof (Hb x w ltac:(by apply elem_of_cons; left)) as Hx.
  destruct (body x w) as [[[]|e] w1]; cbn [snd] in *; [|lia].
  specialize (IH w1 ltac:(by intros y w0 Hy; apply Hb, elem_of_cons; right)). lia.
Qed.

Lemma io_for_keeps {A} (I : Console → Prop) (xs : list A) (body : A → IO unit)
    (w : Console) :
  (∀ x w0, x ∈ xs → I w0 → I (body x w0).2) →
  I w → I (io_for xs body w).2.
Proof.
  revert w. induction xs as [|x xs IH]; intros w Hb Hw; [done|].
  cbn [io_for]. unfold io_bind.
  pose proof (Hb x w ltac:(by apply elem_of_cons; left) Hw) as Hx.
  destruct (body x w) as [[[]|e] w1]; cbn [snd] in *; [|done].
  apply IH; [|done]. intros y w0 Hy. by apply Hb, elem_of_cons; right.
Qed.

Lemma io_for_raises {A} (Q : exn → Prop) (xs : list A) (body : A → IO unit)
    (w : Console) (e : exn) :
  (∀ x w0 e0, x ∈ xs → (body x w0).1 = Raise e0 → Q e0) →
  (io_for xs body w).1 = Raise e → Q e.
Proof.
  revert w. induction xs as [|x xs IH]; intros w Hb; [done|].
  cbn [io_for]. unfold io_bind.
  pose proof (Hb x w) as Hx.
  destruct (body x w) as [[[]|e1] w1]; cbn [fst] in *.
  - apply IH. intros y w0 e0 Hy. by apply Hb, elem_of_cons; right.
  - intros [= <-]. by apply Hx; [apply elem_of_cons; left|].
Qed.

Lemma enumerate_length {A} (xs : list A) (start : nat) :
  length (enumerate xs start) = length xs.
Proof.
  revert start. induction xs as [|x xs IH]; intros start; [done|].
  cbn [enumerate length]. by rewrite IH.
Qed.

Lemma get_travel_destinations_length
    (generate_content : str → outcome str) (region : str) (names : list str) :
  get_travel_destinations generate_content region = Ok names →
  (length names ≤ 5)%nat.
Proof.
  unfold get_travel_destinations.
  destruct (generate_content (prompt region)) as [reply|e].
  - intros [= <-]. unfold slice_to. simpl. rewrite length_take. lia.
  - destruct (is_Exception e); [|done]. intros [= <-].
    rewrite default_destinations_lookup. by repeat case_decide.
Qed.

Section LoopRuns.
Variable quote : str → str.
Variable unescape : str → str.

(** The outcome and the session after one destination, in terms of the
    three methods it calls. *)
Lemma run_agent_loop_destination_run
    (v : Visit) (region : str) (i : nat) (destination : str) (w : Console) :
  ∃ lines,
    run_agent_loop_destination quote unescape v region (i, destination) w
    = match search_naver_place (results v) quote destination region (session w) with
      | (Ok (Some (c :: u)), s1) =>
          match crawl_reviews (place_page v) unescape (Some (c :: u)) 10 s1 with
          | (Ok (r :: rs), s2) =>
              (match analyze_reviews_and_recommend (summary v) destination (r :: rs) with
               | Ok _ => Ok tt
               | Raise e => Raise e
               end, {| session := s2; printed := lines |})
          | (Ok [], s2) => (Ok tt, {| session := s2; printed := lines |})
          | (Raise e, s2) => (Raise e, {| session := s2; printed := lines |})
          end
      | (Ok _, s1) => (Ok tt, {| session := s1; printed := lines |})
      | (Raise e, s1) => (Raise e, {| session := s1; printed := lines |})
      end.
Proof.
  unfold run_agent_loop_destination, io_bind, browse, place_not_found.
  cbn [print fst snd session printed].
  destruct (search_naver_place _ _ _ _ _) as [[[[|c u]|]|e] s1];
    try (by (unfold print; eexists)).
  cbn [print fst snd session printed].
  destruct (crawl_reviews _ _ _ _ _) as [[[|r rs]|e] s2];
    try (by (unfold print; eexists)).
  cbn beta iota. rewrite io_for_print. unfold consult.
  destruct (analyze_reviews_and_recommend _ _ _) as [t|e];
    by (unfold print; eexists).
Qed.

(** One destination costs one or two page loads, raises nothing of the
    class [Exception], and leaves the browser at the top level when it found
    it there and the reset after the crawl succeeds. *)
Lemma run_agent_loop_destination_session
    (v : Visit) (region : str) (i : nat) (destination : str) (w : Console) :
  let r := run_agent_loop_destination quote unescape v region (i, destination) w in
  (loads w < loads r.2 ≤ loads w + 2)%nat ∧
  (∀ e, r.1 = Raise e → is_Exception e = false) ∧
  (scope (session w) = TopLevel →
   default_content (place_page v) = Ok tt →
   scope (session r.2) = TopLevel).
Proof.
  cbn zeta.
  destruct (run_agent_loop_destination_run v region i destination w) as [lines ->].
  destruct (search_naver_place_session (results v) quote destination region (session w))
    as (Hloads & Hscope & Hans).
  unfold loads.
  destruct (search_naver_place _ _ _ _ _) as [[[[|c u]|]|e] s1];
    cbn [fst snd session] in *;
    try (split; [lia|]; split; [congruence|]; congruence).
  destruct (crawl_reviews_session (place_page v) unescape (c :: u) 10 s1 ltac:(done))
    as (Hloads2 & Hscope2 & Hans2).
  destruct (crawl_reviews _ _ _ _ _) as [[[|r rs]|e] s2];
    cbn [fst snd session] in *;
    try (split; [lia|]; split; [congruence|]; tauto).
  split; [lia|]. split; [|tauto].
  cbn [analyze_reviews_and_recommend].
  destruct (summary v _) as [t|e]; [done|].
  destruct (is_Exception e) eqn:E; [done | congruence].
Qed.

End LoopRuns.

(** X19. When no place is found for a destination, the place page and the
    model play no part: the destination is handled the same way whatever
    they would have answered, and the browser has seen the search only. *)
Theorem place_not_found_skips_crawl
    (quote unescape : str → str) (v v' : Visit) (region : str)
    (i : nat) (destination : str) (w : Console) :
  (search_naver_place (results v) quote destination region (session w)).1 = Ok None →
  results v' = results v →
  run_agent_loop_destination quote unescape v' region (i, destination) w
  = run_agent_loop_destination quote unescape v region (i, destination) w ∧
  session (run_agent_loop_destination quote unescape v region (i, destination) w).2
  = (search_naver_place (results v) quote destination region (session w)).2.
Proof.
  intros Hnone Hsame.
  unfold run_agent_loop_destination, io_bind, browse, place_not_found.
  cbn [print fst snd session printed]. rewrite Hsame.
  destruct (search_naver_place _ _ _ _ _) as [[[url|]|e] s1]; by cbn [fst] in Hnone.
Qed.

(** X20. When the crawl of the place found returns no review, the model is
    not consulted: the destination is handled the same way whatever the
    model would have answered. *)
Theorem analysis_needs_reviews
    (quote unescape : str → str) (v : Visit) (generate_content : str → outcome str)
    (region : str) (i : nat) (destination : str) (w : Console) (url : str) :
  (search_naver_place (results v) quote destination region (session w)).1
  = Ok (Some url) →
  (crawl_reviews (place_page v) unescape (Some url) 10
     (search_naver_place (results v) quote destination region (session w)).2).1
  = Ok [] →
  run_agent_loop_destination quote unescape
    {| results := results v; place_page := place_page v; summary := generate_content |}
    region (i, destination) w
  = run_agent_loop_destination quote unescape v region (i, destination) w.
Proof.
  intros Hfound Hnone.
  unfold run_agent_loop_destination, io_bind, browse, place_not_found.
  cbn [print fst snd session printed results place_page summary].
  destruct (search_naver_place _ _ _ _ _) as [[[[|c u]|]|e] s1]; try done.
  cbn [fst snd] in *. injection Hfound as <-.
  cbn [print fst snd session printed].
  destruct (crawl_reviews _ _ _ _ _) as [[[|r rs]|e] s2]; by cbn [fst] in Hnone.
Qed.

Section Region.
Variable quote : str → str.
Variable unescape : str → str.
Variable generate_content : str → outcome str.
Variable visits : nat → Visit.
Variable region : str.

(** The session after one region is the one the loop over the destinations
    leaves, and so is what is raised. *)
Lemma run_agent_loop_region_run (w : Console) :
  match get_travel_destinations generate_content region with
  | Ok (name :: names) =>
      ∃ w1,
        session w1 = session w ∧
        let r := io_for (enumerate (name :: names) 1)
                   (λ entry, run_agent_loop_destination quote unescape
                               (visits entry.1) region entry) w1 in
        (run_agent_loop_region quote unescape generate_content visits region w).1 = r.1 ∧
        session (run_agent_loop_region quote unescape generate_content visits region w).2
        = session r.2
  | Ok [] =>
      run_agent_loop_region quote unescape generate_content visits region w
      = (Ok tt,
         {| session := session w;
            printed := lit "❌ 여행지를 찾을 수 없습니다. 다른 지역을 시도해보세요."
                       :: ([newline] ++ lit "🔍 " ++ region ++
                           lit " 지역의 여행지를 찾고 있습니다...")
                       :: printed w |})
  | Raise e =>
      run_agent_loop_region quote unescape generate_content visits region w
      = (Raise e,
         {| session := session w;
            printed := ([newline] ++ lit "🔍 " ++ region ++
                        lit " 지역의 여행지를 찾고 있습니다...")
                       :: printed w |})
  end.
Proof.
  unfold run_agent_loop_region, io_bind, consult.
  cbn [print fst snd session printed].
  destruct (get_travel_destinations generate_content region) as [[|name names]|e];
    [done| |done].
  rewrite io_for_print. cbn [print fst snd session printed].
  match goal with |- context [io_for _ _ ?w0] => exists w0 end.
  split; [done|]. cbn zeta.
  split; destruct (io_for _ _ _) as [[[]|e] w2]; reflexivity.
Qed.

End Region.

(** X21. A region whose reply yields no destination is answered without
    touching the browser: two lines are printed and the session is as it
    was. *)
Theorem region_without_destinations
    (quote unescape : str → str) (generate_content : str → outcome str)
    (visits : nat → Visit) (region : str) (w : Console) :
  get_travel_destinations generate_content region = Ok [] →
  run_agent_loop_region quote unescape generate_content visits region w
  = (Ok tt,
     {| session := session w;
        printed := lit "❌ 여행지를 찾을 수 없습니다. 다른 지역을 시도해보세요."
                   :: ([newline] ++ lit "🔍 " ++ region ++
                       lit " 지역의 여행지를 찾고 있습니다...")
                   :: printed w |}).
Proof.
  intros Hnone.
  pose proof (run_agent_loop_region_run quote unescape generate_content visits region w)
    as Hrun.
  by rewrite Hnone in Hrun.
Qed.

(** X22. One region costs at most ten page loads, whatever the model and
    the browser answer. *)
Theorem region_page_loads_bounded
    (quote unescape : str → str) (generate_content : str → outcome str)
    (visits : nat → Visit) (region : str) (w : Console) :
  (loads (run_agent_loop_region quote unescape generate_content visits region w).2
   ≤ loads w + 10)%nat.
Proof.
  pose proof (run_agent_loop_region_run quote unescape generate_content visits region w)
    as Hrun.
  pose proof (get_travel_destinations_length generate_content region) as Hlen.
  destruct (get_travel_destinations generate_content region) as [[|name names]|e].
  - rewrite Hrun. unfold loads. cbn [snd session]. lia.
  - destruct Hrun as (w1 & Hw1 & _ & Hs). unfold loads in *. rewrite Hs.
    specialize (Hlen _ eq_refl).
    pose proof (io_for_loads (enumerate (name :: names) 1)
                  (λ entry, run_agent_loop_destination quote unescape
                              (visits entry.1) region entry) 2 w1) as Hloop.
    unfold loads in Hloop. rewrite enumerate_length, Hw1 in Hloop.
    etrans; [apply Hloop|lia].
    intros [i destination] w0 _.
    pose proof (run_agent_loop_destination_session quote unescape (visits i) region
                  i destination w0) as [Hl _].
    unfold loads in Hl. cbn [fst]. lia.
  - rewrite Hrun. unfold loads. cbn [snd session]. lia.
Qed.

(** X23. Nothing of the class [Exception] escapes from the handling of a
    region: whatever it raises is outside that class. *)
Theorem region_raises_no_exception
    (quote unescape : str → str) (generate_content : str → outcome str)
    (visits : nat → Visit) (region : str) (w : Console) (e : exn) :
  (run_agent_loop_region quote unescape generate_content visits region w).1 = Raise e →
  is_Exception e = false.
Proof.
  pose proof (run_agent_loop_region_run quote unescape generate_content visits region w)
    as Hrun.
  destruct (get_travel_destinations generate_content region) as [[|name names]|e0]
    eqn:Hd.
  - by rewrite Hrun.
  - destruct Hrun as (w1 & _ & -> & _).
    apply (io_for_raises (λ e0, is_Exception e0 = false)).
    intros [i destination] w0 e1 _.
    apply (run_agent_loop_destination_session quote unescape (visits i) region
             i destination w0).
  - rewrite Hrun. cbn [fst]. intros [= <-].
    unfold get_travel_destinations in Hd.
    destruct (generate_content (prompt region)) as [t|e1]; [done|].
    destruct (is_Exception e1) eqn:E; [done | congruence].
Qed.

(** X24. If the browser is at the top level when a region is taken up and
    every reset after a crawl succeeds, it is at the top level again when
    the region is done, also when the handling is cut short by an
    error. *)
Theorem region_ends_at_top_level
    (quote unescape : str → str) (generate_content : str → outcome str)
    (visits : nat → Visit) (region : str) (w : Console) :
  scope (session w) = TopLevel →
  (∀ i, default_content (place_page (visits i)) = Ok tt) →
  scope (session
           (run_agent_loop_region quote unescape generate_content visits region w).2)
  = TopLevel.
Proof.
  intros Htop Hreset.
  pose proof (run_agent_loop_region_run quote unescape generate_content visits region w)
    as Hrun.
  destruct (get_travel_destinations generate_content region) as [[|name names]|e].
  - by rewrite Hrun.
  - destruct Hrun as (w1 & Hw1 & _ & ->).
    apply (io_for_keeps (λ w0, scope (session w0) = TopLevel)); [|by rewrite Hw1].
    intros [i destination] w0 _ Hw0.
    by apply (run_agent_loop_destination_session quote unescape (visits i) region
                i destination w0).
  - by rewrite Hrun.
Qed.

(** * The further properties on the scenarios *)

Lemma destinations_at_most_five_clean_witness :
  get_travel_destinations messy_model (lit "서울")
  = Ok [lit "경복궁"; lit "2)남산타워"; lit "북촌 한옥마을"; lit "- 명동"; lit "홍대"] ∧
  (length [lit "경복궁"; lit "2)남산타워"; lit "북촌 한옥마을"; lit "- 명동"; lit "홍대"] ≤ 5)%nat ∧
  Forall (λ n, n ≠ [] ∧ strip n = n)
    [lit "경복궁"; lit "2)남산타워"; lit "북촌 한옥마을"; lit "- 명동"; lit "홍대"].
Proof.
  split; [by vm_compute|].
  apply (destinations_at_most_five_clean messy_model (lit "서울")).
  by vm_compute.
Defined.

Lemma numbered_reply_round_trip_witness :
  get_travel_destinations numbered_model (lit "서울")
  = Ok (take 5 (map snd numbered_items)).
Proof.
  apply (numbered_reply_round_trip numbered_model (lit "서울") numbered_items).
  - reflexivity.
  - unfold numbered_items.
    repeat (constructor;
            [split; [split; [by vm_compute | by repeat constructor]
                    |split; [by vm_compute
                            |split; [reflexivity
                                    |apply (bool_decide_unpack _); by vm_compute]]]|]).
    constructor.
Defined.

Lemma search_result_is_review_url_witness :
  (∃ sel first others href,
     sel ∈ place_selectors ∧
     find_elements results_page By_CSS_SELECTOR sel = Ok (first :: others) ∧
     get_attribute first (lit "href") = Ok (Some href) ∧
     place_url = force_review_tab href) ∧
  occurs_in (lit "placePath=/review") place_url ∧ place_url ≠ [].
Proof.
  apply (search_result_is_review_url results_page unchanged
           (lit "경복궁") (lit "서울") blank place_url).
  by vm_compute.
Defined.

Lemma search_raises_only_from_load_or_pause_witness :
  (search_naver_place (interrupted results_page) unchanged
     (lit "경복궁") (lit "서울") blank).1 = Raise BaseOnly ∧
  is_Exception BaseOnly = false ∧
  (get (interrupted results_page) (search_url unchanged (lit "경복궁") (lit "서울"))
   = Raise BaseOnly ∨
   get (interrupted results_page) (search_url unchanged (lit "경복궁") (lit "서울"))
   = Ok tt ∧
   sleep (interrupted results_page) 2 = Raise BaseOnly).
Proof.
  split; [by vm_compute|].
  apply (search_raises_only_from_load_or_pause (interrupted results_page) unchanged
           (lit "경복궁") (lit "서울") blank BaseOnly).
  by vm_compute.
Defined.

Lemma search_load_failure_gives_none_witness :
  search_naver_place (unreachable OtherException results_page) unchanged
    (lit "경복궁") (lit "서울") blank
  = (Ok None, add_call (CallGet (search_url unchanged (lit "경복궁") (lit "서울"))) blank).
Proof.
  apply (search_load_failure_gives_none (unreachable OtherException results_page)
           unchanged (lit "경복궁") (lit "서울") blank OtherException).
  - reflexivity.
  - reflexivity.
Defined.

Lemma search_passes_over_unusable_links_witness :
  (search_naver_place untargeted_results_page unchanged
     (lit "경복궁") (lit "서울") blank).1
  = Ok (Some (force_review_tab (lit "https://m.place.naver.com/place/12?entry=pll"))).
Proof.
  apply (proj1 (search_passes_over_unusable_links untargeted_results_page unchanged
                  (lit "경복궁") (lit "서울") blank eq_refl eq_refl)
           [lit "a[href*='place.naver.com']"] (lit "a[href*='/place/']")
           [lit ".place_bluelink a"]
           (link "https://m.place.naver.com/place/12?entry=pll") []
           (lit "https://m.place.naver.com/place/12?entry=pll")).
  - reflexivity.
  - constructor; [|constructor]. right. exists (node "지도"), [].
    split; [reflexivity | left; reflexivity].
  - reflexivity.
  - reflexivity.
Defined.

Lemma crawl_reviews_swallows_exceptions_witness :
  (crawl_reviews (unreachable BaseOnly reviews_page) unchanged
     (Some place_url) 10 blank).1 = Raise BaseOnly ∧
  is_Exception BaseOnly = false.
Proof.
  split; [by vm_compute|].
  apply (crawl_reviews_swallows_exceptions (unreachable BaseOnly reviews_page) unchanged
           (Some place_url) 10 blank BaseOnly).
  by vm_compute.
Defined.

Lemma crawl_load_failure_gives_empty_witness :
  (crawl_reviews (unreachable OtherException reviews_page) unchanged
     (Some place_url) 10 blank).1 = Ok [] ∧
  calls (crawl_reviews (unreachable OtherException reviews_page) unchanged
           (Some place_url) 10 blank).2
  = [CallDefaultContent; CallGet place_url] ++ calls blank.
Proof.
  apply (crawl_load_failure_gives_empty (unreachable OtherException reviews_page)
           unchanged place_url 10 blank OtherException).
  - by vm_compute.
  - reflexivity.
  - reflexivity.
Defined.

Lemma crawl_reviews_snippets_long_witness :
  (crawl_reviews reviews_page unchanged (Some place_url) 10 blank).1
  = Ok [lit "음식이 정말 맛있고 친절했어요"; lit "분위기가 좋아서 다시 가고 싶은 곳"] ∧
  Forall (λ r, 10 < len r)
    [lit "음식이 정말 맛있고 친절했어요"; lit "분위기가 좋아서 다시 가고 싶은 곳"].
Proof.
  split; [by vm_compute|].
  apply (crawl_reviews_snippets_long reviews_page unchanged (Some place_url) 10 blank).
  by vm_compute.
Defined.

Lemma crawl_reviews_bounded_for_all_max_witness :
  (crawl_reviews reviews_page unchanged (Some place_url) (-1) blank).1 = Ok [] ∧
  Z.of_nat (length (@nil str)) ≤ Z.max 0 (-1) ∧ (-1 ≤ 0 → @nil str = []).
Proof.
  split; [by vm_compute|].
  apply (crawl_reviews_bounded_for_all_max reviews_page unchanged (Some place_url)
           (-1) blank []).
  by vm_compute.
Defined.

Lemma crawl_reviews_resets_once_witness :
  count_calls is_reset (crawl_reviews reviews_page unchanged (Some place_url) 10 blank).2
  = S (count_calls is_reset blank).
Proof.
  apply (crawl_reviews_resets_once reviews_page unchanged place_url 10 blank).
  by vm_compute.
Defined.

Lemma tier2_tried_once_after_empty_tier1_witness :
  count_calls is_tier2_query
    (crawl_reviews empty_page unchanged (Some place_url) 10 blank).2
  = S (count_calls is_tier2_query blank).
Proof.
  apply (tier2_tried_once_after_empty_tier1 empty_page unchanged place_url 10 blank).
  - by vm_compute.
  - reflexivity.
  - reflexivity.
  - by vm_compute.
Defined.

Lemma tier2_success_skips_tier3_witness :
  count_calls is_tier3_query
    (crawl_reviews review_list_page unchanged (Some place_url) 10 blank).2
  = count_calls is_tier3_query blank.
Proof.
  apply (tier2_success_skips_tier3 review_list_page unchanged (Some place_url) 10 blank).
  by vm_compute.
Defined.

Lemma tier3_tried_once_after_empty_tiers_witness :
  count_calls is_tier3_query
    (crawl_reviews empty_page unchanged (Some place_url) 10 blank).2
  = S (count_calls is_tier3_query blank).
Proof.
  apply (tier3_tried_once_after_empty_tiers empty_page unchanged place_url 10 blank).
  - by vm_compute.
  - reflexivity.
  - reflexivity.
  - by vm_compute.
  - by vm_compute.
  - by vm_compute.
Defined.

Lemma tier1_result_is_first_matching_pattern_witness :
  (crawl_reviews reviews_page unchanged (Some place_url) 3 blank).1
  = Ok (first_seen
          (take (Z.to_nat 3)
             (tier1_texts
                [node "리뷰"; node "음식이 정말 맛있고 친절했어요";
                 node "음식이 정말 맛있고 친절했어요";
                 node "  분위기가 좋아서 다시 가고 싶은 곳  "]))).
Proof.
  apply (tier1_result_is_first_matching_pattern reviews_page unchanged place_url 3
           [] [lit ".YEtwtZFlx"; lit "span.Wzv5Z90S4"] (lit ".zPfVt")).
  - by vm_compute.
  - reflexivity.
  - reflexivity.
  - lia.
  - reflexivity.
  - constructor.
  - reflexivity.
  - repeat constructor; by eexists.
  - by vm_compute.
Defined.

Lemma analysis_swallows_exceptions_witness :
  is_Exception BaseOnly = false ∧
  [lit "음식이 정말 맛있고 친절했어요"] ≠ [] ∧
  interrupted_model (analysis_prompt (lit "경복궁") [lit "음식이 정말 맛있고 친절했어요"])
  = Raise BaseOnly.
Proof.
  apply (analysis_swallows_exceptions interrupted_model (lit "경복궁")
           [lit "음식이 정말 맛있고 친절했어요"] BaseOnly).
  reflexivity.
Defined.

Lemma reviews_text_lines_witness :
  split newline
    (reviews_text [lit "음식이 정말 맛있고 친절했어요"; lit "분위기가 좋아서 다시 가고 싶은 곳"])
  = map (λ review, lit "- " ++ review)
      [lit "음식이 정말 맛있고 친절했어요"; lit "분위기가 좋아서 다시 가고 싶은 곳"].
Proof.
  apply (reviews_text_lines
           [lit "음식이 정말 맛있고 친절했어요"; lit "분위기가 좋아서 다시 가고 싶은 곳"]).
  - by vm_compute.
  - repeat (constructor; [apply (bool_decide_unpack _); by vm_compute|]). constructor.
Defined.

Lemma place_not_found_skips_crawl_witness :
  run_agent_loop_destination unchanged unchanged
    {| results := empty_page; place_page := empty_page; summary := interrupted_model |}
    (lit "서울") (1%nat, lit "경복궁") console
  = run_agent_loop_destination unchanged unchanged visit_not_found
      (lit "서울") (1%nat, lit "경복궁") console ∧
  session (run_agent_loop_destination unchanged unchanged visit_not_found
             (lit "서울") (1%nat, lit "경복궁") console).2
  = (search_naver_place (results visit_not_found) unchanged
       (lit "경복궁") (lit "서울") (session console)).2.
Proof.
  apply (place_not_found_skips_crawl unchanged unchanged visit_not_found
           {| results := empty_page; place_page := empty_page;
              summary := interrupted_model |}
           (lit "서울") 1%nat (lit "경복궁") console).
  - by vm_compute.
  - reflexivity.
Defined.

Lemma analysis_needs_reviews_witness :
  run_agent_loop_destination unchanged unchanged
    {| results := results visit_no_reviews; place_page := place_page visit_no_reviews;
       summary := interrupted_model |}
    (lit "서울") (1%nat, lit "경복궁") console
  = run_agent_loop_destination unchanged unchanged visit_no_reviews
      (lit "서울") (1%nat, lit "경복궁") console.
Proof.
  apply (analysis_needs_reviews unchanged unchanged visit_no_reviews interrupted_model
           (lit "서울") 1%nat (lit "경복궁") console place_url).
  - by vm_compute.
  - by vm_compute.
Defined.

Lemma region_without_destinations_witness :
  run_agent_loop_region unchanged unchanged silent_model (λ _, visit_found)
    (lit "서울") console
  = (Ok tt,
     {| session := session console;
        printed := lit "❌ 여행지를 찾을 수 없습니다. 다른 지역을 시도해보세요."
                   :: ([newline] ++ lit "🔍 " ++ lit "서울" ++
                       lit " 지역의 여행지를 찾고 있습니다...")
                   :: printed console |}).
Proof.
  apply (region_without_destinations unchanged unchanged silent_model (λ _, visit_found)
           (lit "서울") console).
  by vm_compute.
Defined.

Lemma region_raises_no_exception_witness :
  (run_agent_loop_region unchanged unchanged numbered_model (λ _, visit_interrupted)
     (lit "서울") console).1 = Raise BaseOnly ∧
  is_Exception BaseOnly = false.
Proof.
  split; [by vm_compute|].
  apply (region_raises_no_exception unchanged unchanged numbered_model
           (λ _, visit_interrupted) (lit "서울") console BaseOnly).
  by vm_compute.
Defined.

Lemma region_ends_at_top_level_witness :
  scope (session
           (run_agent_loop_region unchanged unchanged numbered_model (λ _, visit_found)
              (lit "서울") console).2)
  = TopLevel.
Proof.
  apply (region_ends_at_top_level unchanged unchanged numbered_model (λ _, visit_found)
           (lit "서울") console).
  - reflexivity.
  - intros i. reflexivity.
Defined.
